(** * cyclonedx-node-npm: the dependency graph builder and the path-trie nester

    A shallow embedding of [src/builders.ts] (classes [BomBuilder],
    [DummyComponent] and [TreeBuilder]) and of the function [run] of
    [src/cli.ts], the properties of its specification and further
    properties of the code.

    Conventions of the embedding:
    - a JavaScript string is the list of its code units ([jsstring]); the
      code units are modelled as 8-bit characters;
    - a JavaScript [Map] is an association list in insertion order with
      unique keys ([JsMap]);
    - objects that the code mutates and shares (components) live in an
      explicit heap and are referred to by their index. *)

From Stdlib Require Import List Bool Arith ZArith Lia Ascii String Permutation FinFun.
From Stdlib Require Import DecimalString.
Import ListNotations.

Set Warnings "-register-all".

(** ** Strings *)

Definition jsstring := list ascii.

(** String literals of the source are written [(s "...")]. *)
Definition s (x : string) : jsstring := list_ascii_of_string x.

Fixpoint str_eqb (a b : jsstring) : bool :=
  match a, b with
  | [], [] => true
  | x :: a', y :: b' => Ascii.eqb x y && str_eqb a' b'
  | _, _ => false
  end.

(** [b.startsWith(a)] *)
Fixpoint startsWith (b a : jsstring) {struct a} : bool :=
  match a, b with
  | [], _ => true
  | x :: a', y :: b' => Ascii.eqb x y && startsWith b' a'
  | _ :: _, [] => false
  end.

(** ** JavaScript [Map]: association lists in insertion order *)

Module JsMap.
Section Ops.
Context {V : Type}.

Definition t := list (jsstring * V).

Fixpoint get (k : jsstring) (m : t) : option V :=
  match m with
  | [] => None
  | (k', v) :: m' => if str_eqb k' k then Some v else get k m'
  end.

Definition has (k : jsstring) (m : t) : bool :=
  match get k m with Some _ => true | None => false end.

(** [m.set(k, v)]: an existing key keeps its position, a new key is
    appended. *)
Fixpoint set (k : jsstring) (v : V) (m : t) : t :=
  match m with
  | [] => [(k, v)]
  | (k', v') :: m' =>
      if str_eqb k' k then (k', v) :: m' else (k', v') :: set k v m'
  end.

Fixpoint delete (k : jsstring) (m : t) : t :=
  match m with
  | [] => []
  | (k', v') :: m' =>
      if str_eqb k' k then m' else (k', v') :: delete k m'
  end.

Definition keys (m : t) : list jsstring := map fst m.
Definition values (m : t) : list V := map snd m.

(** [new Map(entries)] *)
Definition of_entries (es : list (jsstring * V)) : t :=
  fold_left (fun m e => set (fst e) (snd e) m) es [].
End Ops.
Arguments t : clear implicits.
End JsMap.

(** ** TreeBuilder *)

(** [type PTree = Map<string, PTree>] *)
Inductive PTree : Type :=
| PT (entries : JsMap.t PTree).

Definition entries (t : PTree) : JsMap.t PTree :=
  match t with PT m => m end.

Module TreeBuilder.

(** One pass of the inner loop of [nestPT],
    [for (const [b, bTree] of tree)], for the outer key [a].  The only
    change it makes to [tree] is the deletion of the entry it is visiting,
    so the live iteration visits exactly the entries present when the
    loop starts.  [tree.get(a)] is always defined here (the outer loop
    only visits present keys and [a] itself is never deleted), see
    [nest_inner_keeps]. *)
Definition nest_move (a : jsstring) (t : JsMap.t PTree)
    (e : jsstring * PTree) : JsMap.t PTree :=
  let '(b, bTree) := e in
  if str_eqb a b then t
  else if startsWith b a then
    match JsMap.get a t with
    | Some (PT aTree) =>
        JsMap.delete b
          (JsMap.set a (PT (JsMap.set (skipn (List.length a) b) bTree aTree)) t)
    | None => t
    end
  else t.

Definition nest_inner (a : jsstring) (t : JsMap.t PTree) : JsMap.t PTree :=
  fold_left (nest_move a) t t.

(** The outer loop [for (const a of tree.keys())] runs over the live
    map: no key is ever added to [tree], and a key deleted before the
    iterator reaches it is not visited. *)
Definition nest_outer (t : JsMap.t PTree) : JsMap.t PTree :=
  fold_left (fun t a => if JsMap.has a t then nest_inner a t else t)
            (JsMap.keys t) t.

Fixpoint mapM_values (f : PTree -> option PTree) (m : JsMap.t PTree)
    : option (JsMap.t PTree) :=
  match m with
  | [] => Some []
  | (k, c) :: m' =>
      match f c, mapM_values f m' with
      | Some c', Some r => Some ((k, c') :: r)
      | _, _ => None
      end
  end.

(** [nestPT]; the recursion on the re-grouped subtrees is not structural,
    so it is bounded by [fuel] ([None]: out of fuel). *)
Fixpoint nestPT (fuel : nat) (tree : PTree) : option PTree :=
  match fuel with
  | O => None
  | S fuel' =>
      let '(PT m) := tree in
      if List.length m <? 2 then Some tree
      else
        option_map PT (mapM_values (nestPT fuel') (nest_outer m))
  end.

(** [renderPR]: the loop runs over a copy of the entries,
    [[...tree.entries()]], and re-keys [tree] in place. *)
Fixpoint renderPR (tree : PTree) (pref : jsstring) {struct tree} : PTree :=
  match tree with
  | PT m =>
      PT (fold_left
            (fun t e =>
               let '(p, pTree) := e in
               let t1 := JsMap.delete p t in
               let pFull := pref ++ p in
               let pTree' := renderPR pTree pFull in
               JsMap.set (removelast pFull) pTree' t1)
            m m)
  end.

(** Number of nodes of a tree. *)
Fixpoint nodes (tree : PTree) : nat :=
  match tree with
  | PT m => fold_right (fun e n => S (nodes (snd e)) + n) 0 m
  end.

(** [fromPaths]; [paths] lists the [Set] in its iteration order. *)
(** The map [fromPaths] starts from: one leaf per path, keyed by the
    path followed by the separator. *)
Definition leaves (paths : list jsstring) (dirSeparator : jsstring) : PTree :=
  PT (JsMap.of_entries (map (fun p => (p ++ dirSeparator, PT [])) paths)).

(** The tree after [this.nestPT(tree)]. *)
Definition nested (paths : list jsstring) (dirSeparator : jsstring)
    : option PTree :=
  let tree := leaves paths dirSeparator in
  nestPT (S (nodes tree)) tree.

(** [fromPaths]; [paths] lists the [Set] in its iteration order. *)
Definition fromPaths (paths : list jsstring) (dirSeparator : jsstring)
    : option PTree :=
  match nested paths dirSeparator with
  | Some tree => Some (renderPR tree [])
  | None => None
  end.

End TreeBuilder.


(** ** Raw records of the npm listing *)

(** The value [JSON.parse] returns ([data: any]).  The fields of an object
    are listed in the order [Object.entries] enumerates them. *)
Inductive json : Type :=
| JNull
| JBool (b : bool)
| JNum (n : Z)
| JStr (x : jsstring)
| JArr (items : list json)
| JObj (fields : list (jsstring * json)).

(** [data.name] for a value that is not [null]; [None] is [undefined].
    None of the names the builder reads is a property of a primitive value
    or of an array. *)
Definition get_prop (data : json) (name : string) : option json :=
  match data with
  | JObj fields => JsMap.get (s name) fields
  | _ => None
  end.

(** [a ?? b] *)
Definition nullish (a b : option json) : option json :=
  match a with
  | None | Some JNull => b
  | Some _ => a
  end.

(** [v === true] *)
Definition is_true (v : option json) : bool :=
  match v with
  | Some (JBool true) => true
  | _ => false
  end.

(** [typeof v === 'string'] *)
Definition as_string (v : option json) : option jsstring :=
  match v with
  | Some (JStr x) => Some x
  | _ => None
  end.

(** [v !== null && typeof v === 'object'] *)
Definition is_object (v : json) : bool :=
  match v with
  | JObj _ | JArr _ => true
  | _ => false
  end.

Definition index_key (i : nat) : jsstring :=
  s (NilZero.string_of_uint (Nat.to_uint i)).

(** [Object.entries(v)] *)
Definition Object_entries (v : json) : list (jsstring * json) :=
  match v with
  | JObj fields => fields
  | JArr items => combine (map index_key (seq 0 (List.length items))) items
  | JStr x =>
      combine (map index_key (seq 0 (List.length x))) (map (fun c => JStr [c]) x)
  | _ => []
  end.

(** [target.name = v] on an object. *)
Definition set_prop (target : json) (name : string) (v : json) : json :=
  match target with
  | JObj fields => JObj (JsMap.set (s name) v fields)
  | _ => target
  end.

(** [Object.assign(target, source)] for two objects. *)
Definition Object_assign (target source : json) : json :=
  match target, source with
  | JObj tf, JObj sf =>
      JObj (fold_left (fun m e => JsMap.set (fst e) (snd e) m) sf tf)
  | _, _ => source
  end.

Fixpoint json_depth (j : json) : nat :=
  match j with
  | JArr items => S (fold_right (fun x n => Nat.max (json_depth x) n) 0 items)
  | JObj fields =>
      S (fold_right (fun e n => Nat.max (json_depth (snd e)) n) 0 fields)
  | _ => 0
  end.

(** ** More of [String.prototype] *)

Definition lower (c : ascii) : ascii :=
  let n := nat_of_ascii c in
  if (65 <=? n) && (n <=? 90) then ascii_of_nat (n + 32) else c.

(** [b] starts with [a], letters compared without their case. *)
Definition startsWith_ci (b a : jsstring) : bool :=
  startsWith (map lower b) (map lower a).

Definition is_space (c : ascii) : bool :=
  let n := nat_of_ascii c in
  ((9 <=? n) && (n <=? 13)) || (n =? 32) || (n =? 160).

Fixpoint trimStart (x : jsstring) : jsstring :=
  match x with
  | c :: x' => if is_space c then trimStart x' else x
  | [] => []
  end.

(** [x.trim()] *)
Definition trim (x : jsstring) : jsstring := rev (trimStart (rev (trimStart x))).

(** [x.replace(pattern, by)] for a one-unit string pattern: the first
    occurrence only. *)
Fixpoint replace_first (pattern : ascii) (by_ : jsstring) (x : jsstring)
    : jsstring :=
  match x with
  | [] => []
  | c :: x' =>
      if Ascii.eqb c pattern then by_ ++ x' else c :: replace_first pattern by_ x'
  end.

(** ** The model of the document (the part of [@cyclonedx/cyclonedx-library]
    the builder writes to) *)

Inductive ComponentType : Type :=
| Application | Framework | Library | Container | OperatingSystem
| Device | Firmware | File.

Inductive ComponentScope : Type := Required | Optional | Excluded.

Inductive HashAlgorithm : Type := SHA_512 | SHA_1 | SHA_256 | SHA_384.

Inductive ExternalReferenceType : Type := Distribution | OtherReference.

Record ExternalReference : Type := mkExternalReference {
  er_url : jsstring;
  er_type : ExternalReferenceType;
  er_hashes : list (HashAlgorithm * jsstring);
  er_comment : jsstring
}.

(** Modelled from the spec: the property names of [./properties] (install
    path, development, extraneous, private and bundled flag), a file that
    is not among the sources; the builder only relies on their being
    different. *)
Inductive PropertyName : Type :=
| PackageInstallPath | PackageDevelopment | PackageExtraneous
| PackagePrivate | PackageBundled.

Record Property : Type := mkProperty {
  p_name : PropertyName;
  p_value : jsstring
}.

Record PackageURL : Type := mkPackageURL {
  purl_coordinates : jsstring;
  purl_qualifiers : option (list (jsstring * jsstring));
  purl_subpath : option jsstring
}.

(** Components are objects: they are shared between the component map,
    the dependency sets and the nested forest, and mutated in place.  A
    component is referred to by its index in the heap; its [BomRef] object
    is referred to by the same index. *)
Definition cid := nat.

Record Component : Type := mkComponent {
  c_type : ComponentType;
  c_name : jsstring;
  c_group : option jsstring;
  c_version : option jsstring;
  c_description : option jsstring;
  c_bomRef : option jsstring;                     (* [bomRef.value] *)
  c_scope : option ComponentScope;
  c_properties : list Property;
  c_externalReferences : list ExternalReference;
  c_purl : option PackageURL;
  c_components : list cid;                        (* [ComponentRepository] *)
  c_dependencies : list cid;                      (* [BomRefRepository] *)
  c_isDummy : bool                                (* [instanceof DummyComponent] *)
}.

Definition set_bomRef (v : option jsstring) (c : Component) : Component :=
  mkComponent (c_type c) (c_name c) (c_group c) (c_version c) (c_description c)
    v (c_scope c) (c_properties c) (c_externalReferences c) (c_purl c)
    (c_components c) (c_dependencies c) (c_isDummy c).

Definition set_scope (v : option ComponentScope) (c : Component) : Component :=
  mkComponent (c_type c) (c_name c) (c_group c) (c_version c) (c_description c)
    (c_bomRef c) v (c_properties c) (c_externalReferences c) (c_purl c)
    (c_components c) (c_dependencies c) (c_isDummy c).

Definition set_properties (v : list Property) (c : Component) : Component :=
  mkComponent (c_type c) (c_name c) (c_group c) (c_version c) (c_description c)
    (c_bomRef c) (c_scope c) v (c_externalReferences c) (c_purl c)
    (c_components c) (c_dependencies c) (c_isDummy c).

Definition set_externalReferences (v : list ExternalReference) (c : Component)
    : Component :=
  mkComponent (c_type c) (c_name c) (c_group c) (c_version c) (c_description c)
    (c_bomRef c) (c_scope c) (c_properties c) v (c_purl c)
    (c_components c) (c_dependencies c) (c_isDummy c).

Definition set_purl (v : option PackageURL) (c : Component) : Component :=
  mkComponent (c_type c) (c_name c) (c_group c) (c_version c) (c_description c)
    (c_bomRef c) (c_scope c) (c_properties c) (c_externalReferences c) v
    (c_components c) (c_dependencies c) (c_isDummy c).

Definition set_components (v : list cid) (c : Component) : Component :=
  mkComponent (c_type c) (c_name c) (c_group c) (c_version c) (c_description c)
    (c_bomRef c) (c_scope c) (c_properties c) (c_externalReferences c) (c_purl c)
    v (c_dependencies c) (c_isDummy c).

Definition set_dependencies (v : list cid) (c : Component) : Component :=
  mkComponent (c_type c) (c_name c) (c_group c) (c_version c) (c_description c)
    (c_bomRef c) (c_scope c) (c_properties c) (c_externalReferences c) (c_purl c)
    (c_components c) v (c_isDummy c).

(** The double quote. *)
Definition dquote : jsstring := ["034"%char].

(** [new Models.Component(type, name, { bomRef, description })] *)
Definition new_Component (type : ComponentType) (name : jsstring)
    (bomRef description : option jsstring) : Component :=
  mkComponent type name None None description bomRef None [] [] None [] [] false.

(** [class DummyComponent] *)
Definition DummyComponent (type : ComponentType) (name : jsstring) : Component :=
  mkComponent type (s "DummyComponent." ++ name) None None
    (Some (s "This is a dummy component " ++ dquote ++ name ++ dquote ++
           s " that fills the gap where the actual built failed."))
    (Some (s "DummyComponent." ++ name)) None [] [] None [] [] true.

(** The heap of components. *)
Definition Heap := list Component.

Fixpoint update_nth {A : Type} (n : nat) (f : A -> A) (l : list A) : list A :=
  match l, n with
  | [], _ => []
  | x :: l', O => f x :: l'
  | x :: l', S n' => x :: update_nth n' f l'
  end.

(** [set.add(c)] for a set of objects, in insertion order. *)
Definition set_add (c : cid) (l : list cid) : list cid :=
  if existsb (Nat.eqb c) l then l else l ++ [c].

(** The document: [bom.metadata.component] and [bom.components].  The
    tools, the serial number and the timestamp of the metadata are set
    from the environment and do not depend on the components; they are
    left out. *)
Record Bom : Type := mkBom {
  bom_metadata_component : cid;
  bom_components : list cid
}.

(** ** BomBuilder *)

Inductive OmittableDependencyTypes : Type := dev | optional | peer.

Definition omittable_eqb (a b : OmittableDependencyTypes) : bool :=
  match a, b with
  | dev, dev | optional, optional | peer, peer => true
  | _, _ => false
  end.

(** The options of a [BomBuilder] the build reads. *)
Record BomBuilderOptions : Type := mkBomBuilder {
  metaComponentType : ComponentType;
  packageLockOnly : bool;
  omitDependencyTypes : list OmittableDependencyTypes;
  reproducible : bool;
  flattenComponents : bool;
  shortPURLs : bool
}.

(** [this.omitDependencyTypes.has(t)] *)
Definition omits (this : BomBuilderOptions) (t : OmittableDependencyTypes) : bool :=
  existsb (omittable_eqb t) (omitDependencyTypes this).

(** What the builder of the library makes of a normalized record. *)
Record BuiltComponent : Type := mkBuilt {
  b_type : ComponentType;
  b_name : jsstring;
  b_group : option jsstring;
  b_version : option jsstring;
  b_description : option jsstring;
  b_externalReferences : list ExternalReference
}.

(** The collaborators of the builder that are not part of this
    repository (packages [normalize-package-data],
    [@cyclonedx/cyclonedx-library], [node:path], the file system).
    [normalizePackageData] throws on a record it rejects (a version that
    is not valid, a name that is not a string) and [require] on a file it
    cannot load; the others are taken as functions that return. *)
Record Collaborators : Type := mkCollaborators {
  (** [normalizePackageData(data)]: the record as it is normalized in
      place; [None] when it throws *)
  normalizePackageData : json -> option json;
  componentBuilder_makeComponent :
    json -> option ComponentType -> option BuiltComponent;
  purlFactory_makeFromComponent : Component -> bool -> option PackageURL;
  path_isAbsolute : jsstring -> bool;
  path_join : jsstring -> jsstring -> jsstring;
  (** [require(file)]; [None] when it throws *)
  require : jsstring -> option json;
  path_posix_relative : jsstring -> jsstring -> jsstring;
  path_win32_relative : jsstring -> jsstring -> jsstring;
  (** [PropertyValueBool.True] of [./properties] *)
  PropertyValueBool_True : jsstring
}.

(** What [makeComponent] returns: a component, [false] or [undefined]. *)
Inductive Made : Type :=
| MadeComponent (c : Component)
| MadeFalse
| MadeUndefined.

(** The state of the walk: the heap and the map [allComponents]. *)
Record State : Type := mkState {
  heap : Heap;
  allComponents : JsMap.t cid
}.

Module HashExtractor.

(** The class [[a-z0-9+/]] under the flag [i]. *)
Definition isBase64Char (c : ascii) : bool :=
  let n := nat_of_ascii c in
  ((97 <=? n) && (n <=? 122)) || ((65 <=? n) && (n <=? 90)) ||
  ((48 <=? n) && (n <=? 57)) || (n =? 43) || (n =? 47).

(** [/^<prefix>([a-z0-9+/]{count}<padding>)$/i.exec(x)]: the capture
    group of a match. *)
Definition exec (prefix : jsstring) (count : nat) (padding : jsstring)
    (x : jsstring) : option jsstring :=
  if startsWith_ci x prefix then
    let rest := skipn (List.length prefix) x in
    if (List.length rest =? count + List.length padding) &&
       forallb isBase64Char (firstn count rest) &&
       str_eqb (skipn count rest) padding
    then Some rest else None
  else None.

(** [integrityRE], in its order. *)
Definition integrityRE : list (HashAlgorithm * (jsstring -> option jsstring)) :=
  [ (SHA_512, exec (s "sha512-") 86 (s "=="));
    (SHA_1, exec (s "sha1-") 27 (s "="));
    (SHA_256, exec (s "sha256-") 43 (s "="));
    (SHA_384, exec (s "sha384-") 64 (s "")) ].

(** The value of a character of the base64 alphabet. *)
Definition b64val (c : ascii) : option nat :=
  let n := nat_of_ascii c in
  if (65 <=? n) && (n <=? 90) then Some (n - 65)
  else if (97 <=? n) && (n <=? 122) then Some (n - 71)
  else if (48 <=? n) && (n <=? 57) then Some (n + 4)
  else if (n =? 43) || (n =? 45) then Some 62
  else if (n =? 47) || (n =? 95) then Some 63
  else None.

(** The 6-bit values of the characters before the padding. *)
Fixpoint sextets (x : jsstring) : list nat :=
  match x with
  | [] => []
  | c :: x' =>
      match b64val c with
      | Some v => v :: sextets x'
      | None => []
      end
  end.

Fixpoint bytes_of_sextets (l : list nat) : list nat :=
  match l with
  | a :: b :: c :: d :: r =>
      (a * 4 + b / 16) :: ((b mod 16) * 16 + c / 4) :: ((c mod 4) * 64 + d)
      :: bytes_of_sextets r
  | [a; b; c] => [a * 4 + b / 16; (b mod 16) * 16 + c / 4]
  | [a; b] => [a * 4 + b / 16]
  | _ => []
  end.

(** [Buffer.from(x, 'base64')], for a capture of [integrityRE]:
    characters of the alphabet followed by the padding. *)
Definition base64_decode (x : jsstring) : list nat :=
  bytes_of_sextets (sextets x).

Definition hex_digit (n : nat) : ascii :=
  nth n (s "0123456789abcdef") "0"%char.

(** [buffer.toString('hex')] *)
Definition to_hex (bytes : list nat) : jsstring :=
  flat_map (fun b => [hex_digit (b / 16); hex_digit (b mod 16)]) bytes.

(** The loop over [integrityRE] in [makeComponent]: the hashes of the
    distribution reference. *)
Fixpoint first_match (res : list (HashAlgorithm * (jsstring -> option jsstring)))
    (integrity : jsstring) : list (HashAlgorithm * jsstring) :=
  match res with
  | [] => []
  | (hashAlgorithm, hashRE) :: res' =>
      match hashRE integrity with
      | Some hashMatchBase64 =>
          [(hashAlgorithm, to_hex (base64_decode hashMatchBase64))]
      | None => first_match res' integrity
      end
  end.

Definition hashes_of_integrity (integrity : jsstring)
    : list (HashAlgorithm * jsstring) :=
  first_match integrityRE integrity.

End HashExtractor.

Module BomBuilder.
Section WithCollaborators.
Variable E : Collaborators.

(** [enhancedPackageData]; [data.path] is a string by the type of the
    method. *)
Definition enhancedPackageData (path : jsstring) (data : json) : json :=
  if negb (path_isAbsolute E path) then data
  else
    let packageJsonPath := path_join E path (s "package.json") in
    match require E packageJsonPath with
    | Some packageJson => Object_assign packageJson data
    | None => data
    end.

(** [resolvedRE_ignore.test(resolved)] *)
Definition resolvedRE_ignore (resolved : jsstring) : bool :=
  startsWith_ci resolved (s "ignore:") || startsWith_ci resolved (s "file:").

(** [x || '-'] *)
Definition or_dash (x : option jsstring) : jsstring :=
  match x with
  | Some ((_ :: _) as v) => v
  | _ => s "-"
  end.

Definition makePurl (this : BomBuilderOptions) (component : Component)
    : option PackageURL :=
  match purlFactory_makeFromComponent E component (reproducible this) with
  | None => None
  | Some purl =>
      if shortPURLs this
      then Some (mkPackageURL (purl_coordinates purl) None None)
      else Some purl
  end.

(** [if (b) { mutate(component) }] *)
Definition when (b : bool) (mutate : Component -> Component)
    (component : Component) : Component :=
  if b then mutate component else component.

(** [if (typeof v === 'string') { mutate(v, component) }] *)
Definition when_string (v : option jsstring)
    (mutate : jsstring -> Component -> Component) (component : Component)
    : Component :=
  match v with
  | Some x => mutate x component
  | None => component
  end.

(** [component.properties.add(new Models.Property(name, value))] *)
Definition add_property (name : PropertyName) (value : jsstring)
    (c : Component) : Component :=
  set_properties (c_properties c ++ [mkProperty name value]) c.

(** [component.externalReferences.add(reference)] *)
Definition add_externalReference (reference : ExternalReference)
    (c : Component) : Component :=
  set_externalReferences (c_externalReferences c ++ [reference]) c.

(** The distribution reference of [makeComponent], for a [resolved] that
    is a string. *)
Definition add_distribution (data : json) (resolved : jsstring)
    (component : Component) : Component :=
  if resolvedRE_ignore resolved then component
  else
    let integrity :=
      as_string (nullish (get_prop data "integrity")
                         (get_prop data "_integrity")) in
    let hashes :=
      match integrity with
      | Some integrity => HashExtractor.hashes_of_integrity integrity
      | None => []
      end in
    add_externalReference
      (mkExternalReference resolved Distribution hashes
         (s "as detected from npm-ls property " ++ dquote ++
          s "resolved" ++ dquote ++
          (if 0 <? List.length hashes
           then s " and property " ++ dquote ++ s "integrity" ++ dquote
           else [])))
      component.

(** [component.purl = this.makePurl(component)] *)
Definition assign_purl (this : BomBuilderOptions) (component : Component)
    : Component :=
  set_purl (makePurl this component) component.

(** The assignment of [component.bomRef.value] in [makeComponent]. *)
Definition assign_bomRef (data : json) (component : Component) : Component :=
  set_bomRef
    (Some match as_string (get_prop data "_id") with
          | Some ((_ :: _) as id) => id
          | _ =>
              or_dash (c_group component) ++ s "/" ++ c_name component ++
              s "@" ++ or_dash (c_version component)
          end)
    component.

(** [makeComponent]; [None] when it throws: [enhancedPackageData] needs
    [data.path] to be a string, and [normalizePackageData] throws on a
    record it rejects (the call is not guarded). *)
Definition makeComponent (this : BomBuilderOptions) (data : json)
    (type : option ComponentType) : option Made :=
  let isOptional :=
    is_true (nullish (get_prop data "optional") (get_prop data "_optional")) in
  if isOptional && omits this optional then Some MadeFalse else
  let isDev :=
    is_true (nullish (get_prop data "dev") (get_prop data "_development")) in
  if isDev && omits this dev then Some MadeFalse else
  let isDevOptional := is_true (get_prop data "devOptional") in
  if isDevOptional && omits this dev && omits this optional
  then Some MadeFalse else
  let enhanced :=
    if packageLockOnly this then Some data
    else match as_string (get_prop data "path") with
         | Some path => Some (enhancedPackageData path data)
         | None => None
         end in
  match enhanced with
  | None => None
  | Some dataC0 =>
  match normalizePackageData E dataC0 with
  | None => None
  | Some dataC1 =>
  let dataC :=
    match as_string (get_prop data "version") with
    | Some version => set_prop dataC1 "version" (JStr (trim version))
    | None => dataC1
    end in
  match componentBuilder_makeComponent E dataC type with
  | None => Some MadeUndefined
  | Some built =>
  let component :=
    mkComponent (b_type built) (b_name built) (b_group built)
      (b_version built) (b_description built) None None []
      (b_externalReferences built) None [] [] false in
  let component :=
    when (isOptional || isDevOptional) (set_scope (Some Optional)) component in
  let component :=
    when_string (as_string (get_prop data "path"))
      (add_property PackageInstallPath) component in
  let component :=
    when (isDev || isDevOptional)
      (add_property PackageDevelopment (PropertyValueBool_True E)) component in
  let component :=
    when (is_true (get_prop data "extraneous"))
      (add_property PackageExtraneous (PropertyValueBool_True E)) component in
  let component :=
    when (is_true (get_prop data "private") || is_true (get_prop dataC "private"))
      (add_property PackagePrivate (PropertyValueBool_True E)) component in
  let component :=
    when (is_true (nullish (get_prop data "inBundle") (get_prop data "_inBundle")))
      (add_property PackageBundled (PropertyValueBool_True E)) component in
  let component :=
    when_string
      (as_string (nullish (get_prop data "resolved") (get_prop data "_resolved")))
      (add_distribution data) component in
  let component := assign_purl this component in
  let component := assign_bomRef data component in
  Some (MadeComponent component)
  end
  end
  end.

(** [directDepRefs.add(dep.bomRef)], where [directDepRefs] is the set
    [dependencies] of the component [owner]. *)
Definition add_dependency (owner dep : cid) (st : State) : State :=
  mkState
    (update_nth owner
       (fun c => set_dependencies (set_add dep (c_dependencies c)) c) (heap st))
    (allComponents st).

(** A loop whose body may fail. *)
Fixpoint for_each {A S : Type} (body : S -> A -> option S) (l : list A)
    (st : S) : option S :=
  match l with
  | [] => Some st
  | x :: l' =>
      match body st x with
      | Some st' => for_each body l' st'
      | None => None
      end
  end.

(** The body of the loop of [gatherDependencies]; [recurse] is the
    recursive call. *)
Definition gatherEntry (this : BomBuilderOptions)
    (recurse : State -> json -> cid -> option State)
    (directDepRefs : cid) (st : State) (entry : jsstring * json)
    : option State :=
  let '(depName, depData) := entry in
  if negb (is_object depData) then Some st else
  match as_string (get_prop depData "path") with
  | None => Some st
  | Some path =>
      match JsMap.get path (allComponents st) with
      | Some dep => recurse (add_dependency directDepRefs dep st) depData dep
      | None =>
          match makeComponent this depData None with
          | None => None
          | Some MadeFalse => Some st
          | Some made =>
              let component :=
                match made with
                | MadeComponent c => c
                | _ => DummyComponent Library
                         (s "InterferedDependency." ++ depName)
                end in
              let dep := List.length (heap st) in
              let st1 :=
                mkState (heap st ++ [component])
                        (JsMap.set path dep (allComponents st)) in
              recurse (add_dependency directDepRefs dep st1) depData dep
          end
      end
  end.

(** [data.dependencies ?? {}] *)
Definition dependencies_of (data : json) : json :=
  match nullish (get_prop data "dependencies") None with
  | Some v => v
  | None => JObj []
  end.

(** [gatherDependencies]; the recursion follows the raw tree, [fuel]
    bounds its depth ([None]: out of fuel, or an exception). *)
Fixpoint gatherDependencies (this : BomBuilderOptions) (fuel : nat)
    (st : State) (data : json) (directDepRefs : cid) : option State :=
  match fuel with
  | O => None
  | S fuel' =>
      for_each (gatherEntry this (gatherDependencies this fuel') directDepRefs)
               (Object_entries (dependencies_of data)) st
  end.

(** [finalizePathProperties] for one component. *)
Definition finalize_component (rootPath : jsstring) (c : Component) : Component :=
  let relativePath :=
    match rootPath with
    | "/"%char :: _ => path_posix_relative E
    | _ => path_win32_relative E
    end in
  let dirSep := match rootPath with "/"%char :: _ => "/"%char | _ => "\"%char end in
  set_properties
    (flat_map
       (fun property =>
          match p_name property with
          | PackageInstallPath =>
              match p_value property with
              | [] => []
              | value =>
                  [mkProperty PackageInstallPath
                     (replace_first dirSep (s "/") (relativePath rootPath value))]
              end
          | _ => [property]
          end)
       (c_properties c))
    c.

(** [finalizePathProperties(rootPath, allComponents.values())], for a
    root path that is a string. *)
Definition finalizePathProperties (rootPath : jsstring) (components : list cid)
    (h : Heap) : Heap :=
  match rootPath with
  | [] => h
  | _ => fold_left (fun h c => update_nth c (finalize_component rootPath) h)
                   components h
  end.

(** [nestComponents]: the forest it returns and the heap it leaves. *)
Fixpoint nestComponents (allComponents : JsMap.t cid) (tree : PTree)
    (h : Heap) {struct tree} : Heap * list cid :=
  match tree with
  | PT m =>
      fold_left
        (fun acc e =>
           let '(h, children) := acc in
           let '(p, pTree) := e in
           let component := JsMap.get p allComponents in
           let '(h', components) := nestComponents allComponents pTree h in
           match component with
           | None => (h', fold_left (fun ch c => set_add c ch) components children)
           | Some component =>
               (update_nth component (set_components components) h',
                set_add component children)
           end)
        m (h, [])
  end.

(** [adjustNestedBomRefs]; the recursion follows the components of the
    heap, [fuel] bounds its depth. *)
Fixpoint adjustNestedBomRefs (fuel : nat) (h : Heap) (component : cid)
    (pref : jsstring) : option Heap :=
  match fuel with
  | O => None
  | S fuel' =>
      match nth_error h component with
      | None => None
      | Some c =>
          match c_bomRef c with
          | None => Some h
          | Some value =>
              let h1 := update_nth component (set_bomRef (Some (pref ++ value))) h in
              let fill := (pref ++ value) ++ s "|" in
              for_each (fun h c' => adjustNestedBomRefs fuel' h c' fill)
                       (c_components c) h1
          end
      end
  end.

(** The first region of [buildFromNpmLs], "all components &
    dependencies", up to the call of [gatherDependencies]: the root
    path and the state of the walk.  The model covers the raw trees
    whose root carries a string [path]; for another root the source
    throws a [TypeError] ([path] missing or [null]) or keys its map by a
    value that is not a string, and the model returns [None]. *)
Definition walk (this : BomBuilderOptions) (data : json)
    : option (jsstring * State) :=
  match as_string (get_prop data "path") with
  | None => None
  | Some rootPath =>
  match makeComponent this data (Some (metaComponentType this)) with
  | None => None
  | Some made =>
  let rootComponent :=
    match made with
    | MadeComponent c => c
    | _ => DummyComponent (metaComponentType this) (s "RootComponent")
    end in
  let st0 := mkState [rootComponent] [(rootPath, 0)] in
  match gatherDependencies this (S (json_depth data)) st0 data 0 with
  | None => None
  | Some st1 => Some (rootPath, st1)
  end end end.

(** [bom.components.forEach(c => { this.adjustNestedBomRefs(c, '') })].
    A component is nested under the component of another node of the
    trie, so the number of nodes of the trie bounds the depth. *)
Definition adjustAll (fuel : nat) (components : list cid) (h : Heap)
    : option Heap :=
  for_each (fun h c => adjustNestedBomRefs fuel h c []) components h.

(** [buildFromNpmLs] up to [rootComponent.components.clear()]: the heap,
    the component map and the nested forest. *)
Definition buildNested (this : BomBuilderOptions) (data : json)
    : option (Heap * JsMap.t cid * list cid) :=
  match walk this data with
  | None => None
  | Some (rootPath, st1) =>
  let all := allComponents st1 in
  let h2 := finalizePathProperties rootPath (JsMap.values all) (heap st1) in
  let dirSeparator :=
    match rootPath with "/"%char :: _ => s "/" | _ => s "\" end in
  match TreeBuilder.fromPaths (JsMap.keys all) dirSeparator with
  | None => None
  | Some tree =>
  let nonRoot := filter (fun e => negb (snd e =? 0)) all in
  let '(h3, components) := nestComponents nonRoot tree h2 in
  match adjustAll (S (TreeBuilder.nodes tree)) components h3 with
  | None => None
  | Some h4 =>
  let h5 := update_nth 0 (set_components []) h4 in
  Some (h5, all, components)
  end end end.

(** The loop of the flatten mode. *)
Definition flatten (all : JsMap.t cid) (acc : Heap * list cid)
    : Heap * list cid :=
  fold_left
    (fun acc component =>
       let '(h, components) := acc in
       let h' := update_nth component (set_components []) h in
       if negb (component =? 0) then (h', set_add component components)
       else (h', components))
    (JsMap.values all) acc.

(** [buildFromNpmLs]: the heap of the components and the document. *)
Definition buildFromNpmLs (this : BomBuilderOptions) (data : json)
    : option (Heap * Bom) :=
  match buildNested this data with
  | None => None
  | Some (h, all, components) =>
      let '(h', components') :=
        if flattenComponents this then flatten all (h, components)
        else (h, components) in
      Some (h', mkBom 0 components')
  end.

End WithCollaborators.
End BomBuilder.

(** ** Running the model *)

(** Stand-ins for the collaborators, to run the builder on concrete
    trees: the record is normalized to itself, a component is built from
    any record with a string [name], there is no package URL and no file
    to load, and a path is made relative by dropping the root path and
    the separator that follows it. *)
Definition demo_makeComponent (data : json) (type : option ComponentType)
    : option BuiltComponent :=
  match as_string (get_prop data "name") with
  | Some name =>
      Some (mkBuilt (match type with Some t => t | None => Library end)
                    name None (as_string (get_prop data "version")) None [])
  | None => None
  end.

Definition demo : Collaborators :=
  mkCollaborators
    (fun data => Some data)
    demo_makeComponent
    (fun _ _ => None)
    (fun _ => false)
    (fun a b => a ++ s "/" ++ b)
    (fun _ => None)
    (fun from to => skipn (S (List.length from)) to)
    (fun from to => skipn (S (List.length from)) to)
    (s "true").

(** A raw record with a name, a version, the identity [name@version], an
    install path, some flags and its dependencies. *)
Definition record (name version path : string) (flags : list (jsstring * json))
    (dependencies : list (jsstring * json)) : json :=
  JObj ([(s "name", JStr (s name)); (s "version", JStr (s version));
         (s "_id", JStr (s name ++ s "@" ++ s version));
         (s "path", JStr (s path))] ++ flags ++
        [(s "dependencies", JObj dependencies)]).

Definition options (omit : list OmittableDependencyTypes) (flatten : bool)
    : BomBuilderOptions :=
  mkBomBuilder Application true omit true flatten false.

(** ** Reading a hash *)

(** The number of bytes that [count] characters of base64 encode. *)
Fixpoint decoded_length (count : nat) : nat :=
  match count with
  | S (S (S (S k))) => 3 + decoded_length k
  | 3 => 2
  | 2 => 1
  | _ => 0
  end.

Definition is_lower_hex (c : ascii) : bool :=
  existsb (Ascii.eqb c) (s "0123456789abcdef").

(** [x] has the form of the pattern
    [/^<prefix>([a-z0-9+/]{count}<padding>)$/i]. *)
Definition integrity_form (prefix : jsstring) (count : nat) (padding : jsstring)
    (x : jsstring) : Prop :=
  exists pre payload,
    x = pre ++ payload ++ padding /\
    map lower pre = map lower prefix /\
    List.length payload = count /\
    forallb HashExtractor.isBase64Char payload = true.

(** [x] has one of the four forms of [integrityRE]. *)
Definition integrity_matches (x : jsstring) : Prop :=
  integrity_form (s "sha512-") 86 (s "==") x \/
  integrity_form (s "sha1-") 27 (s "=") x \/
  integrity_form (s "sha256-") 43 (s "=") x \/
  integrity_form (s "sha384-") 64 (s "") x.

(** ** The invariant of the walk *)

(** The keys of the component map are pairwise different, its values are
    the components of the heap in the order of their creation, and no
    component is nested yet or without a reference token. *)
Definition walk_inv (st : State) : Prop :=
  NoDup (JsMap.keys (allComponents st)) /\
  JsMap.values (allComponents st) = seq 0 (List.length (heap st)) /\
  Forall (fun c => c_components c = [] /\ c_bomRef c <> None) (heap st).

(** [st'] comes after [st] in a walk: every path keeps its component and
    every component is the same object, but for the dependency edges it
    gained. *)
Definition extends (st st' : State) : Prop :=
  (forall p c, JsMap.get p (allComponents st) = Some c ->
               JsMap.get p (allComponents st') = Some c) /\
  (forall i c, nth_error (heap st) i = Some c ->
     exists c', nth_error (heap st') i = Some c' /\
                set_dependencies [] c' = set_dependencies [] c).

(** What the enrichment of [makeComponent] leaves alone: the nested
    components of a component and its being a placeholder. *)
Definition shape (c : Component) : list cid * bool :=
  (c_components c, c_isDummy c).

(** The example of the specification for the de-duplication: the package
    [c] is listed twice, below [a] without its dependencies and at the top
    level with them. *)
Definition ex_dedup : json :=
  record "proj" "1.0.0" "/proj" []
    [(s "a", record "a" "1.0.0" "/proj/node_modules/a" []
        [(s "c", record "c" "3.0.0" "/proj/node_modules/c" [] [])]);
     (s "c", record "c" "3.0.0" "/proj/node_modules/c" []
        [(s "d", record "d" "4.0.0" "/proj/node_modules/d" [] [])])].

(** ** Reading the nested forest *)

(** A forest of components, as values. *)
Inductive CTree : Type :=
| CNode (c : cid) (kids : list CTree).

Definition root_of (t : CTree) : cid :=
  match t with CNode c _ => c end.

(** The components of a tree, parents first. *)
Fixpoint cids_of (t : CTree) : list cid :=
  match t with
  | CNode c kids => c :: flat_map cids_of kids
  end.

(** Every component of a tree with its chain of ancestors, outermost
    first. *)
Fixpoint chains (ancestors : list cid) (t : CTree) : list (list cid * cid) :=
  match t with
  | CNode c kids => (ancestors, c) :: flat_map (chains (ancestors ++ [c])) kids
  end.

(** The forest [nestComponents] lays out for a trie: a node whose path has
    a component carries the forest of its subtree, a node without one
    passes that forest on. *)
Fixpoint nestF (all : JsMap.t cid) (tree : PTree) : list CTree :=
  match tree with
  | PT m =>
      flat_map
        (fun e =>
           match JsMap.get (fst e) all with
           | Some c => [CNode c (nestF all (snd e))]
           | None => nestF all (snd e)
           end)
        m
  end.

(** [component.components] of the component [c] of the heap. *)
Definition kids_of (h : Heap) (c : cid) : option (list cid) :=
  option_map c_components (nth_error h c).

(** The heap holds the tree: every component of the tree lists the roots
    of its subtrees as its nested components. *)
Inductive stored (h : Heap) : CTree -> Prop :=
| stored_node c kids :
    kids_of h c = Some (map root_of kids) ->
    Forall (stored h) kids ->
    stored h (CNode c kids).

(** The reference token of the component [c] of the heap. *)
Definition ref_of (h : Heap) (c : cid) : jsstring :=
  match nth_error h c with
  | Some comp => match c_bomRef comp with Some v => v | None => [] end
  | None => []
  end.

(** The tokens of a chain of ancestors, each followed by [|]. *)
Definition chain_prefix (h : Heap) (ancestors : list cid) : jsstring :=
  flat_map (fun a => ref_of h a ++ s "|") ancestors.

(** The step of the loop of [nestComponents]. *)
Definition nest_step (all : JsMap.t cid) (acc : Heap * list cid)
    (e : jsstring * PTree) : Heap * list cid :=
  let '(h, children) := acc in
  let '(p, pTree) := e in
  let '(h', components) := BomBuilder.nestComponents all pTree h in
  match JsMap.get p all with
  | None => (h', fold_left (fun ch c => set_add c ch) components children)
  | Some component =>
      (update_nth component (set_components components) h',
       set_add component children)
  end.

(** What a node of the trie contributes to the forest. *)
Definition entryF (all : JsMap.t cid) (e : jsstring * PTree) : list CTree :=
  match JsMap.get (fst e) all with
  | Some c => [CNode c (nestF all (snd e))]
  | None => nestF all (snd e)
  end.

(** The heaps hold the same components, but for what they nest. *)
Definition same_but_nesting (h h' : Heap) : Prop :=
  forall i, option_map (set_components []) (nth_error h' i) =
            option_map (set_components []) (nth_error h i).

(** The heaps hold the same components, but for their reference
    tokens. *)
Definition same_but_ref (h h' : Heap) : Prop :=
  forall i, option_map (set_bomRef None) (nth_error h' i) =
            option_map (set_bomRef None) (nth_error h i).

(** Every component of the list is in the heap and has a reference
    token. *)
Definition refs_defined (h : Heap) (l : list cid) : Prop :=
  forall c, In c l ->
    exists comp v, nth_error h c = Some comp /\ c_bomRef comp = Some v.

(** The heaps hold the same components, but for their properties. *)
Definition same_but_properties (h h' : Heap) : Prop :=
  forall i, option_map (set_properties []) (nth_error h' i) =
            option_map (set_properties []) (nth_error h i).

(** What a component is built with and keeps for the whole build. *)
Definition core (c : Component) :=
  (c_type c, c_name c, c_group c, c_version c, c_description c, c_scope c,
   c_externalReferences c, c_purl c, c_isDummy c).

(** The components a map gives for a list of keys. *)
Definition cids_of_keys (all : JsMap.t cid) (ks : list jsstring) : list cid :=
  flat_map (fun k => match JsMap.get k all with Some c => [c] | None => [] end) ks.

(** The component map without the entries of the root component. *)
Definition nonRoot (all : JsMap.t cid) : JsMap.t cid :=
  filter (fun e => negb (snd e =? 0)) all.

(** The separator [buildFromNpmLs] chooses for a root path. *)
Definition separator_of (rootPath : jsstring) : ascii :=
  match rootPath with "/"%char :: _ => "/"%char | _ => "\"%char end.

(** What a build shows of its components (reference token, properties,
    nested components), and the forest of the document. *)
Definition summary (r : option (Heap * Bom)) :=
  option_map
    (fun hb => (map (fun c => (c_bomRef c, c_properties c, c_components c))
                    (fst hb),
                bom_components (snd hb)))
    r.

(** A tree with a package nested in another one: [b] is installed below
    [a]. *)
Definition ex_nested : json :=
  record "proj" "1.0.0" "/proj" []
    [(s "a", record "a" "1.0.0" "/proj/node_modules/a" []
        [(s "b", record "b" "2.0.0" "/proj/node_modules/a/node_modules/b" [] [])])].

(** A tree with one package installed twice, side by side (the second
    time under an alias). *)
Definition ex_alias : json :=
  record "proj" "1.0.0" "/proj" []
    [(s "x", record "x" "1.0.0" "/proj/node_modules/x" [] []);
     (s "y", record "x" "1.0.0" "/proj/node_modules/y" [] [])].


(** ** Reading a trie *)

(** The keys of all nodes of a tree, at every depth, parents first. *)
Fixpoint allkeys (t : PTree) : list jsstring :=
  match t with
  | PT m => flat_map (fun e => fst e :: allkeys (snd e)) m
  end.

(** Before [renderPR] a key is relative to the parent's key; the full key
    of a node is the concatenation of the keys on the way to it. *)
Fixpoint fullkeys (pref : jsstring) (t : PTree) : list jsstring :=
  match t with
  | PT m =>
      flat_map (fun e => (pref ++ fst e) :: fullkeys (pref ++ fst e) (snd e)) m
  end.

(** The tree with every relative key replaced by the full key without its
    last code unit. *)
Fixpoint fullpaths (pref : jsstring) (t : PTree) : PTree :=
  match t with
  | PT m =>
      PT (map (fun e => (removelast (pref ++ fst e),
                         fullpaths (pref ++ fst e) (snd e))) m)
  end.

(** The node with key [k] and subtree [c] occurs in [t]. *)
Inductive node_in (k : jsstring) (c : PTree) : PTree -> Prop :=
| node_here m : In (k, c) m -> node_in k c (PT m)
| node_below k' c' m : In (k', c') m -> node_in k c c' -> node_in k c (PT m).

(** [q] is the key of a child of a node with key [p]. *)
Definition child_of (p q : jsstring) (t : PTree) : Prop :=
  exists cp cq, node_in p cp t /\ In (q, cq) (entries cp).

(** [q] is the key of a node somewhere below a node with key [p]. *)
Definition nested_under (p q : jsstring) (t : PTree) : Prop :=
  exists cp, node_in p cp t /\ In q (allkeys cp).

(** [p] and [q] are keys of two entries of one map of the tree. *)
Definition siblings (p q : jsstring) (t : PTree) : Prop :=
  p <> q /\
  ((In p (JsMap.keys (entries t)) /\ In q (JsMap.keys (entries t))) \/
   exists k c, node_in k c t /\
               In p (JsMap.keys (entries c)) /\ In q (JsMap.keys (entries c))).

(** [str.endsWith(suffix)] *)
Definition endsWith (str suffix : jsstring) : bool :=
  startsWith (rev str) (rev suffix).

(** The list has no duplicates: it lists a [Set]. *)
Fixpoint distinct (l : list jsstring) : bool :=
  match l with
  | [] => true
  | x :: l' => negb (existsb (str_eqb x) l') && distinct l'
  end.

(** [k] ends with the code unit [c]. *)
Definition ends_with (c : ascii) (k : jsstring) : Prop :=
  exists k0, k = k0 ++ [c].

(** The keys of every map of the tree are pairwise different and end with
    the code unit [c]. *)
Inductive well_keyed (c : ascii) : PTree -> Prop :=
| well_keyed_PT m :
    NoDup (JsMap.keys m) ->
    (forall k sub, In (k, sub) m -> ends_with c k /\ well_keyed c sub) ->
    well_keyed c (PT m).

(** The step of the loop of [renderPR]. *)
Definition render_step (pref : jsstring) (t : JsMap.t PTree)
    (e : jsstring * PTree) : JsMap.t PTree :=
  let '(p, pTree) := e in
  JsMap.set (removelast (pref ++ p)) (TreeBuilder.renderPR pTree (pref ++ p))
            (JsMap.delete p t).

(** What [renderPR] makes of one entry when no key collides. *)
Definition rendered (pref : jsstring) (e : jsstring * PTree)
    : jsstring * PTree :=
  (removelast (pref ++ fst e), TreeBuilder.renderPR (snd e) (pref ++ fst e)).

(** The final pass as the specification words it: every key is the segment
    relative to the parent, without its trailing separator. *)
Fixpoint renderPR_segments (t : PTree) : PTree :=
  match t with
  | PT m => PT (map (fun e => (removelast (fst e), renderPR_segments (snd e))) m)
  end.

(** The install paths of the example of the specification. *)
Definition ex_proj : jsstring := s "/proj".
Definition ex_a : jsstring := s "/proj/node_modules/a".
Definition ex_b : jsstring := s "/proj/node_modules/a/node_modules/b".
Definition ex_trie : PTree := PT [(ex_proj, PT [(ex_a, PT [(ex_b, PT [])])])].

(** ** Reading the table of the integrity patterns *)

(** The rows of [integrityRE]: the algorithm, the prefix, the number of
    characters of the alphabet and the padding of its pattern. *)
Definition integrity_rows : list (HashAlgorithm * jsstring * nat * jsstring) :=
  [ (SHA_512, s "sha512-", 86, s "==");
    (SHA_1, s "sha1-", 27, s "=");
    (SHA_256, s "sha256-", 43, s "=");
    (SHA_384, s "sha384-", 64, s "") ].

(** The number of hexadecimal digits of a digest of the algorithm. *)
Definition digest_hex_length (a : HashAlgorithm) : nat :=
  match a with
  | SHA_512 => 128
  | SHA_1 => 40
  | SHA_256 => 64
  | SHA_384 => 96
  end.

(** ** Running the model with a manifest and a package URL *)

(** Stand-ins like [demo], but every absolute POSIX path holds a
    [package.json] with a name and a license, and the factory gives a
    package URL with a qualifier and a subpath. *)
Definition demo_installed : Collaborators :=
  mkCollaborators
    (fun data => Some data)
    demo_makeComponent
    (fun c _ =>
       Some (mkPackageURL (s "pkg:npm/" ++ c_name c)
               (Some [(s "vcs_url", s "git+https://example.org/repo.git")])
               (Some (s "lib"))))
    (fun p => match p with "/"%char :: _ => true | _ => false end)
    (fun a b => a ++ s "/" ++ b)
    (fun _ => Some (JObj [(s "name", JStr (s "from-manifest"));
                          (s "license", JStr (s "MIT"))]))
    (fun from to => skipn (S (List.length from)) to)
    (fun from to => skipn (S (List.length from)) to)
    (s "true").

(** ** Reading the properties of a component *)

Definition is_install_path (p : Property) : bool :=
  match p_name p with
  | PackageInstallPath => true
  | _ => false
  end.

(** The values of the install-path properties of a component, in their
    order. *)
Definition install_paths (c : Component) : list jsstring :=
  map p_value (filter is_install_path (c_properties c)).

(** The properties of a component that are not install paths. *)
Definition other_properties (c : Component) : list Property :=
  filter (fun p => negb (is_install_path p)) (c_properties c).

(** [x !== ''] *)
Definition nonempty (x : jsstring) : bool :=
  match x with
  | [] => false
  | _ => true
  end.

(** A component with one install path, in a heap of its own. *)
Definition ex_installed (path : string) : Component :=
  mkComponent Library (s "a") None None None (Some (s "a@1.0.0")) None
    [mkProperty PackageInstallPath (s path);
     mkProperty PackageDevelopment (s "true")]
    [] None [] [] false.

(** Stand-ins like [demo] for a project on a Windows drive: the relative
    path is what follows the root path and its separator. *)
Definition demo_win32 : Collaborators :=
  mkCollaborators
    (fun data => Some data)
    demo_makeComponent
    (fun _ _ => None)
    (fun _ => false)
    (fun a b => a ++ s "\" ++ b)
    (fun _ => None)
    (fun from to => skipn (S (List.length from)) to)
    (fun from to => skipn (S (List.length from)) to)
    (s "true").

(** ** Reading the dependency edges *)

(** Every dependency edge of the heap leads to a component of the heap,
    and no component lists an edge twice. *)
Definition edges_closed (h : Heap) : Prop :=
  Forall (fun c => NoDup (c_dependencies c) /\
                   forall d, In d (c_dependencies c) -> d < List.length h) h.

(** [st'] comes after [st] in a walk, and no component has lost a
    dependency edge. *)
Definition grows (st st' : State) : Prop :=
  extends st st' /\
  forall i c, nth_error (heap st) i = Some c ->
    exists c', nth_error (heap st') i = Some c' /\
               incl (c_dependencies c) (c_dependencies c').

(** The entries of [dependencies] the walk looks at: objects with a
    string [path]. *)
Definition installed (entry : jsstring * json) : bool :=
  is_object (snd entry) &&
  match as_string (get_prop (snd entry) "path") with
  | Some _ => true
  | None => false
  end.

(** A tree in which the record of the dependency [a] is broken: it has an
    install path and no name. *)
Definition ex_broken : json :=
  record "proj" "1.0.0" "/proj" []
    [(s "a", JObj [(s "path", JStr (s "/proj/node_modules/a"))]);
     (s "gone", JObj [(s "name", JStr (s "gone"))]);
     (s "n", JNull)].

(** A tree with two packages side by side and one nested in the first. *)
Definition ex_three : json :=
  record "proj" "1.0.0" "/proj" []
    [(s "a", record "a" "1.0.0" "/proj/node_modules/a" []
        [(s "b", record "b" "2.0.0" "/proj/node_modules/a/node_modules/b" [] [])]);
     (s "c", record "c" "3.0.0" "/proj/node_modules/c" [] [])].

(** ** The command line ([src/cli.ts], function [run])

    [run] after the command line is parsed: [options] is
    [program.opts()] and [args] is [program.args].  The messages to the
    logger are left out.  The surroundings of a run (file system, working
    directory, the builder at work on the project, the serializers and
    validators of the library) are taken as they are when the run
    starts; [openSync] and [writeSync] are taken to succeed. *)

Module Cli.

Inductive OutputFormat : Type := JSON | XML.

Definition OutputStdOut : jsstring := s "-".

(** [interface CommandOptions], without the verbosity of the logger. *)
Record CommandOptions : Type := mkCommandOptions {
  ignoreNpmErrors : bool;
  packageLockOnly : bool;
  omit : list OmittableDependencyTypes;
  specVersion : jsstring;
  flattenComponents : bool;
  shortPURLs : bool;
  outputReproducible : bool;
  outputFormat : OutputFormat;
  outputFile : jsstring;
  validate : bool;
  mcType : ComponentType
}.

Definition ExitCode_SUCCESS : Z := 0.
Definition ExitCode_FAILURE : Z := 1.
Definition ExitCode_INVALID : Z := 2.

(** Where [writeSync] writes: [process.stdout.fd], or the file
    [openSync] opens. *)
Inductive Target : Type :=
| ToStdout
| ToFile (path : jsstring).

Section Run.
(** The specification object of a version, the document and the errors
    of the collaborators. *)
Variables Spec Document Failure : Type.

(** What [await validator.validate(serialized)] comes to: [null], a list
    of errors, a [MissingOptionalDependencyError] or another error. *)
Inductive Validation : Type :=
| NoErrors
| ValidationErrors (details : jsstring)
| MissingOptionalDependency (message : jsstring)
| Rejected (err : Failure).

Record Surroundings : Type := mkSurroundings {
  cwd : jsstring;
  existsSync : jsstring -> bool;
  resolve : jsstring -> jsstring -> jsstring;
  dirname : jsstring -> jsstring;
  (** [new BomBuilder(..., options, ...).buildFromProjectDir(projectDir,
      process)], with [ignoreNpmErrors] apart from the options of the
      build *)
  buildFromProjectDir : bool -> BomBuilderOptions -> jsstring -> Failure + Document;
  SpecVersionDict : jsstring -> option Spec;
  (** [serializer.serialize(bom, { sortLists, space: 2 })] of the
      serializer of a format *)
  serialize : OutputFormat -> Spec -> Document -> bool -> jsstring;
  validator_validate : OutputFormat -> Spec -> jsstring -> Validation
}.

Inductive Thrown : Type :=
| MissingManifest (packageFile : jsstring)
| MissingEvidence
| BuildFailed (err : Failure)
| UnsupportedSpecVersion
| ValidatorFailed (err : Failure).

(** How a run ends: the exit code it returns and what it has written, or
    the error it throws. *)
Inductive Outcome : Type :=
| Exit (code : Z) (written : option (Target * jsstring))
| Throw (e : Thrown).

Definition packageFile_of (env : Surroundings) (args : list jsstring) : jsstring :=
  resolve env (cwd env)
    match args with
    | a :: _ => a
    | [] => s "package.json"
    end.

(** The chain of [existsSync] tests of [run]. *)
Definition evidence (env : Surroundings) (options : CommandOptions)
    (projectDir : jsstring) : bool :=
  if existsSync env (resolve env projectDir (s "npm-shrinkwrap.json")) then true
  else if existsSync env (resolve env projectDir (s "package-lock.json")) then true
  else if negb (packageLockOnly options) &&
          existsSync env (resolve env projectDir (s "node_modules")) then true
  else false.

Definition target_of (env : Surroundings) (options : CommandOptions) : Target :=
  if str_eqb (outputFile options) OutputStdOut then ToStdout
  else ToFile (resolve env (cwd env) (outputFile options)).

Definition run (env : Surroundings) (options : CommandOptions)
    (args : list jsstring) : Outcome :=
  let packageFile := packageFile_of env args in
  if negb (existsSync env packageFile) then Throw (MissingManifest packageFile)
  else
  let projectDir := dirname env packageFile in
  if negb (evidence env options projectDir) then Throw MissingEvidence
  else
  match buildFromProjectDir env (ignoreNpmErrors options)
          (mkBomBuilder (mcType options) (packageLockOnly options) (omit options)
             (outputReproducible options) (flattenComponents options)
             (shortPURLs options))
          projectDir with
  | inl err => Throw (BuildFailed err)
  | inr bom =>
  match SpecVersionDict env (specVersion options) with
  | None => Throw UnsupportedSpecVersion
  | Some spec =>
  let serialized :=
    serialize env (outputFormat options) spec bom (outputReproducible options) in
  let written := Exit ExitCode_SUCCESS (Some (target_of env options, serialized)) in
  if validate options then
    match validator_validate env (outputFormat options) spec serialized with
    | NoErrors => written
    | ValidationErrors _ => Exit ExitCode_FAILURE None
    | MissingOptionalDependency _ => written
    | Rejected err => Throw (ValidatorFailed err)
    end
  else written
  end
  end.

(** The surroundings with another validator. *)
Definition with_validator
    (v : OutputFormat -> Spec -> jsstring -> Validation) (env : Surroundings)
    : Surroundings :=
  mkSurroundings (cwd env) (existsSync env) (resolve env) (dirname env)
    (buildFromProjectDir env) (SpecVersionDict env) (serialize env) v.

End Run.

Arguments NoErrors {Failure}.
Arguments ValidationErrors {Failure} details.
Arguments MissingOptionalDependency {Failure} message.
Arguments Rejected {Failure} err.
Arguments MissingManifest {Failure} packageFile.
Arguments MissingEvidence {Failure}.
Arguments BuildFailed {Failure} err.
Arguments UnsupportedSpecVersion {Failure}.
Arguments ValidatorFailed {Failure} err.
Arguments Exit {Failure} code written.
Arguments Throw {Failure} e.
Arguments cwd {Spec Document Failure} s.
Arguments existsSync {Spec Document Failure} s _.
Arguments resolve {Spec Document Failure} s _ _.
Arguments dirname {Spec Document Failure} s _.
Arguments buildFromProjectDir {Spec Document Failure} s _ _ _.
Arguments SpecVersionDict {Spec Document Failure} s _.
Arguments serialize {Spec Document Failure} s _ _ _ _.
Arguments validator_validate {Spec Document Failure} s _ _ _.
Arguments packageFile_of {Spec Document Failure} env args.
Arguments evidence {Spec Document Failure} env options projectDir.
Arguments target_of {Spec Document Failure} env options.
Arguments run {Spec Document Failure} env options args.
Arguments with_validator {Spec Document Failure} v env.

(** A project directory [/proj] that holds the given files, a builder and
    serializers that always return, and a validator with the given
    answer. *)
Definition demo_env (files : list jsstring) (answer : Validation unit)
    : Surroundings unit unit unit :=
  mkSurroundings unit unit unit
    (s "/proj")
    (fun file => existsb (str_eqb file) files)
    (fun a b => a ++ s "/" ++ b)
    (fun _ => s "/proj")
    (fun _ _ _ => inr tt)
    (fun _ => Some tt)
    (fun _ _ _ _ => s "{}")
    (fun _ _ _ => answer).

Definition demo_options (lockOnly validate : bool) (file : string)
    : CommandOptions :=
  mkCommandOptions false lockOnly [] (s "1.4") false false false JSON (s file)
    validate Application.

End Cli.

(** The collaborators with another file system: [path.isAbsolute],
    [path.join] and [require]. *)
Definition with_files (isAbsolute : jsstring -> bool)
    (join : jsstring -> jsstring -> jsstring) (load : jsstring -> option json)
    (E : Collaborators) : Collaborators :=
  mkCollaborators (normalizePackageData E) (componentBuilder_makeComponent E)
    (purlFactory_makeFromComponent E) isAbsolute join load
    (path_posix_relative E) (path_win32_relative E) (PropertyValueBool_True E).

(** The bar that [adjustNestedBomRefs] puts between two tokens. *)
Definition bar : ascii := "|"%char.

(** ** Reading the raw tree *)

(** The path [p] is the [path] of a record listed below [data]: of an
    entry of its [dependencies], or of a record listed below such an
    entry. *)
Inductive listed : json -> jsstring -> Prop :=
| listed_here data name entry p :
    In (name, entry) (Object_entries (BomBuilder.dependencies_of data)) ->
    as_string (get_prop entry "path") = Some p ->
    listed data p
| listed_below data name entry p :
    In (name, entry) (Object_entries (BomBuilder.dependencies_of data)) ->
    listed entry p ->
    listed data p.

(** Every component of the map is a placeholder without an install path,
    or carries the path it is registered under as its one install
    path. *)
Definition paths_kept (st : State) : Prop :=
  forall p c, JsMap.get p (allComponents st) = Some c ->
    exists comp, nth_error (heap st) c = Some comp /\
      ((c_isDummy comp = true /\ install_paths comp = []) \/
       (c_isDummy comp = false /\ install_paths comp = [p])).

(** A tree that lists the package [o] twice under one path: at the top
    level as it is, and below [a] flagged optional and with a dependency
    [p] of its own. *)
Definition ex_reused : json :=
  record "proj" "1.0.0" "/proj" []
    [(s "o", record "o" "1.0.0" "/proj/node_modules/o" [] []);
     (s "a", record "a" "1.0.0" "/proj/node_modules/a" []
        [(s "o", record "o" "1.0.0" "/proj/node_modules/o"
                   [(s "optional", JBool true)]
                   [(s "p", record "p" "1.0.0" "/proj/node_modules/p" [] [])])])].



(** * Properties *)

(** ** Strings *)

Lemma str_eqb_eq (a b : jsstring) : str_eqb a b = true <-> a = b.
Proof.
  revert b; induction a as [|x a IH]; intros [|y b]; simpl; split;
    try congruence; try reflexivity.
  - intros H. apply andb_true_iff in H as [H1 H2].
    apply Ascii.eqb_eq in H1. apply IH in H2. congruence.
  - intros H. injection H as -> ->. rewrite Ascii.eqb_refl. simpl.
    now apply IH.
Qed.

Lemma str_eqb_refl (a : jsstring) : str_eqb a a = true.
Proof. now apply str_eqb_eq. Qed.

Lemma str_eqb_neq (a b : jsstring) : str_eqb a b = false <-> a <> b.
Proof.
  split.
  - intros H E. apply str_eqb_eq in E. congruence.
  - intros H. destruct (str_eqb a b) eqn:E; [|reflexivity].
    apply str_eqb_eq in E. contradiction.
Qed.

Lemma startsWith_iff (b a : jsstring) :
  startsWith b a = true <-> exists r, b = a ++ r.
Proof.
  revert b; induction a as [|x a IH]; intros b; simpl.
  - split; [intros _; now exists b | reflexivity].
  - destruct b as [|y b].
    + split; [discriminate | intros [r H]; discriminate].
    + rewrite andb_true_iff, Ascii.eqb_eq, IH. split.
      * intros [-> [r ->]]. now exists r.
      * intros [r H]. injection H as -> ->. split; [reflexivity | now exists r].
Qed.

Lemma skipn_length_app (A : Type) (a r : list A) :
  skipn (List.length a) (a ++ r) = r.
Proof. induction a; simpl; auto. Qed.

Lemma ends_with_app_inv (c : ascii) (a b : jsstring) :
  ends_with c (a ++ b) -> b <> [] -> ends_with c b.
Proof.
  intros [k0 H] Hb.
  destruct (exists_last Hb) as [b0 [d ->]].
  rewrite app_assoc in H. apply app_inj_tail in H as [_ ->].
  now exists b0.
Qed.

Lemma ends_with_app (c : ascii) (a b : jsstring) :
  ends_with c b -> ends_with c (a ++ b).
Proof. intros [k0 ->]. exists (a ++ k0). now rewrite app_assoc. Qed.

Lemma removelast_ends (c : ascii) (k : jsstring) :
  ends_with c k -> removelast k ++ [c] = k.
Proof. intros [k0 ->]. now rewrite removelast_last. Qed.

(** ** Maps *)

Module JsMapFacts.
Import JsMap.
Section Facts.
Context {V : Type}.
Implicit Types (m : JsMap.t V) (k : jsstring) (v : V).

Lemma get_In k v m : get k m = Some v -> In (k, v) m.
Proof.
  induction m as [|[k' v'] m IH]; simpl; [discriminate|].
  destruct (str_eqb k' k) eqn:E.
  - apply str_eqb_eq in E. intros [= ->]. left. now subst.
  - auto.
Qed.

Lemma get_None k m : get k m = None <-> ~ In k (keys m).
Proof.
  induction m as [|[k' v'] m IH]; simpl; [tauto|].
  destruct (str_eqb k' k) eqn:E.
  - apply str_eqb_eq in E. split; [discriminate | intros H; exfalso; auto].
  - apply str_eqb_neq in E. rewrite IH. tauto.
Qed.

Lemma In_get k v m : NoDup (keys m) -> In (k, v) m -> get k m = Some v.
Proof.
  induction m as [|[k' v'] m IH]; simpl; [tauto|].
  intros Hnd [H|H].
  - injection H as -> ->. now rewrite str_eqb_refl.
  - inversion Hnd as [|? ? Hk Hnd']; subst.
    destruct (str_eqb k' k) eqn:E.
    + apply str_eqb_eq in E. subst. exfalso. apply Hk.
      change k with (fst (k, v)). now apply in_map.
    + auto.
Qed.

Lemma has_true k m : has k m = true <-> In k (keys m).
Proof.
  unfold has. destruct (get k m) eqn:E.
  - split; [intros _|reflexivity]. apply get_In in E.
    change k with (fst (k, v)). now apply in_map.
  - apply get_None in E. split; [discriminate | contradiction].
Qed.

Lemma set_absent k v m : ~ In k (keys m) -> set k v m = m ++ [(k, v)].
Proof.
  induction m as [|[k' v'] m IH]; simpl; [reflexivity|]. intros H.
  destruct (str_eqb k' k) eqn:E.
  - apply str_eqb_eq in E. exfalso. auto.
  - f_equal. apply IH. tauto.
Qed.

Lemma keys_set_present k v m : In k (keys m) -> keys (set k v m) = keys m.
Proof.
  induction m as [|[k' v'] m IH]; simpl; [tauto|]. intros H.
  destruct (str_eqb k' k) eqn:E; simpl; [reflexivity|].
  apply str_eqb_neq in E. f_equal. apply IH. destruct H; congruence.
Qed.

Lemma keys_set k v m :
  keys (set k v m) = if has k m then keys m else keys m ++ [k].
Proof.
  destruct (has k m) eqn:E.
  - apply keys_set_present. now apply has_true.
  - rewrite set_absent.
    + unfold keys. now rewrite map_app.
    + intros H. apply has_true in H. congruence.
Qed.

Lemma NoDup_keys_set k v m : NoDup (keys m) -> NoDup (keys (set k v m)).
Proof.
  intros H. rewrite keys_set. destruct (has k m) eqn:E; [assumption|].
  apply NoDup_app; [assumption | repeat constructor; simpl; tauto |].
  intros x Hx [<-|[]]. apply has_true in Hx. congruence.
Qed.

Lemma In_set_same k v m : In k (keys m) -> In (k, v) (set k v m).
Proof.
  induction m as [|[k' v'] m IH]; simpl; [tauto|]. intros H.
  destruct (str_eqb k' k) eqn:E; simpl.
  - apply str_eqb_eq in E. subst. now left.
  - apply str_eqb_neq in E. right. apply IH. destruct H; congruence.
Qed.

Lemma In_set_other k v k' v' m :
  k' <> k -> In (k', v') m -> In (k', v') (set k v m).
Proof.
  intros Hne. induction m as [|[k1 v1] m IH]; simpl; [tauto|]. intros H.
  destruct (str_eqb k1 k) eqn:E; simpl.
  - apply str_eqb_eq in E. subst. destruct H as [H|H]; [|now right].
    injection H as -> ->. contradiction.
  - destruct H; [now left | right; auto].
Qed.

Lemma In_set_inv k v k' v' m :
  In (k', v') (set k v m) -> (k' = k /\ v' = v) \/ In (k', v') m.
Proof.
  induction m as [|[k1 v1] m IH]; simpl.
  - intros [H|[]]. injection H as -> ->. now left.
  - destruct (str_eqb k1 k) eqn:E; simpl.
    + apply str_eqb_eq in E. subst. intros [H|H].
      * injection H as -> ->. now left.
      * right. now right.
    + intros [H|H]; [right; now left|].
      destruct (IH H); [now left | right; now right].
Qed.

Lemma In_delete_other k k' v' m :
  k' <> k -> In (k', v') m -> In (k', v') (delete k m).
Proof.
  intros Hne. induction m as [|[k1 v1] m IH]; simpl; [tauto|]. intros H.
  destruct (str_eqb k1 k) eqn:E; simpl.
  - apply str_eqb_eq in E. subst. destruct H as [H|H]; [|assumption].
    injection H as -> ->. contradiction.
  - destruct H; [now left | right; auto].
Qed.

Lemma In_delete_inv k k' v' m :
  In (k', v') (delete k m) -> In (k', v') m.
Proof.
  induction m as [|[k1 v1] m IH]; simpl; [tauto|].
  destruct (str_eqb k1 k); simpl; [now right|].
  intros [H|H]; [now left | right; auto].
Qed.

Lemma keys_delete_incl k m x : In x (keys (delete k m)) -> In x (keys m).
Proof.
  induction m as [|[k1 v1] m IH]; simpl; [tauto|].
  destruct (str_eqb k1 k); simpl; [now right|].
  intros [H|H]; [now left | right; auto].
Qed.

Lemma NoDup_keys_delete k m : NoDup (keys m) -> NoDup (keys (delete k m)).
Proof.
  induction m as [|[k1 v1] m IH]; simpl; [auto|]. intros H.
  inversion H as [|? ? Hk Hnd]; subst.
  destruct (str_eqb k1 k); simpl; [assumption|].
  constructor; [|auto]. intros Hx. apply Hk. eapply keys_delete_incl, Hx.
Qed.

Lemma delete_not_In k m : NoDup (keys m) -> ~ In k (keys (delete k m)).
Proof.
  induction m as [|[k1 v1] m IH]; simpl; [auto|]. intros H.
  inversion H as [|? ? Hk Hnd]; subst.
  destruct (str_eqb k1 k) eqn:E; simpl.
  - apply str_eqb_eq in E. now subst.
  - apply str_eqb_neq in E. intros [H1|H1]; [contradiction|]. now apply IH.
Qed.

Lemma delete_set_same k v m : In k (keys m) -> delete k (set k v m) = delete k m.
Proof.
  induction m as [|[k1 v1] m IH]; simpl; [tauto|]. intros H.
  destruct (str_eqb k1 k) eqn:E; simpl; rewrite E; [reflexivity|].
  apply str_eqb_neq in E. f_equal. apply IH. destruct H; congruence.
Qed.

Lemma of_entries_acc (es acc : JsMap.t V) :
  NoDup (keys (acc ++ es)) ->
  fold_left (fun m e => set (fst e) (snd e) m) es acc = acc ++ es.
Proof.
  revert acc; induction es as [|[k v] es IH]; intros acc H; simpl.
  - now rewrite app_nil_r.
  - rewrite set_absent.
    + rewrite IH; rewrite <- app_assoc; [reflexivity | exact H].
    + unfold keys in H. rewrite map_app in H. simpl in H.
      apply NoDup_remove_2 in H. intros Hk. apply H.
      apply in_or_app. now left.
Qed.

Lemma of_entries_NoDup (es : JsMap.t V) :
  NoDup (keys es) -> of_entries es = es.
Proof. intros H. unfold of_entries. now rewrite of_entries_acc. Qed.

Lemma of_entries_keys_NoDup (es : JsMap.t V) : NoDup (keys (of_entries es)).
Proof.
  unfold of_entries.
  assert (G : forall acc : JsMap.t V, NoDup (keys acc) ->
            NoDup (keys (fold_left (fun m e => set (fst e) (snd e) m) es acc))).
  { induction es as [|e es IH]; intros acc H; simpl; [assumption|].
    apply IH. now apply NoDup_keys_set. }
  apply G. constructor.
Qed.

Lemma of_entries_In (es : JsMap.t V) k v :
  In (k, v) (of_entries es) -> In (k, v) es.
Proof.
  unfold of_entries.
  assert (G : forall acc : JsMap.t V,
            In (k, v) (fold_left (fun m e => set (fst e) (snd e) m) es acc) ->
            In (k, v) acc \/ In (k, v) es).
  { induction es as [|[k1 v1] es IH]; intros acc H; simpl in *; [now left|].
    apply IH in H as [H|H]; [|right; now right].
    apply In_set_inv in H as [[-> ->]|H]; [right; now left | now left]. }
  intros H. apply G in H as [[]|H]. exact H.
Qed.
End Facts.
End JsMapFacts.

(** ** Tries *)

Lemma PTree_ind' (P : PTree -> Prop)
    (H : forall m, (forall k c, In (k, c) m -> P c) -> P (PT m)) :
  forall t, P t.
Proof.
  fix IH 1. intros [m]. apply H.
  induction m as [|[k c] m IHm]; intros k' c' Hin.
  - destruct Hin.
  - destruct Hin as [E|Hin].
    + injection E as <- <-. apply IH.
    + eapply IHm, Hin.
Qed.

Lemma NoDup_app_disj (A : Type) (l1 l2 : list A) (x : A) :
  NoDup (l1 ++ l2) -> In x l1 -> In x l2 -> False.
Proof.
  induction l1 as [|y l1 IH]; simpl; [tauto|].
  intros H [->|H1] H2.
  - inversion H as [|? ? Hn _]. apply Hn, in_or_app. now right.
  - inversion H. auto.
Qed.

Lemma NoDup_app_l (A : Type) (l1 l2 : list A) : NoDup (l1 ++ l2) -> NoDup l1.
Proof.
  induction l1 as [|y l1 IH]; simpl; [constructor|].
  intros H. inversion H as [|? ? Hn Hd]; subst. constructor; [|auto].
  intros Hy. apply Hn, in_or_app. now left.
Qed.

Lemma NoDup_app_r (A : Type) (l1 l2 : list A) : NoDup (l1 ++ l2) -> NoDup l2.
Proof.
  induction l1 as [|y l1 IH]; simpl; [auto|].
  intros H. inversion H. auto.
Qed.

Module TreeFacts.
Import JsMap JsMapFacts TreeBuilder.

Arguments fullkeys : simpl never.
Arguments allkeys : simpl never.

Lemma fullkeys_cons pref k c m :
  fullkeys pref (PT ((k, c) :: m)) =
  (pref ++ k) :: fullkeys (pref ++ k) c ++ fullkeys pref (PT m).
Proof. reflexivity. Qed.

Lemma fullkeys_app pref m1 m2 :
  fullkeys pref (PT (m1 ++ m2)) =
  fullkeys pref (PT m1) ++ fullkeys pref (PT m2).
Proof. simpl. apply flat_map_app. Qed.

Lemma fullkeys_key_In pref k m :
  In k (keys m) -> In (pref ++ k) (fullkeys pref (PT m)).
Proof.
  induction m as [|[k1 c1] m IH]; [intros []|].
  rewrite fullkeys_cons. simpl. intros [->|H]; [now left|].
  right. apply in_or_app. right. now apply IH.
Qed.

Lemma fullkeys_sub_In pref k c m x :
  In (k, c) m -> In x (fullkeys (pref ++ k) c) -> In x (fullkeys pref (PT m)).
Proof.
  induction m as [|[k1 c1] m IH]; [intros []|].
  rewrite fullkeys_cons. intros [E|H] Hx.
  - injection E as -> ->. right. apply in_or_app. now left.
  - right. apply in_or_app. right. now apply IH.
Qed.

Lemma fullkeys_NoDup_keys pref m :
  NoDup (fullkeys pref (PT m)) -> NoDup (keys m).
Proof.
  induction m as [|[k1 c1] m IH]; [constructor|].
  rewrite fullkeys_cons. intros H. inversion H as [|? ? Hn Hd]; subst.
  simpl. constructor.
  - intros Hk. apply Hn, in_or_app. right. now apply fullkeys_key_In.
  - apply IH. eapply NoDup_app_r, Hd.
Qed.

Lemma fullkeys_NoDup_sub pref k c m :
  NoDup (fullkeys pref (PT m)) -> In (k, c) m ->
  NoDup ((pref ++ k) :: fullkeys (pref ++ k) c).
Proof.
  induction m as [|[k1 c1] m IH]; [intros _ []|].
  rewrite fullkeys_cons. intros H [E|Hin].
  - injection E as -> ->.
    change (NoDup (((pref ++ k) :: fullkeys (pref ++ k) c) ++ fullkeys pref (PT m))) in H.
    eapply NoDup_app_l, H.
  - apply IH; [|assumption]. inversion H; subst. eapply NoDup_app_r; eauto.
Qed.

Lemma fullkeys_delete pref b bt m :
  NoDup (keys m) -> In (b, bt) m ->
  Permutation (fullkeys pref (PT m))
    ((pref ++ b) :: fullkeys (pref ++ b) bt ++ fullkeys pref (PT (delete b m))).
Proof.
  induction m as [|[k1 c1] m IH]; [intros _ []|].
  intros Hnd Hin. inversion Hnd as [|? ? Hn Hd]; subst.
  simpl delete. destruct (str_eqb k1 b) eqn:E.
  - apply str_eqb_eq in E. subst k1.
    destruct Hin as [E|Hin].
    + injection E as ->. now rewrite fullkeys_cons.
    + exfalso. apply Hn. change b with (fst (b, bt)). now apply in_map.
  - apply str_eqb_neq in E. destruct Hin as [E1|Hin]; [congruence|].
    rewrite !fullkeys_cons. specialize (IH Hd Hin).
    change (Permutation
      (((pref ++ k1) :: fullkeys (pref ++ k1) c1) ++ fullkeys pref (PT m))
      (((pref ++ b) :: fullkeys (pref ++ b) bt) ++
       ((pref ++ k1) :: fullkeys (pref ++ k1) c1) ++
       fullkeys pref (PT (delete b m)))).
    rewrite IH.
    change ((pref ++ b) :: fullkeys (pref ++ b) bt ++ fullkeys pref (PT (delete b m)))
      with (((pref ++ b) :: fullkeys (pref ++ b) bt) ++ fullkeys pref (PT (delete b m))).
    rewrite !app_assoc. apply Permutation_app_tail, Permutation_app_comm.
Qed.

Lemma nodes_fullkeys pref t : nodes t = List.length (fullkeys pref t).
Proof.
  revert pref. induction t as [m IH] using PTree_ind'. intros pref.
  induction m as [|[k c] m IHm]; [reflexivity|].
  rewrite fullkeys_cons. simpl List.length. rewrite length_app.
  simpl nodes in *. rewrite IHm.
  - erewrite (IH k c); [reflexivity | now left].
  - intros k' c' H. apply (IH k' c'). now right.
Qed.

(** *** The loops of [nestPT] keep the full keys *)

Lemma nest_move_perm pref a t b bt :
  NoDup (fullkeys pref (PT t)) -> In a (keys t) -> In (b, bt) t ->
  Permutation (fullkeys pref (PT (nest_move a t (b, bt))))
              (fullkeys pref (PT t)).
Proof.
  intros Hfk Ha Hb. unfold nest_move.
  destruct (str_eqb a b) eqn:Eab; [reflexivity|].
  apply str_eqb_neq in Eab.
  destruct (startsWith b a) eqn:Esw; [|reflexivity].
  apply startsWith_iff in Esw as [r Hr].
  assert (Hnd := fullkeys_NoDup_keys _ _ Hfk).
  destruct (get a t) as [[aT]|] eqn:Hget.
  2:{ apply get_None in Hget. contradiction. }
  apply get_In in Hget. subst b. rewrite skipn_length_app.
  set (t1 := set a (PT (set r bt aT)) t).
  assert (P1 := fullkeys_delete pref _ _ _ Hnd Hget).
  assert (Hb' : In (a ++ r, bt) (delete a t)) by now apply In_delete_other.
  assert (Hr : ~ In r (keys aT)).
  { intros Hin. assert (Hfk' := Hfk). rewrite P1 in Hfk'.
    inversion Hfk' as [|? ? _ Hd]; subst.
    eapply (NoDup_app_disj _ _ _ (pref ++ a ++ r) Hd).
    - rewrite app_assoc. now apply fullkeys_key_In.
    - apply fullkeys_key_In. change (a ++ r) with (fst (a ++ r, bt)).
      now apply in_map. }
  assert (Hnd1 : NoDup (keys t1)) by now apply NoDup_keys_set.
  assert (Ha1 : In (a, PT (set r bt aT)) t1) by now apply In_set_same.
  assert (Hb1 : In (a ++ r, bt) t1) by (apply In_set_other; auto).
  assert (P2 := fullkeys_delete pref _ _ _ Hnd1 Ha1).
  assert (P3 := fullkeys_delete pref _ _ _ Hnd1 Hb1).
  unfold t1 in P2 at 2. rewrite delete_set_same in P2 by assumption.
  rewrite set_absent, fullkeys_app, fullkeys_cons in P2 by assumption.
  simpl (fullkeys (pref ++ a) (PT [])) in P2. rewrite app_nil_r in P2.
  rewrite <- (app_assoc pref a r) in P2.
  apply (Permutation_app_inv_l ((pref ++ a ++ r) :: fullkeys (pref ++ a ++ r) bt)).
  simpl app. rewrite <- P3, P2, P1.
  symmetry. rewrite <- app_assoc. simpl app.
  apply (Permutation_cons_app ((pref ++ a) :: fullkeys (pref ++ a) (PT aT))
           (fullkeys (pref ++ a ++ r) bt ++ fullkeys pref (PT (delete a t)))
           (pref ++ a ++ r)).
  apply (Permutation_app_swap_app (fullkeys (pref ++ a ++ r) bt)
           ((pref ++ a) :: fullkeys (pref ++ a) (PT aT))).
Qed.

Lemma nest_move_keeps a t e b' bt' :
  In (b', bt') t -> b' <> a -> b' <> fst e -> In (b', bt') (nest_move a t e).
Proof.
  intros Hin Ha Hb. destruct e as [b bt]. unfold nest_move.
  destruct (str_eqb a b); [assumption|].
  destruct (startsWith b a); [|assumption].
  destruct (get a t) as [[aT]|]; [|assumption].
  apply In_delete_other; [assumption|]. apply In_set_other; auto.
Qed.

Lemma nest_move_keeps_a a t e : In a (keys t) -> In a (keys (nest_move a t e)).
Proof.
  intros Ha. destruct e as [b bt]. unfold nest_move.
  destruct (str_eqb a b) eqn:E; [assumption|]. apply str_eqb_neq in E.
  destruct (startsWith b a); [|assumption].
  destruct (get a t) as [[aT]|]; [|assumption].
  assert (H : In a (keys (set a (PT (set (skipn (List.length a) b) bt aT)) t)))
    by now rewrite keys_set_present.
  apply in_map_iff in H as [[a' v] [E1 H]]. simpl in E1. subst a'.
  change a with (fst (a, v)). apply in_map. now apply In_delete_other.
Qed.

Lemma nest_inner_gen pref a rest t :
  NoDup (keys rest) -> NoDup (fullkeys pref (PT t)) -> In a (keys t) ->
  (forall b bt, In (b, bt) rest -> b <> a -> In (b, bt) t) ->
  Permutation (fullkeys pref (PT (fold_left (nest_move a) rest t)))
              (fullkeys pref (PT t)) /\
  In a (keys (fold_left (nest_move a) rest t)).
Proof.
  revert t. induction rest as [|[b bt] rest IH]; intros t Hnd Hfk Ha Hrest.
  - simpl. split; [reflexivity | assumption].
  - simpl fold_left. inversion Hnd as [|? ? Hn Hd]; subst.
    assert (Hp : Permutation (fullkeys pref (PT (nest_move a t (b, bt))))
                             (fullkeys pref (PT t))).
    { destruct (str_eqb a b) eqn:E.
      - unfold nest_move. now rewrite E.
      - apply str_eqb_neq in E. apply nest_move_perm; auto.
        apply Hrest; [now left | congruence]. }
    destruct (IH (nest_move a t (b, bt))) as [IH1 IH2]; auto.
    + eapply Permutation_NoDup; [symmetry; exact Hp | assumption].
    + now apply nest_move_keeps_a.
    + intros b' bt' Hin Hne. apply nest_move_keeps; auto.
      * apply Hrest; [now right | assumption].
      * simpl. intros ->. apply Hn. change b with (fst (b, bt')).
        now apply in_map.
    + split; [|assumption]. now rewrite IH1.
Qed.

Lemma nest_inner_perm pref a t :
  NoDup (fullkeys pref (PT t)) -> In a (keys t) ->
  Permutation (fullkeys pref (PT (nest_inner a t))) (fullkeys pref (PT t)).
Proof.
  intros Hfk Ha. apply nest_inner_gen; auto.
  eapply fullkeys_NoDup_keys, Hfk.
Qed.

(** [tree.get(a)] is defined throughout the inner loop. *)
Lemma nest_inner_keeps a t : In a (keys t) -> NoDup (keys t) -> In a (keys (nest_inner a t)).
Proof.
  intros Ha Hnd. unfold nest_inner.
  assert (G : forall rest t', In a (keys t') ->
                In a (keys (fold_left (nest_move a) rest t'))).
  { induction rest as [|e rest IH]; intros t' H; simpl; [assumption|].
    apply IH. now apply nest_move_keeps_a. }
  now apply G.
Qed.

Lemma nest_outer_perm pref t :
  NoDup (fullkeys pref (PT t)) ->
  Permutation (fullkeys pref (PT (nest_outer t))) (fullkeys pref (PT t)).
Proof.
  unfold nest_outer. generalize (keys t) as ks. intros ks. revert t.
  induction ks as [|a ks IH]; intros t Hfk; simpl; [reflexivity|].
  destruct (has a t) eqn:E.
  - apply has_true in E. assert (Hp := nest_inner_perm pref a t Hfk E).
    rewrite IH; [assumption|].
    eapply Permutation_NoDup; [symmetry; exact Hp | assumption].
  - now apply IH.
Qed.

Lemma mapM_values_perm pref (f : PTree -> option PTree) m :
  (forall k c, In (k, c) m ->
     exists c', f c = Some c' /\
       Permutation (fullkeys (pref ++ k) c') (fullkeys (pref ++ k) c)) ->
  exists m', mapM_values f m = Some m' /\
    Permutation (fullkeys pref (PT m')) (fullkeys pref (PT m)).
Proof.
  induction m as [|[k c] m IH]; intros H; simpl.
  - exists []. split; reflexivity.
  - destruct (H k c) as [c' [Hc Hp]]; [now left|]. rewrite Hc.
    destruct IH as [m' [Hm Hp']].
    { intros k1 c1 Hin. apply H. now right. }
    rewrite Hm. exists ((k, c') :: m'). split; [reflexivity|].
    rewrite !fullkeys_cons. apply perm_skip. now apply Permutation_app.
Qed.

Lemma nodes_sub k c m :
  In (k, c) m -> nodes c < nodes (PT m).
Proof.
  intros Hin. rewrite (nodes_fullkeys k c), (nodes_fullkeys [] (PT m)).
  induction m as [|[k1 c1] m IH]; [destruct Hin|].
  rewrite fullkeys_cons. simpl List.length. rewrite length_app. simpl app.
  destruct Hin as [E|Hin].
  - injection E as -> ->. lia.
  - specialize (IH Hin). lia.
Qed.

(** [nestPT] returns when the fuel exceeds the number of nodes, and it
    keeps the full keys of the tree. *)
Lemma nestPT_perm fuel : forall pref t,
  nodes t < fuel -> NoDup (fullkeys pref t) ->
  exists t', nestPT fuel t = Some t' /\
    Permutation (fullkeys pref t') (fullkeys pref t).
Proof.
  induction fuel as [|fuel IH]; intros pref [m] Hn Hfk; [lia|].
  simpl nestPT. destruct (List.length m <? 2).
  - exists (PT m). split; reflexivity.
  - assert (Hp := nest_outer_perm pref m Hfk).
    assert (Hfk1 : NoDup (fullkeys pref (PT (nest_outer m)))).
    { eapply Permutation_NoDup; [symmetry; exact Hp | assumption]. }
    assert (Hn1 : nodes (PT (nest_outer m)) = nodes (PT m)).
    { rewrite !(nodes_fullkeys pref). now apply Permutation_length. }
    destruct (mapM_values_perm pref (nestPT fuel) (nest_outer m)) as [m' [Hm Hp']].
    { intros k c Hin. apply IH.
      - assert (H := nodes_sub k c _ Hin). lia.
      - assert (H := fullkeys_NoDup_sub pref k c _ Hfk1 Hin).
        now inversion H. }
    rewrite Hm. exists (PT m'). split; [reflexivity|]. now rewrite Hp'.
Qed.

(** *** Relative keys of a nested tree *)

Lemma fullkeys_Forall_sub (P : jsstring -> Prop) pref k c m :
  Forall P (fullkeys pref (PT m)) -> In (k, c) m ->
  P (pref ++ k) /\ Forall P (fullkeys (pref ++ k) c).
Proof.
  rewrite !Forall_forall. intros H Hin. split.
  - apply H, fullkeys_key_In. change k with (fst (k, c)). now apply in_map.
  - intros x Hx. eapply H, fullkeys_sub_In; eauto.
Qed.

Lemma fullkeys_well_keyed c : forall t pref,
  NoDup (fullkeys pref t) -> Forall (ends_with c) (fullkeys pref t) ->
  ~ In pref (fullkeys pref t) -> well_keyed c t.
Proof.
  intros t. induction t as [m IH] using PTree_ind'. intros pref Hnd Hall Hpref.
  constructor; [eapply fullkeys_NoDup_keys, Hnd|].
  intros k sub Hin.
  destruct (fullkeys_Forall_sub _ pref k sub m Hall Hin) as [Hk Hsub].
  assert (Hs := fullkeys_NoDup_sub pref k sub m Hnd Hin).
  inversion Hs as [|? ? Hn Hd]; subst. split.
  - apply (ends_with_app_inv c pref k Hk). intros ->. apply Hpref.
    rewrite <- (app_nil_r pref) at 1. apply fullkeys_key_In.
    change [] with (fst (@nil ascii, sub)). now apply in_map.
  - eapply IH; eauto.
Qed.

Lemma fullkeys_leaves pref m :
  (forall k c, In (k, c) m -> c = PT []) ->
  fullkeys pref (PT m) = map (app pref) (keys m).
Proof.
  induction m as [|[k c] m IH]; intros H; [reflexivity|].
  rewrite fullkeys_cons, (H k c) by now left. simpl. f_equal.
  apply IH. intros k1 c1 Hin. apply (H k1 c1). now right.
Qed.

Lemma allkeys_In q m :
  In q (allkeys (PT m)) <->
  exists k c, In (k, c) m /\ (q = k \/ In q (allkeys c)).
Proof.
  unfold allkeys at 1. fold allkeys. rewrite in_flat_map. split.
  - intros [[k c] [Hin [H|H]]]; exists k, c; simpl in *; auto.
  - intros [k [c [Hin H]]]. exists (k, c). split; [assumption|].
    simpl. destruct H; auto.
Qed.

(** *** [renderPR] *)

Lemma renderPR_unfold m pref :
  renderPR (PT m) pref = PT (fold_left (render_step pref) m m).
Proof. reflexivity. Qed.

Lemma render_step_NoDup pref t e :
  NoDup (keys t) -> NoDup (keys (render_step pref t e)).
Proof.
  intros H. destruct e as [p pT]. unfold render_step.
  now apply NoDup_keys_set, NoDup_keys_delete.
Qed.

(** Whatever collides, an entry of the rendered map is the rendering of an
    entry of the map. *)
Lemma render_entries m pref e' :
  NoDup (keys m) -> In e' (entries (renderPR (PT m) pref)) ->
  exists e, In e m /\ e' = rendered pref e.
Proof.
  rewrite renderPR_unfold. simpl entries. intros Hnd.
  assert (G : forall rest t,
    NoDup (keys t) -> incl rest m ->
    (forall x, In x t ->
       (exists e, In e m /\ x = rendered pref e) \/ In (fst x) (keys rest)) ->
    forall x, In x (fold_left (render_step pref) rest t) ->
       exists e, In e m /\ x = rendered pref e).
  { induction rest as [|[p pT] rest IH]; intros t Ht Hincl Hinv x Hx.
    - simpl in Hx. destruct (Hinv x Hx) as [H|[]]. exact H.
    - simpl fold_left in Hx. revert x Hx. apply IH.
      + apply (render_step_NoDup pref t (p, pT) Ht).
      + intros y Hy. apply Hincl. now right.
      + intros [k v] Hin. try unfold render_step in Hin.
        apply In_set_inv in Hin as [[-> ->]|Hin].
        * left. exists (p, pT). split; [apply Hincl; now left | reflexivity].
        * assert (Hk : k <> p).
          { intros ->. apply (delete_not_In p t Ht).
            change p with (fst (p, v)). now apply in_map. }
          apply In_delete_inv in Hin. destruct (Hinv _ Hin) as [H|H]; [now left|].
          right. simpl in H. destruct H as [H|H]; [congruence | exact H]. }
  intros H. apply (G m m Hnd (incl_refl m)); [|exact H].
  intros x Hx. right. now apply in_map.
Qed.

Lemma removelast_inj_ends c (a b : jsstring) :
  ends_with c a -> ends_with c b -> removelast a = removelast b -> a = b.
Proof.
  intros Ha Hb H. rewrite <- (removelast_ends c a Ha), <- (removelast_ends c b Hb).
  now rewrite H.
Qed.

(** Without a collision the loop of [renderPR] re-keys every entry in
    place. *)
Lemma render_level c pref : forall rest done,
  NoDup (keys (done ++ rest)) ->
  (forall e, In e (done ++ rest) ->
     ends_with c (fst e) /\ ~ ends_with c (removelast (pref ++ fst e))) ->
  fold_left (render_step pref) rest (rest ++ map (rendered pref) done) =
  map (rendered pref) done ++ map (rendered pref) rest.
Proof.
  induction rest as [|[p pT] rest IH]; intros done Hnd Hall.
  - simpl. now rewrite app_nil_r.
  - simpl fold_left. rewrite str_eqb_refl.
    assert (Hp : ends_with c p /\ ~ ends_with c (removelast (pref ++ p))).
    { apply (Hall (p, pT)), in_or_app. right. now left. }
    rewrite set_absent.
    + rewrite <- app_assoc.
      change (map (rendered pref) done ++ [(removelast (pref ++ p), renderPR pT (pref ++ p))])
        with (map (rendered pref) done ++ map (rendered pref) [(p, pT)]).
      rewrite <- map_app, IH.
      * rewrite map_app, <- app_assoc. reflexivity.
      * now rewrite <- app_assoc.
      * intros e He. apply Hall. now rewrite <- app_assoc in He.
    + unfold keys. rewrite map_app, in_app_iff. intros [H|H].
      * apply in_map_iff in H as [e [He Hin]]. apply (proj2 Hp).
        rewrite <- He. apply (Hall e), in_or_app. right. now right.
      * rewrite map_map in H. apply in_map_iff in H as [[k1 c1] [He Hin]].
        simpl in He.
        assert (Hk1 : ends_with c k1).
        { apply (Hall (k1, c1)), in_or_app. now left. }
        assert (E : pref ++ k1 = pref ++ p).
        { apply (removelast_inj_ends c);
            [apply ends_with_app, Hk1 | apply ends_with_app, Hp | exact He]. }
        apply app_inv_head in E. subst k1.
        unfold keys in Hnd. rewrite map_app in Hnd. simpl in Hnd.
        apply NoDup_remove_2 in Hnd. apply Hnd, in_or_app. left.
        change p with (fst (p, c1)). now apply in_map.
Qed.

Lemma renderPR_fullpaths c : forall t pref,
  well_keyed c t ->
  Forall (fun K => ~ ends_with c (removelast K)) (fullkeys pref t) ->
  renderPR t pref = fullpaths pref t.
Proof.
  intros t. induction t as [m IH] using PTree_ind'. intros pref Hwk Hall.
  inversion Hwk as [m' Hnd Hk]; subst.
  rewrite renderPR_unfold.
  assert (L := render_level c pref m []). simpl in L. rewrite app_nil_r in L.
  rewrite L; [|assumption|].
  - simpl. f_equal. apply map_ext_in. intros [k sub] Hin. unfold rendered. simpl.
    f_equal. apply (IH k sub Hin); [apply (Hk k sub Hin)|].
    apply (fullkeys_Forall_sub _ pref k sub m Hall Hin).
  - intros [k sub] Hin. simpl. split; [apply (Hk k sub Hin)|].
    apply (fullkeys_Forall_sub _ pref k sub m Hall Hin).
Qed.

Lemma allkeys_fullpaths : forall t pref,
  allkeys (fullpaths pref t) = map (@removelast ascii) (fullkeys pref t).
Proof.
  intros t. induction t as [m IH] using PTree_ind'. intros pref.
  induction m as [|[k sub] m IHm]; [reflexivity|].
  rewrite fullkeys_cons. simpl map. rewrite map_app.
  unfold allkeys, fullpaths. fold allkeys. fold fullpaths. simpl flat_map.
  f_equal. simpl fst. simpl snd. rewrite (IH k sub) by now left. f_equal.
  apply IHm. intros k1 c1 Hin. apply (IH k1 c1). now right.
Qed.

(** *** [fromPaths] *)

Lemma distinct_NoDup l : distinct l = true <-> NoDup l.
Proof.
  induction l as [|x l IH]; simpl.
  - split; [constructor | reflexivity].
  - rewrite andb_true_iff, negb_true_iff, IH. split.
    + intros [H1 H2]. constructor; [|assumption]. intros Hin.
      assert (E : existsb (str_eqb x) l = true).
      { apply existsb_exists. exists x. split; [assumption | apply str_eqb_refl]. }
      congruence.
    + intros H. inversion H as [|? ? Hn Hd]; subst. split; [|assumption].
      destruct (existsb (str_eqb x) l) eqn:E; [|reflexivity].
      apply existsb_exists in E as [y [Hy E]]. apply str_eqb_eq in E.
      subst. contradiction.
Qed.

Lemma endsWith_iff p c : endsWith p [c] = true <-> ends_with c p.
Proof.
  unfold endsWith, ends_with. simpl rev. rewrite startsWith_iff. split.
  - intros [r H]. exists (rev r). apply (f_equal (@rev ascii)) in H.
    rewrite rev_involutive in H. simpl in H. exact H.
  - intros [k0 ->]. exists (rev k0). now rewrite rev_app_distr.
Qed.

Lemma leaves_leaf paths sep k c :
  In (k, c) (entries (leaves paths sep)) -> c = PT [] /\ exists p, In p paths /\ k = p ++ sep.
Proof.
  unfold leaves. simpl. intros H. apply of_entries_In in H.
  apply in_map_iff in H as [p [E Hp]]. injection E as <- <-.
  split; [reflexivity | now exists p].
Qed.

Lemma leaves_fullkeys paths sep :
  fullkeys [] (leaves paths sep) = keys (entries (leaves paths sep)).
Proof.
  unfold leaves. simpl entries. rewrite fullkeys_leaves.
  - simpl. apply map_id.
  - intros k c H. apply (leaves_leaf paths sep k c H).
Qed.

Lemma leaves_NoDup paths sep : NoDup (fullkeys [] (leaves paths sep)).
Proof. rewrite leaves_fullkeys. apply of_entries_keys_NoDup. Qed.

Lemma leaves_fullkeys_form paths sep K :
  In K (fullkeys [] (leaves paths sep)) -> exists p, In p paths /\ K = p ++ sep.
Proof.
  rewrite leaves_fullkeys. intros H. apply in_map_iff in H as [[k c] [E H]].
  simpl in E. subst k. apply (leaves_leaf paths sep K c H).
Qed.

Lemma leaves_distinct paths c :
  NoDup paths ->
  fullkeys [] (leaves paths [c]) = map (fun p => p ++ [c]) paths.
Proof.
  intros Hnd. rewrite leaves_fullkeys. unfold leaves. simpl entries.
  rewrite of_entries_NoDup; unfold keys; rewrite map_map; simpl.
  - reflexivity.
  - apply Injective_map_NoDup; [|assumption].
    intros x y E. now apply app_inj_tail in E as [E _].
Qed.

(** [fromPaths] returns, for every input; the nested tree has the full
    keys of the leaves. *)
Lemma nested_total paths sep :
  exists n, nested paths sep = Some n /\
    Permutation (fullkeys [] n) (fullkeys [] (leaves paths sep)).
Proof.
  unfold nested. apply nestPT_perm; [lia | apply leaves_NoDup].
Qed.

Lemma fromPaths_total paths sep : exists t, fromPaths paths sep = Some t.
Proof.
  unfold fromPaths. destruct (nested_total paths sep) as [n [-> _]]. eauto.
Qed.

Lemma nested_well_keyed paths c n :
  nested paths [c] = Some n -> well_keyed c n.
Proof.
  intros Hn. destruct (nested_total paths [c]) as [n' [Hn' Hp]].
  rewrite Hn in Hn'. injection Hn' as <-.
  assert (Hall : Forall (ends_with c) (fullkeys [] n)).
  { apply Forall_forall. intros K HK. eapply Permutation_in in HK; [|exact Hp].
    apply leaves_fullkeys_form in HK as [p [_ ->]]. now exists p. }
  apply (fullkeys_well_keyed c n []).
  - eapply Permutation_NoDup; [symmetry; exact Hp | apply leaves_NoDup].
  - exact Hall.
  - intros H. rewrite Forall_forall in Hall. destruct (Hall _ H) as [k0 E].
    now destruct k0.
Qed.

(** Keys somewhere in a rendered tree extend the prefix it was rendered
    with. *)
Lemma render_allkeys_form c : forall t pref,
  well_keyed c t ->
  forall q, In q (allkeys (renderPR t pref)) ->
  exists x, x <> [] /\ q = pref ++ removelast x.
Proof.
  intros t. induction t as [m IH] using PTree_ind'. intros pref Hwk q Hq.
  inversion Hwk as [m' Hnd Hk]; subst.
  destruct (renderPR (PT m) pref) as [m'] eqn:E.
  apply allkeys_In in Hq as [k' [c' [Hin Hq]]].
  assert (Hin' : In (k', c') (entries (renderPR (PT m) pref))) by now rewrite E.
  apply render_entries in Hin' as [[k sub] [Hm Er]]; [|assumption].
  unfold rendered in Er. simpl in Er. injection Er as -> ->.
  destruct (Hk k sub Hm) as [[k0 ->] Hsub].
  destruct Hq as [->|Hq].
  - exists (k0 ++ [c]). split; [now destruct k0|].
    rewrite removelast_app; [reflexivity | now destruct k0].
  - apply (IH (k0 ++ [c]) sub Hm _ Hsub) in Hq as [x [Hx ->]].
    exists ((k0 ++ [c]) ++ x). split; [now destruct k0|].
    rewrite removelast_app by assumption. now rewrite <- app_assoc.
Qed.

Lemma render_node_in c : forall t pref,
  well_keyed c t ->
  forall p cp, node_in p cp (renderPR t pref) ->
  exists P n, p = removelast P /\ ends_with c P /\
              cp = renderPR n P /\ well_keyed c n.
Proof.
  intros t. induction t as [m IH] using PTree_ind'. intros pref Hwk p cp Hnode.
  inversion Hwk as [m' Hnd Hk]; subst.
  destruct (renderPR (PT m) pref) as [mr] eqn:E.
  inversion Hnode as [m1 Hin E1 | k' c' m1 Hin Hbelow E1]; subst m1.
  - assert (Hin' : In (p, cp) (entries (renderPR (PT m) pref))) by now rewrite E.
    apply render_entries in Hin' as [[k sub] [Hm Er]]; [|assumption].
    unfold rendered in Er. simpl in Er. injection Er as -> ->.
    exists (pref ++ k), sub. destruct (Hk k sub Hm) as [Hk1 Hsub].
    repeat split; auto using ends_with_app.
  - assert (Hin' : In (k', c') (entries (renderPR (PT m) pref))) by now rewrite E.
    apply render_entries in Hin' as [[k sub] [Hm Er]]; [|assumption].
    unfold rendered in Er. simpl in Er. injection Er as -> ->.
    apply (IH k sub Hm (pref ++ k)); [apply (Hk k sub Hm) | assumption].
Qed.

(** A node is only ever placed below a node whose path, followed by the
    separator, starts its own. *)
Lemma fromPaths_nested_prefix paths c t p q :
  fromPaths paths [c] = Some t -> nested_under p q t ->
  startsWith (q ++ [c]) (p ++ [c]) = true.
Proof.
  unfold fromPaths. destruct (nested paths [c]) as [n|] eqn:Hn; [|discriminate].
  intros [= <-] [cp [Hnode Hq]].
  assert (Hwk := nested_well_keyed paths c n Hn).
  apply (render_node_in c n [] Hwk) in Hnode as [P [n' [-> [HP [-> Hwk']]]]].
  apply (render_allkeys_form c n' P Hwk') in Hq as [x [Hx ->]].
  rewrite (removelast_ends c P HP). apply startsWith_iff.
  exists (removelast x ++ [c]). now rewrite <- app_assoc.
Qed.

(** With pairwise different paths that do not end with the separator, no
    key collides in [renderPR]. *)
Lemma fromPaths_fullpaths paths c :
  distinct paths = true ->
  forallb (fun p => negb (endsWith p [c])) paths = true ->
  exists n, nested paths [c] = Some n /\
    Permutation (fullkeys [] n) (map (fun p => p ++ [c]) paths) /\
    fromPaths paths [c] = Some (fullpaths [] n).
Proof.
  intros Hd Hends. apply distinct_NoDup in Hd.
  destruct (nested_total paths [c]) as [n [Hn Hp]].
  rewrite (leaves_distinct paths c Hd) in Hp.
  exists n. split; [assumption|]. split; [assumption|].
  unfold fromPaths. rewrite Hn. f_equal.
  apply (renderPR_fullpaths c); [eapply nested_well_keyed, Hn|].
  apply Forall_forall. intros K HK. eapply Permutation_in in HK; [|exact Hp].
  apply in_map_iff in HK as [p [<- Hin]]. rewrite removelast_last.
  rewrite forallb_forall in Hends. specialize (Hends p Hin).
  apply negb_true_iff in Hends. intros He. apply endsWith_iff in He. congruence.
Qed.

Lemma render_allkeys_full c : forall t pref,
  well_keyed c t ->
  forall q, In q (allkeys (renderPR t pref)) -> In (q ++ [c]) (fullkeys pref t).
Proof.
  intros t. induction t as [m IH] using PTree_ind'. intros pref Hwk q Hq.
  inversion Hwk as [m' Hnd Hk]; subst.
  destruct (renderPR (PT m) pref) as [m'] eqn:E.
  apply allkeys_In in Hq as [k' [c' [Hin Hq]]].
  assert (Hin' : In (k', c') (entries (renderPR (PT m) pref))) by now rewrite E.
  apply render_entries in Hin' as [[k sub] [Hm Er]]; [|assumption].
  unfold rendered in Er. simpl in Er. injection Er as -> ->.
  destruct (Hk k sub Hm) as [Hk1 Hsub].
  destruct Hq as [->|Hq].
  - rewrite (removelast_ends c (pref ++ k)); [|now apply ends_with_app].
    apply fullkeys_key_In. change k with (fst (k, sub)). now apply in_map.
  - eapply fullkeys_sub_In; [exact Hm|]. now apply (IH k sub Hm).
Qed.

Lemma node_in_inv k c m :
  node_in k c (PT m) ->
  In (k, c) m \/ exists k' c', In (k', c') m /\ node_in k c c'.
Proof. intros H. inversion H; subst; eauto. Qed.
End TreeFacts.

(** * The claims about [TreeBuilder] *)

Lemma Permutation_3 (a b c : jsstring) (l : list jsstring) :
  NoDup [a; b; c] -> Permutation l [a; b; c] ->
  In l [[a; b; c]; [a; c; b]; [b; a; c]; [b; c; a]; [c; a; b]; [c; b; a]].
Proof.
  intros Hnd H. assert (Hl := Permutation_length H).
  destruct l as [|x [|y [|z [|]]]]; try discriminate.
  assert (Hnd' : NoDup [x; y; z])
    by (eapply Permutation_NoDup; [symmetry; exact H | exact Hnd]).
  assert (Hx : In x [a; b; c]) by (eapply Permutation_in; [exact H | now left]).
  assert (Hy : In y [a; b; c]) by (eapply Permutation_in; [exact H | right; now left]).
  assert (Hz : In z [a; b; c])
    by (eapply Permutation_in; [exact H | right; right; now left]).
  simpl in Hx, Hy, Hz.
  destruct Hx as [<-|[<-|[<-|[]]]]; destruct Hy as [<-|[<-|[<-|[]]]];
    destruct Hz as [<-|[<-|[<-|[]]]]; simpl; auto 10; exfalso;
    inversion Hnd' as [|? ? Hn1 Hn2]; inversion Hn2 as [|? ? Hn3 Hn4];
    simpl in *; tauto.
Qed.

(** C3. For the paths [/proj], [/proj/node_modules/a] and
    [/proj/node_modules/a/node_modules/b], in whatever order the set lists
    them, [fromPaths] with separator [/] returns the chain in which [a] is
    the child of [/proj] and [b] the child of [a]; [a] and [b] are not
    siblings.  In every trie [fromPaths] returns, two paths neither of which
    (followed by the separator) starts the other are not nested under one
    another. *)
Theorem C3_path_prefix_nesting :
  (forall paths, Permutation paths [ex_proj; ex_a; ex_b] ->
     TreeBuilder.fromPaths paths (s "/") = Some ex_trie) /\
  child_of ex_proj ex_a ex_trie /\
  child_of ex_a ex_b ex_trie /\
  ~ siblings ex_a ex_b ex_trie /\
  (forall paths c p q t,
     TreeBuilder.fromPaths paths [c] = Some t ->
     startsWith (q ++ [c]) (p ++ [c]) = false ->
     startsWith (p ++ [c]) (q ++ [c]) = false ->
     ~ nested_under p q t /\ ~ nested_under q p t).
Proof.
  split; [|split; [|split; [|split]]].
  - intros paths H. apply Permutation_3 in H.
    + simpl in H.
      destruct H as [<-|[<-|[<-|[<-|[<-|[<-|[]]]]]]]; vm_compute; reflexivity.
    + repeat constructor; simpl; intuition discriminate.
  - exists (PT [(ex_a, PT [(ex_b, PT [])])]), (PT [(ex_b, PT [])]).
    split; [apply node_here|]; simpl; auto.
  - exists (PT [(ex_b, PT [])]), (PT []).
    split; [|simpl; auto].
    eapply node_below; [simpl; left; reflexivity|]. apply node_here. simpl; auto.
  - intros [_ [[H1 _]|[k [c [Hn [H1 H2]]]]]].
    + simpl in H1. destruct H1 as [H1|[]]. discriminate.
    + unfold ex_trie in Hn.
      apply TreeFacts.node_in_inv in Hn as [Hn|[k1 [c1 [Hin Hn]]]].
      * destruct Hn as [Hn|[]]. injection Hn as <- <-.
        simpl in H2. destruct H2 as [H2|[]]. discriminate.
      * destruct Hin as [Hin|[]]. injection Hin as <- <-.
        apply TreeFacts.node_in_inv in Hn as [Hn|[k2 [c2 [Hin Hn]]]].
        -- destruct Hn as [Hn|[]]. injection Hn as <- <-.
           simpl in H1. destruct H1 as [H1|[]]. discriminate.
        -- destruct Hin as [Hin|[]]. injection Hin as <- <-.
           apply TreeFacts.node_in_inv in Hn as [Hn|[k3 [c3 [Hin Hn]]]].
           ++ destruct Hn as [Hn|[]]. injection Hn as <- <-. destruct H1.
           ++ destruct Hin as [Hin|[]]. injection Hin as <- <-.
              apply TreeFacts.node_in_inv in Hn as [[]|[k4 [c4 [[] _]]]].
  - intros paths c p q t Ht Hpq Hqp. split; intros Hn.
    + apply (TreeFacts.fromPaths_nested_prefix paths c t p q Ht) in Hn. congruence.
    + apply (TreeFacts.fromPaths_nested_prefix paths c t q p Ht) in Hn. congruence.
Qed.

Lemma C3_witness :
  TreeBuilder.fromPaths [ex_b; ex_proj; ex_a] (s "/") = Some ex_trie /\
  ~ nested_under (s "/p/abc") (s "/p/abcdef")
      (PT [(s "/p", PT [(s "/p/abc", PT []); (s "/p/abcdef", PT [])])]) /\
  ~ nested_under (s "/p/abcdef") (s "/p/abc")
      (PT [(s "/p", PT [(s "/p/abc", PT []); (s "/p/abcdef", PT [])])]).
Proof.
  destruct C3_path_prefix_nesting as [H1 [_ [_ [_ H5]]]]. split.
  - apply H1. apply (Permutation_cons_append [ex_proj; ex_a] ex_b).
  - apply (H5 [s "/p"; s "/p/abc"; s "/p/abcdef"] "/"%char);
      vm_compute; reflexivity.
Defined.

(** C9, as stated, fails: the key [renderPR] gives a node is its path from
    the root, here [/proj/node_modules/a] and not the segment
    [node_modules/a]. *)
Lemma C9_counterexample :
  TreeBuilder.fromPaths [ex_proj; ex_a] (s "/") =
    Some (PT [(ex_proj, PT [(ex_a, PT [])])]) /\
  option_map renderPR_segments (TreeBuilder.nested [ex_proj; ex_a] (s "/")) =
    Some (PT [(ex_proj, PT [(s "node_modules/a", PT [])])]) /\
  TreeBuilder.fromPaths [ex_proj; ex_a] (s "/") <>
    option_map renderPR_segments (TreeBuilder.nested [ex_proj; ex_a] (s "/")).
Proof.
  split; [|split]; vm_compute; [reflexivity | reflexivity | discriminate].
Qed.

(** C9, amended.  After the final pass of [fromPaths] the key of every trie
    node is the node's path from the root: one of the input paths, that is
    the concatenation of the relative keys on the way to the node without
    the node's own trailing separator.  When the paths are pairwise
    different and none ends with the separator, the result is exactly the
    nested tree so re-keyed. *)
Theorem C9_render_keys_are_full_paths (paths : list jsstring) (c : ascii) :
  exists n t,
    TreeBuilder.nested paths [c] = Some n /\
    TreeBuilder.fromPaths paths [c] = Some t /\
    (forall k, In k (allkeys t) ->
       In k paths /\ In (k ++ [c]) (fullkeys [] n)) /\
    (distinct paths = true ->
     forallb (fun p => negb (endsWith p [c])) paths = true ->
     t = fullpaths [] n).
Proof.
  destruct (TreeFacts.nested_total paths [c]) as [n [Hn Hp]].
  exists n, (TreeBuilder.renderPR n []).
  split; [assumption|]. split; [unfold TreeBuilder.fromPaths; now rewrite Hn|].
  split.
  - intros k Hk.
    apply (TreeFacts.render_allkeys_full c n []) in Hk;
      [|eapply TreeFacts.nested_well_keyed, Hn].
    split; [|assumption].
    eapply Permutation_in in Hk; [|exact Hp].
    apply TreeFacts.leaves_fullkeys_form in Hk as [p [Hin E]].
    apply app_inj_tail in E as [-> _]. assumption.
  - intros Hd He.
    destruct (TreeFacts.fromPaths_fullpaths paths c Hd He) as [n' [Hn' [_ Hf]]].
    unfold TreeBuilder.fromPaths in Hf. rewrite Hn in Hn'. injection Hn' as <-.
    rewrite Hn in Hf. now injection Hf.
Qed.

Lemma C9_witness :
  exists n t,
    TreeBuilder.nested [ex_proj; ex_a] (s "/") = Some n /\
    TreeBuilder.fromPaths [ex_proj; ex_a] (s "/") = Some t /\
    t = fullpaths [] n.
Proof.
  destruct (C9_render_keys_are_full_paths [ex_proj; ex_a] "/"%char)
    as [n [t [Hn [Ht [_ H]]]]].
  exists n, t. split; [exact Hn|]. split; [exact Ht|].
  apply H; reflexivity.
Defined.

(** C10, as stated, fails: with the paths [/a], [/a/y/] and [/a//a/y] the
    re-keying of [renderPR] overwrites the entry of [/a//a/y] with the one
    of [/a/y/] and then deletes it; the trie has two nodes for three
    paths. *)
Lemma C10_counterexample :
  distinct [s "/a"; s "/a/y/"; s "/a//a/y"] = true /\
  forallb (fun p => negb (str_eqb p [])) [s "/a"; s "/a/y/"; s "/a//a/y"] = true /\
  TreeBuilder.fromPaths [s "/a"; s "/a/y/"; s "/a//a/y"] (s "/") =
    Some (PT [(s "/a", PT [(s "/a//a/y", PT [])])]) /\
  ~ Permutation (allkeys (PT [(s "/a", PT [(s "/a//a/y", PT [])])]))
                [s "/a"; s "/a/y/"; s "/a//a/y"].
Proof.
  split; [reflexivity|]. split; [reflexivity|]. split; [vm_compute; reflexivity|].
  intros H. apply Permutation_length in H. discriminate.
Qed.

(** C10, amended.  For pairwise different paths none of which ends with
    the separator, the trie [fromPaths] returns has exactly one node per
    path, keyed by it, and no other node. *)
Theorem C10_fromPaths_nodes_are_the_paths (paths : list jsstring) (c : ascii) :
  distinct paths = true ->
  forallb (fun p => negb (endsWith p [c])) paths = true ->
  exists t, TreeBuilder.fromPaths paths [c] = Some t /\
            Permutation (allkeys t) paths.
Proof.
  intros Hd He.
  destruct (TreeFacts.fromPaths_fullpaths paths c Hd He) as [n [_ [Hp Hf]]].
  exists (fullpaths [] n). split; [assumption|].
  rewrite TreeFacts.allkeys_fullpaths, Hp, map_map.
  erewrite map_ext; [rewrite map_id; reflexivity|].
  intros p. apply removelast_last.
Qed.

Lemma C10_witness :
  exists t, TreeBuilder.fromPaths [ex_proj; ex_a; ex_b] (s "/") = Some t /\
            Permutation (allkeys t) [ex_proj; ex_a; ex_b].
Proof.
  apply (C10_fromPaths_nodes_are_the_paths [ex_proj; ex_a; ex_b] "/"%char);
    reflexivity.
Defined.


(** * The hash extractor *)

Module HashFacts.
Import HashExtractor.

Lemma bytes_of_sextets_length l :
  List.length (bytes_of_sextets l) = decoded_length (List.length l).
Proof.
  assert (G : forall n l, List.length l <= n ->
            List.length (bytes_of_sextets l) = decoded_length (List.length l)).
  { induction n as [|n IH]; intros [|a [|b [|c [|d r]]]] H; simpl in *;
      try reflexivity; try lia.
    rewrite IH by lia. reflexivity. }
  apply (G (List.length l)). lia.
Qed.

Lemma isBase64Char_b64val c :
  isBase64Char c = true -> exists v, b64val c = Some v.
Proof.
  unfold isBase64Char, b64val. set (n := nat_of_ascii c).
  destruct (65 <=? n), (n <=? 90), (97 <=? n), (n <=? 122),
    (48 <=? n), (n <=? 57), (n =? 43), (n =? 47); simpl;
    try discriminate; eauto;
    destruct (n =? 45), (n =? 95); simpl; eauto.
Qed.

Lemma sextets_payload payload padding :
  forallb isBase64Char payload = true ->
  sextets padding = [] ->
  List.length (sextets (payload ++ padding)) = List.length payload.
Proof.
  intros H Hp. induction payload as [|c payload IH]; simpl.
  - now rewrite Hp.
  - simpl in H. apply andb_true_iff in H as [Hc H].
    destruct (isBase64Char_b64val c Hc) as [v ->]. simpl. now rewrite IH.
Qed.

Lemma to_hex_length bytes : List.length (to_hex bytes) = 2 * List.length bytes.
Proof. induction bytes as [|b bytes IH]; simpl; [reflexivity | lia]. Qed.

Lemma hex_digit_lower n : is_lower_hex (hex_digit n) = true.
Proof.
  unfold hex_digit. do 16 (destruct n as [|n]; [reflexivity|]).
  destruct n; reflexivity.
Qed.

Lemma to_hex_lower bytes : forallb is_lower_hex (to_hex bytes) = true.
Proof.
  induction bytes as [|b bytes IH]; [reflexivity|].
  change (to_hex (b :: bytes))
    with ([hex_digit (b / 16); hex_digit (b mod 16)] ++ to_hex bytes).
  rewrite forallb_app, IH. cbn [forallb].
  now rewrite !hex_digit_lower.
Qed.

Lemma startsWith_firstn (b a : jsstring) :
  startsWith b a = true -> firstn (List.length a) b = a.
Proof.
  intros H. apply startsWith_iff in H as [r ->].
  rewrite firstn_app, Nat.sub_diag, firstn_all. simpl. apply app_nil_r.
Qed.

(** A match of [exec] has the form of its pattern. *)
Lemma exec_form prefix count padding x capture :
  exec prefix count padding x = Some capture ->
  integrity_form prefix count padding x.
Proof.
  unfold exec, startsWith_ci. destruct (startsWith _ _) eqn:Hs; [|discriminate].
  destruct (_ && _) eqn:Hc; [|discriminate]. intros _.
  apply andb_true_iff in Hc as [Hc Hpad]. apply andb_true_iff in Hc as [Hlen Hall].
  apply Nat.eqb_eq in Hlen. apply str_eqb_eq in Hpad.
  set (rest := skipn (List.length prefix) x) in *.
  exists (firstn (List.length prefix) x), (firstn count rest).
  split; [|split; [|split]].
  - rewrite <- Hpad, firstn_skipn. unfold rest. now rewrite firstn_skipn.
  - apply startsWith_firstn in Hs. rewrite length_map in Hs.
    now rewrite <- firstn_map.
  - rewrite length_firstn. lia.
  - exact Hall.
Qed.
End HashFacts.

(** C6. For an integrity string [sha512-] followed by 86 characters of
    base64 and [==], the extraction gives one hash, of the algorithm
    SHA-512, whose value is the decoded payload, 64 bytes, written as 128
    lowercase hexadecimal digits.  For a string of none of the four forms
    it gives no hash (and, being a function, no error). *)
Theorem C6_integrity_hash_extraction :
  (forall payload : jsstring,
     List.length payload = 86 ->
     forallb HashExtractor.isBase64Char payload = true ->
     HashExtractor.hashes_of_integrity (s "sha512-" ++ payload ++ s "==") =
       [(SHA_512,
         HashExtractor.to_hex (HashExtractor.base64_decode (payload ++ s "==")))] /\
     List.length (HashExtractor.base64_decode (payload ++ s "==")) = 64 /\
     List.length
       (HashExtractor.to_hex (HashExtractor.base64_decode (payload ++ s "==")))
       = 128 /\
     forallb is_lower_hex
       (HashExtractor.to_hex (HashExtractor.base64_decode (payload ++ s "==")))
       = true) /\
  (forall x : jsstring,
     ~ integrity_matches x -> HashExtractor.hashes_of_integrity x = []).
Proof.
  split.
  - intros payload Hlen Hall.
    assert (Hdec : List.length (HashExtractor.base64_decode (payload ++ s "==")) = 64).
    { unfold HashExtractor.base64_decode.
      rewrite HashFacts.bytes_of_sextets_length, HashFacts.sextets_payload, Hlen;
        auto. }
    split; [|split; [exact Hdec|split]].
    + unfold HashExtractor.hashes_of_integrity, HashExtractor.integrityRE.
      cbn [HashExtractor.first_match].
      assert (Hx : HashExtractor.exec (s "sha512-") 86 (s "==")
                     (s "sha512-" ++ payload ++ s "==") = Some (payload ++ s "==")).
      { unfold HashExtractor.exec.
        replace (startsWith_ci (s "sha512-" ++ payload ++ s "==") (s "sha512-"))
          with true by reflexivity.
        change (skipn (List.length (s "sha512-")) (s "sha512-" ++ payload ++ s "=="))
          with (payload ++ s "==").
        rewrite length_app, Hlen. simpl (86 + _ =? _).
        rewrite <- Hlen at 1. rewrite firstn_app, Nat.sub_diag, firstn_all.
        simpl (firstn 0 _). rewrite app_nil_r, Hall.
        rewrite <- Hlen, skipn_length_app. reflexivity. }
      now rewrite Hx.
    + rewrite HashFacts.to_hex_length, Hdec. reflexivity.
    + apply HashFacts.to_hex_lower.
  - intros x Hx. unfold HashExtractor.hashes_of_integrity, HashExtractor.integrityRE.
    cbn [HashExtractor.first_match].
    destruct (HashExtractor.exec (s "sha512-") 86 (s "==") x) eqn:E1.
    { exfalso. apply Hx. left. eapply HashFacts.exec_form, E1. }
    destruct (HashExtractor.exec (s "sha1-") 27 (s "=") x) eqn:E2.
    { exfalso. apply Hx. right. left. eapply HashFacts.exec_form, E2. }
    destruct (HashExtractor.exec (s "sha256-") 43 (s "=") x) eqn:E3.
    { exfalso. apply Hx. right. right. left. eapply HashFacts.exec_form, E3. }
    destruct (HashExtractor.exec (s "sha384-") 64 (s "") x) eqn:E4.
    { exfalso. apply Hx. right. right. right. eapply HashFacts.exec_form, E4. }
    reflexivity.
Qed.

Lemma C6_witness :
  HashExtractor.hashes_of_integrity
    (s "sha512-zvj65TkFeIt3i6aj5bIvJDzjjQQGs4o/sNoezg1F1kYap9Nu2jcUdpwzRSJTHMMzG0H7bZkn4rNQpImhuxWX2A==")
  = [(SHA_512,
      s "cef8fae53905788b778ba6a3e5b22f243ce38d0406b38a3fb0da1ece0d45d6461aa7d36eda3714769c334522531cc3331b41fb6d9927e2b350a489a1bb1597d8")] /\
  HashExtractor.hashes_of_integrity (s "md5-rL0Y20zC+Fzt72VPzMSk2A==") = [].
Proof.
  destruct C6_integrity_hash_extraction as [H1 H2]. split.
  - destruct (H1 (s "zvj65TkFeIt3i6aj5bIvJDzjjQQGs4o/sNoezg1F1kYap9Nu2jcUdpwzRSJTHMMzG0H7bZkn4rNQpImhuxWX2A")
                 eq_refl eq_refl) as [H _].
    vm_compute in H. vm_compute. exact H.
  - apply H2. intros [H|[H|[H|H]]];
      destruct H as [pre [payload [Hx [Hpre [Hl _]]]]];
      apply (f_equal (@List.length ascii)) in Hx;
      apply (f_equal (@List.length ascii)) in Hpre;
      rewrite !length_map in Hpre;
      rewrite !length_app, Hl in Hx; simpl in Hx, Hpre; lia.
Defined.

(** * The record normalizer *)

(** C2 fails on a record that is flagged both [devOptional] and [dev]: it
    is skipped as soon as [dev] alone is omitted, by the test of the [dev]
    flag, which comes first.  This is against the comment the source puts
    before the test of [devOptional] (such records are not to be skipped
    with devs, since they are still required by optionals). *)
Lemma C2_counterexample :
  is_true (get_prop (record "a" "1.0.0" "/proj/node_modules/a"
                       [(s "devOptional", JBool true); (s "dev", JBool true)] [])
                    "devOptional") = true /\
  omits (options [dev] false) optional = false /\
  BomBuilder.makeComponent demo (options [dev] false)
    (record "a" "1.0.0" "/proj/node_modules/a"
       [(s "devOptional", JBool true); (s "dev", JBool true)] [])
    None = Some MadeFalse.
Proof. repeat split. Qed.

(** C2, where the code does what the claim says.  For a raw record flagged
    [devOptional] that is flagged neither [optional] nor [dev] (canonical
    field or legacy alias), [makeComponent] returns [false] exactly when
    both [dev] and [optional] are in the omission set. *)
Theorem C2_devOptional_omission (E : Collaborators) (this : BomBuilderOptions)
    (data : json) (type : option ComponentType) :
  is_true (get_prop data "devOptional") = true ->
  is_true (nullish (get_prop data "optional") (get_prop data "_optional")) = false ->
  is_true (nullish (get_prop data "dev") (get_prop data "_development")) = false ->
  (BomBuilder.makeComponent E this data type = Some MadeFalse <->
   omits this dev && omits this optional = true).
Proof.
  intros Hdo Ho Hd. unfold BomBuilder.makeComponent.
  rewrite Hdo, Ho, Hd. cbn [andb].
  destruct (omits this dev && omits this optional) eqn:Hom.
  - split; reflexivity.
  - split; [|discriminate]. intros H. exfalso.
    destruct (if packageLockOnly this then _ else _); [|discriminate].
    destruct (normalizePackageData E _); [|discriminate].
    destruct (componentBuilder_makeComponent E _ type); discriminate.
Qed.

Lemma C2_witness :
  (BomBuilder.makeComponent demo (options [dev] false)
     (record "a" "1.0.0" "/proj/node_modules/a" [(s "devOptional", JBool true)] [])
     None = Some MadeFalse <-> false = true) /\
  (BomBuilder.makeComponent demo (options [optional] false)
     (record "a" "1.0.0" "/proj/node_modules/a" [(s "devOptional", JBool true)] [])
     None = Some MadeFalse <-> false = true) /\
  (BomBuilder.makeComponent demo (options [dev; optional] false)
     (record "a" "1.0.0" "/proj/node_modules/a" [(s "devOptional", JBool true)] [])
     None = Some MadeFalse <-> true = true).
Proof.
  split; [|split].
  - apply (C2_devOptional_omission demo (options [dev] false)
             (record "a" "1.0.0" "/proj/node_modules/a"
                [(s "devOptional", JBool true)] []) None); reflexivity.
  - apply (C2_devOptional_omission demo (options [optional] false)
             (record "a" "1.0.0" "/proj/node_modules/a"
                [(s "devOptional", JBool true)] []) None); reflexivity.
  - apply (C2_devOptional_omission demo (options [dev; optional] false)
             (record "a" "1.0.0" "/proj/node_modules/a"
                [(s "devOptional", JBool true)] []) None); reflexivity.
Defined.

(** * The graph walk *)

Lemma update_nth_length {A : Type} (n : nat) (f : A -> A) (l : list A) :
  List.length (update_nth n f l) = List.length l.
Proof.
  revert n; induction l as [|x l IH]; intros [|n]; simpl; auto.
Qed.

Lemma nth_error_update_nth_same {A : Type} (n : nat) (f : A -> A) (l : list A) :
  nth_error (update_nth n f l) n = option_map f (nth_error l n).
Proof.
  revert n; induction l as [|x l IH]; intros [|n]; simpl; auto.
Qed.

Lemma nth_error_update_nth_other {A : Type} (n m : nat) (f : A -> A) (l : list A) :
  n <> m -> nth_error (update_nth n f l) m = nth_error l m.
Proof.
  revert n m; induction l as [|x l IH]; intros [|n] [|m] H; simpl; auto.
  congruence.
Qed.

Lemma nth_error_update_nth {A : Type} (n m : nat) (f : A -> A) (l : list A) x :
  nth_error l m = Some x ->
  nth_error (update_nth n f l) m = Some (if n =? m then f x else x).
Proof.
  intros H. destruct (n =? m) eqn:E.
  - apply Nat.eqb_eq in E. subst. now rewrite nth_error_update_nth_same, H.
  - apply Nat.eqb_neq in E. now rewrite nth_error_update_nth_other.
Qed.

Lemma Forall_update_nth {A : Type} (P : A -> Prop) (n : nat) (f : A -> A) l :
  (forall x, P x -> P (f x)) -> Forall P l -> Forall P (update_nth n f l).
Proof.
  intros Hf. revert n; induction l as [|x l IH]; intros [|n] H; simpl; auto;
    inversion H; subst; constructor; auto.
Qed.

Lemma values_app {V : Type} (m1 m2 : JsMap.t V) :
  JsMap.values (m1 ++ m2) = JsMap.values m1 ++ JsMap.values m2.
Proof. apply map_app. Qed.

Lemma extends_refl st : extends st st.
Proof. split; eauto. Qed.

Lemma extends_trans st1 st2 st3 :
  extends st1 st2 -> extends st2 st3 -> extends st1 st3.
Proof.
  intros [A1 B1] [A2 B2]. split; [auto|].
  intros i c H. destruct (B1 i c H) as [c' [H' E']].
  destruct (B2 i c' H') as [c'' [H'' E'']]. exists c''. split; congruence.
Qed.

Lemma json_depth_field k v fields :
  In (k, v) fields -> json_depth v < json_depth (JObj fields).
Proof.
  simpl. induction fields as [|[k1 v1] fields IH]; [intros []|].
  intros [E|H]; simpl.
  - injection E as -> ->. lia.
  - specialize (IH H). lia.
Qed.

Lemma json_depth_item v items :
  In v items -> json_depth v < json_depth (JArr items).
Proof.
  simpl. induction items as [|v1 items IH]; [intros []|].
  intros [->|H]; simpl; [lia|]. specialize (IH H). lia.
Qed.

Module WalkFacts.
Import JsMap JsMapFacts BomBuilder.

Section WithCollaborators.
Variable E : Collaborators.
Variable this : BomBuilderOptions.

(** A record below the root is strictly less deep than its parent. *)
Lemma dependency_depth data depName depData :
  In (depName, depData) (Object_entries (dependencies_of data)) ->
  is_object depData = true ->
  json_depth depData < json_depth data.
Proof.
  unfold dependencies_of, get_prop. destruct data as [| | | | |fields];
    try (simpl; tauto).
  destruct (get (s "dependencies") fields) as [v|] eqn:Hg; [|simpl; tauto].
  apply get_In in Hg. apply json_depth_field in Hg.
  destruct v as [| | |x|items|deps]; simpl nullish; cbv iota;
    try (simpl; tauto); intros Hin Hobj.
  - simpl in Hin. apply in_combine_r in Hin.
    apply in_map_iff in Hin as [c [<- _]]. discriminate.
  - simpl Object_entries in Hin. apply in_combine_r in Hin.
    apply json_depth_item in Hin. lia.
  - simpl Object_entries in Hin. apply json_depth_field in Hin. lia.
Qed.

(** What [makeComponent] returns is a fresh component: not nested, with a
    reference token, and not a placeholder. *)
Lemma shape_when b f c :
  (forall x, shape (f x) = shape x) -> shape (when b f c) = shape c.
Proof. intros H. unfold when. destruct b; auto. Qed.

Lemma shape_when_string v f c :
  (forall y x, shape (f y x) = shape x) -> shape (when_string v f c) = shape c.
Proof. intros H. unfold when_string. destruct v; auto. Qed.

Lemma shape_add_property name value c :
  shape (add_property name value c) = shape c.
Proof. reflexivity. Qed.

Lemma shape_add_distribution data resolved c :
  shape (add_distribution data resolved c) = shape c.
Proof. unfold add_distribution. destruct (resolvedRE_ignore resolved); reflexivity. Qed.

Lemma shape_assign_purl c : shape (assign_purl E this c) = shape c.
Proof. reflexivity. Qed.

Lemma shape_assign_bomRef data c : shape (assign_bomRef data c) = shape c.
Proof. reflexivity. Qed.

Lemma makeComponent_fresh data type c :
  makeComponent E this data type = Some (MadeComponent c) ->
  c_components c = [] /\ c_bomRef c <> None /\ c_isDummy c = false.
Proof.
  unfold makeComponent. cbv zeta.
  repeat match goal with
  | |- context [if ?b then Some MadeFalse else _] => destruct b; [discriminate|]
  end.
  destruct (if packageLockOnly this then _ else _); [|discriminate].
  destruct (normalizePackageData E _); [|discriminate].
  destruct (componentBuilder_makeComponent E _ type); [|discriminate].
  intros [= <-].
  match goal with
  | |- c_components (assign_bomRef ?d ?x) = [] /\ _ =>
      assert (Hs : shape (assign_bomRef d x) = ([], false))
  end.
  { rewrite shape_assign_bomRef, shape_assign_purl.
    rewrite shape_when_string by (intros; apply shape_add_distribution).
    rewrite !shape_when by (intros; apply shape_add_property).
    rewrite shape_when_string by (intros; apply shape_add_property).
    rewrite shape_when by reflexivity. reflexivity. }
  injection Hs as H1 H2. split; [exact H1|]. split; [discriminate | exact H2].
Qed.

(** [makeComponent] does not throw on a record that carries a string
    [path], when [normalizePackageData] does not. *)
Lemma makeComponent_returns data type path :
  (forall d, normalizePackageData E d <> None) ->
  as_string (get_prop data "path") = Some path ->
  exists made, makeComponent E this data type = Some made.
Proof.
  intros Hnorm Hp. unfold makeComponent. cbv zeta. rewrite Hp.
  repeat match goal with
  | |- context [if ?b then Some MadeFalse else _] => destruct b; [eauto|]
  end.
  destruct (packageLockOnly this);
    match goal with
    | |- context [normalizePackageData E ?d] =>
        destruct (normalizePackageData E d) eqn:Hn;
          [|exfalso; eapply Hnorm; eauto]
    end;
    destruct (componentBuilder_makeComponent E _ type); eauto.
Qed.

Lemma add_dependency_inv owner dep st :
  walk_inv st -> walk_inv (add_dependency owner dep st).
Proof.
  intros [H1 [H2 H3]]. unfold add_dependency, walk_inv. simpl.
  rewrite update_nth_length. repeat split; auto.
  apply Forall_update_nth; auto.
Qed.

Lemma add_dependency_extends owner dep st :
  extends st (add_dependency owner dep st).
Proof.
  split; [auto|]. intros i c H. unfold add_dependency. simpl.
  rewrite (nth_error_update_nth owner i _ _ c H).
  destruct (owner =? i); eauto.
Qed.

Lemma dummy_fresh type name :
  c_components (DummyComponent type name) = [] /\
  c_bomRef (DummyComponent type name) <> None.
Proof. split; [reflexivity | discriminate]. Qed.

(** Registering a new component under a path that is not a key yet. *)
Lemma register_inv st path component :
  walk_inv st -> get path (allComponents st) = None ->
  c_components component = [] /\ c_bomRef component <> None ->
  walk_inv (mkState (heap st ++ [component])
                    (set path (List.length (heap st)) (allComponents st))).
Proof.
  intros [H1 [H2 H3]] Hg Hc. apply get_None in Hg.
  unfold walk_inv. simpl. rewrite set_absent by assumption. split; [|split].
  - unfold keys. rewrite map_app. simpl. apply NoDup_app; auto.
    + repeat constructor. simpl. tauto.
    + intros x Hx [<-|[]]. contradiction.
  - rewrite values_app, H2, length_app. simpl.
    rewrite Nat.add_1_r, seq_S. reflexivity.
  - apply Forall_app. split; [assumption | now constructor].
Qed.

Lemma get_app_l {V : Type} (m1 m2 : JsMap.t V) k v :
  get k m1 = Some v -> get k (m1 ++ m2) = Some v.
Proof.
  induction m1 as [|[k1 v1] m1 IH]; simpl; [discriminate|].
  destruct (str_eqb k1 k); auto.
Qed.

Lemma register_extends st path component :
  get path (allComponents st) = None ->
  extends st (mkState (heap st ++ [component])
                      (set path (List.length (heap st)) (allComponents st))).
Proof.
  intros Hg. apply get_None in Hg. split; simpl.
  - intros p c H. rewrite set_absent by assumption. now apply get_app_l.
  - intros i c H. exists c. split; [|reflexivity].
    rewrite nth_error_app1; [assumption|]. apply nth_error_Some. congruence.
Qed.

Lemma for_each_total {A S : Type} (body : S -> A -> option S) l :
  (forall x, In x l -> forall st, exists st', body st x = Some st') ->
  forall st, exists st', for_each body l st = Some st'.
Proof.
  induction l as [|x l IH]; intros H st; simpl; [eauto|].
  destruct (H x (or_introl eq_refl) st) as [st1 ->].
  apply IH. intros y Hy. apply H. now right.
Qed.

Lemma for_each_inv {A S : Type} (body : S -> A -> option S)
    (I : S -> Prop) (R : S -> S -> Prop) l :
  (forall st, R st st) ->
  (forall a b c, R a b -> R b c -> R a c) ->
  (forall x st st', In x l -> I st -> body st x = Some st' -> I st' /\ R st st') ->
  forall st st', I st -> for_each body l st = Some st' -> I st' /\ R st st'.
Proof.
  intros Hrefl Htrans. induction l as [|x l IH]; intros H st st' Hi Hf; simpl in Hf.
  - injection Hf as <-. auto.
  - destruct (body st x) as [st1|] eqn:Hb; [|discriminate].
    destruct (H x st st1 (or_introl eq_refl) Hi Hb) as [Hi1 Hr1].
    destruct (IH (fun y a b Hy => H y a b (or_intror Hy)) st1 st' Hi1 Hf)
      as [Hi' Hr']. eauto.
Qed.

(** One edge of the walk keeps the invariant. *)
Lemma gatherEntry_inv recurse parent st entry st' :
  (forall st0 d c st1, walk_inv st0 -> recurse st0 d c = Some st1 ->
                       walk_inv st1 /\ extends st0 st1) ->
  walk_inv st ->
  gatherEntry E this recurse parent st entry = Some st' ->
  walk_inv st' /\ extends st st'.
Proof.
  intros Hrec Hi. destruct entry as [depName depData]. unfold gatherEntry.
  destruct (is_object depData); simpl negb; cbv iota.
  2:{ intros [= <-]. split; [assumption | apply extends_refl]. }
  destruct (as_string (get_prop depData "path")) as [path|].
  2:{ intros [= <-]. split; [assumption | apply extends_refl]. }
  destruct (get path (allComponents st)) as [dep|] eqn:Hg.
  - intros H. apply Hrec in H as [H1 H2]; [|now apply add_dependency_inv].
    split; [assumption|].
    eapply extends_trans; [apply add_dependency_extends | exact H2].
  - destruct (makeComponent E this depData None) as [made|] eqn:Hm; [|discriminate].
    assert (G : forall component,
      c_components component = [] /\ c_bomRef component <> None ->
      recurse
        (add_dependency parent (List.length (heap st))
           (mkState (heap st ++ [component])
                    (set path (List.length (heap st)) (allComponents st))))
        depData (List.length (heap st)) = Some st' ->
      walk_inv st' /\ extends st st').
    { intros component Hc H.
      apply Hrec in H as [H1 H2];
        [|now apply add_dependency_inv, register_inv].
      split; [assumption|].
      eapply extends_trans; [now apply (register_extends st path component)|].
      eapply extends_trans; [apply add_dependency_extends | exact H2]. }
    destruct made as [c| |].
    + apply G. apply makeComponent_fresh in Hm. tauto.
    + intros [= <-]. split; [assumption | apply extends_refl].
    + apply G. apply dummy_fresh.
Qed.

(** The walk keeps the invariant, and what it has registered. *)
Lemma gatherDependencies_inv fuel : forall st data parent st',
  walk_inv st ->
  gatherDependencies E this fuel st data parent = Some st' ->
  walk_inv st' /\ extends st st'.
Proof.
  induction fuel as [|fuel IH]; intros st data parent st' Hi H; [discriminate|].
  simpl in H. revert H. apply for_each_inv; auto using extends_refl.
  - apply extends_trans.
  - intros entry st0 st1 _ Hi0. apply gatherEntry_inv; auto.
Qed.

Lemma gatherEntry_total recurse parent st depName depData :
  (forall d, normalizePackageData E d <> None) ->
  (is_object depData = true ->
   forall st0 c, exists st1, recurse st0 depData c = Some st1) ->
  exists st', gatherEntry E this recurse parent st (depName, depData) = Some st'.
Proof.
  intros Hnorm Hrec. unfold gatherEntry.
  destruct (is_object depData); simpl negb; cbv iota; [|eauto].
  destruct (as_string (get_prop depData "path")) as [path|] eqn:Hp; [|eauto].
  destruct (get path (allComponents st)) as [dep|]; [now apply Hrec|].
  destruct (makeComponent_returns depData None path Hnorm Hp) as [made ->].
  destruct made; [now apply Hrec | eauto | now apply Hrec].
Qed.

(** The walk returns when [normalizePackageData] does not throw: the fuel
    [buildFromNpmLs] gives it exceeds the depth of the raw tree. *)
Lemma gatherDependencies_total fuel :
  (forall d, normalizePackageData E d <> None) ->
  forall st data parent,
    json_depth data < fuel ->
    exists st', gatherDependencies E this fuel st data parent = Some st'.
Proof.
  intros Hnorm.
  induction fuel as [|fuel IH]; intros st data parent Hd; [lia|].
  simpl. apply for_each_total. intros [depName depData] Hin st0.
  apply gatherEntry_total; [exact Hnorm|]. intros Hobj st1 c. apply IH.
  assert (H := dependency_depth data depName depData Hin Hobj). lia.
Qed.
End WithCollaborators.
End WalkFacts.

(** C7, amended.  When the normalization of a child entry returns the skip
    signal and the path of the entry is not yet a key of the component
    map, the edge leaves the state of the walk as it was: no dependency
    edge is added to the parent, no component is registered for the path,
    and the walk does not descend into the entry (whatever the recursive
    call would do).  The entries after it are walked as if it had not been
    there, so another edge to the same path is normalized again, on its
    own record: if that one gives a component, it is registered and
    walked.  When the path is already a key, the record is not normalized:
    although its normalization would return the skip signal, the edge from
    the parent to the registered component is recorded, nothing is
    registered, and the walk descends into the entry. *)
Theorem C7_skipped_edge_leaves_no_trace (E : Collaborators)
    (this : BomBuilderOptions)
    (recurse : State -> json -> cid -> option State)
    (directDepRefs : cid) (st : State) (depName path : jsstring)
    (depData : json) :
  is_object depData = true ->
  as_string (get_prop depData "path") = Some path ->
  BomBuilder.makeComponent E this depData None = Some MadeFalse ->
  (JsMap.get path (allComponents st) = None ->
   BomBuilder.gatherEntry E this recurse directDepRefs st (depName, depData)
     = Some st /\
   (forall rest,
      BomBuilder.for_each (BomBuilder.gatherEntry E this recurse directDepRefs)
        ((depName, depData) :: rest) st
      = BomBuilder.for_each (BomBuilder.gatherEntry E this recurse directDepRefs)
          rest st) /\
   (forall depName2 depData2 c,
      is_object depData2 = true ->
      as_string (get_prop depData2 "path") = Some path ->
      BomBuilder.makeComponent E this depData2 None = Some (MadeComponent c) ->
      BomBuilder.for_each (BomBuilder.gatherEntry E this recurse directDepRefs)
        [(depName, depData); (depName2, depData2)] st
      = recurse
          (BomBuilder.add_dependency directDepRefs (List.length (heap st))
             (mkState (heap st ++ [c])
                (JsMap.set path (List.length (heap st)) (allComponents st))))
          depData2 (List.length (heap st)))) /\
  (forall dep,
     JsMap.get path (allComponents st) = Some dep ->
     BomBuilder.gatherEntry E this recurse directDepRefs st (depName, depData)
       = recurse (BomBuilder.add_dependency directDepRefs dep st) depData dep /\
     allComponents (BomBuilder.add_dependency directDepRefs dep st)
       = allComponents st /\
     (forall c, nth_error (heap st) directDepRefs = Some c ->
        exists c',
          nth_error (heap (BomBuilder.add_dependency directDepRefs dep st))
            directDepRefs = Some c' /\
          In dep (c_dependencies c'))).
Proof.
  intros Hobj Hp Hm. split.
  - intros Hg.
    assert (H : BomBuilder.gatherEntry E this recurse directDepRefs st
                  (depName, depData) = Some st).
    { unfold BomBuilder.gatherEntry. now rewrite Hobj, Hp, Hg, Hm. }
    split; [exact H|]. split.
    + intros rest. cbn [BomBuilder.for_each]. now rewrite H.
    + intros depName2 depData2 c Hobj2 Hp2 Hm2.
      cbn [BomBuilder.for_each]. rewrite H.
      unfold BomBuilder.gatherEntry. rewrite Hobj2, Hp2, Hg, Hm2. simpl negb. cbv iota.
      now destruct (recurse _ depData2 _).
  - intros dep Hg. split; [|split].
    + unfold BomBuilder.gatherEntry. now rewrite Hobj, Hp, Hg.
    + reflexivity.
    + intros c Hc. unfold BomBuilder.add_dependency. cbn [heap].
      rewrite (nth_error_update_nth directDepRefs directDepRefs _ _ c Hc).
      rewrite Nat.eqb_refl. eexists. split; [reflexivity|].
      cbn [c_dependencies set_dependencies].
      unfold set_add. destruct (existsb (Nat.eqb dep) (c_dependencies c)) eqn:Ex.
      * apply existsb_exists in Ex as [x [Hx Hq]]. apply Nat.eqb_eq in Hq.
        now subst x.
      * apply in_or_app. right. now left.
Qed.

Lemma C7_witness :
  BomBuilder.gatherEntry demo (options [optional] false)
    (BomBuilder.gatherDependencies demo (options [optional] false) 3) 0
    (mkState [DummyComponent Application (s "RootComponent")] [(s "/proj", 0)])
    (s "o", record "o" "1.0.0" "/proj/node_modules/o"
              [(s "optional", JBool true)]
              [(s "p", record "p" "1.0.0" "/proj/node_modules/p" [] [])])
  = Some (mkState [DummyComponent Application (s "RootComponent")]
                  [(s "/proj", 0)]).
Proof.
  apply (C7_skipped_edge_leaves_no_trace demo (options [optional] false)
           (BomBuilder.gatherDependencies demo (options [optional] false) 3) 0
           (mkState [DummyComponent Application (s "RootComponent")]
                    [(s "/proj", 0)])
           (s "o") (s "/proj/node_modules/o"));
    reflexivity.
Defined.

(** C7, as stated, fails in the tree [ex_reused]: the record of
    [o] listed below [a] is flagged optional, and its normalization under
    the omission of the optional packages returns the skip signal; yet its
    path was registered by the entry of the top level, so the walk records
    the edge from [a] (component 2) to [o] (component 1) and descends into
    the flagged record, where it registers [p] (component 3). *)
Lemma C7_counterexample :
  BomBuilder.makeComponent demo (options [optional] false)
    (record "o" "1.0.0" "/proj/node_modules/o" [(s "optional", JBool true)]
       [(s "p", record "p" "1.0.0" "/proj/node_modules/p" [] [])]) None
    = Some MadeFalse /\
  option_map (fun r => (JsMap.keys (allComponents (snd r)),
                        map c_dependencies (heap (snd r))))
    (BomBuilder.walk demo (options [optional] false) ex_reused)
  = Some ([s "/proj"; s "/proj/node_modules/o"; s "/proj/node_modules/a";
           s "/proj/node_modules/p"],
          [[1; 2]; [3]; [1]; []]).
Proof. split; vm_compute; reflexivity. Qed.

(** * The assembly *)

Lemma NoDup_flat_map_disj {A B : Type} (f : A -> list B) (l : list A) :
  NoDup l ->
  (forall x, In x l -> NoDup (f x)) ->
  (forall x y b, In x l -> In y l -> In b (f x) -> In b (f y) -> x = y) ->
  NoDup (flat_map f l).
Proof.
  induction l as [|x l IH]; intros Hl Hf Hd; simpl; [constructor|].
  inversion Hl as [|? ? Hx Hl']; subst.
  apply NoDup_app.
  - apply Hf. now left.
  - apply IH; auto.
    + intros y Hy. apply Hf. now right.
    + intros y z b Hy Hz. apply Hd; now right.
  - intros b Hb Hb'. apply in_flat_map in Hb' as [y [Hy Hby]].
    assert (x = y) by (apply (Hd x y b); auto; [now left | now right]).
    subst. contradiction.
Qed.

Module TrieKeys.
Import JsMap JsMapFacts TreeBuilder TreeFacts.

Lemma fullkeys_segment_unique pref m e1 e2 x :
  NoDup (fullkeys pref (PT m)) -> In e1 m -> In e2 m ->
  In x ((pref ++ fst e1) :: fullkeys (pref ++ fst e1) (snd e1)) ->
  In x ((pref ++ fst e2) :: fullkeys (pref ++ fst e2) (snd e2)) ->
  e1 = e2.
Proof.
  assert (Hseg : forall m e, In e m ->
            In x ((pref ++ fst e) :: fullkeys (pref ++ fst e) (snd e)) ->
            In x (fullkeys pref (PT m))).
  { intros m0 [k c0] Hin [<-|Hx]; simpl in *.
    - apply fullkeys_key_In. change k with (fst (k, c0)). now apply in_map.
    - eapply fullkeys_sub_In; eauto. }
  induction m as [|[k c0] m IH]; [intros _ []|].
  rewrite fullkeys_cons. intros Hnd H1 H2 Hx1 Hx2.
  change (NoDup (((pref ++ k) :: fullkeys (pref ++ k) c0) ++ fullkeys pref (PT m)))
    in Hnd.
  destruct H1 as [<-|H1], H2 as [<-|H2]; auto.
  - exfalso. eapply (NoDup_app_disj _ _ _ x Hnd); [exact Hx1|]. eapply Hseg; eauto.
  - exfalso. eapply (NoDup_app_disj _ _ _ x Hnd); [exact Hx2|]. eapply Hseg; eauto.
  - apply IH; auto. eapply NoDup_app_r, Hnd.
Qed.

Lemma render_keys_NoDup m pref :
  NoDup (keys m) -> NoDup (keys (entries (renderPR (PT m) pref))).
Proof.
  rewrite renderPR_unfold. simpl entries.
  assert (G : forall rest t, NoDup (keys t) ->
            NoDup (keys (fold_left (render_step pref) rest t))).
  { induction rest as [|e rest IH]; intros t H; simpl; [assumption|].
    apply IH. now apply render_step_NoDup. }
  apply G.
Qed.

(** Whatever collides in [renderPR], no key occurs twice in the rendered
    tree. *)
Lemma render_NoDup c : forall t pref,
  well_keyed c t -> NoDup (fullkeys pref t) ->
  NoDup (allkeys (renderPR t pref)).
Proof.
  intros t. induction t as [m IH] using PTree_ind'. intros pref Hwk Hfk.
  inversion Hwk as [m' Hnd Hk]; subst.
  assert (Hkeys := render_keys_NoDup m pref Hnd).
  assert (Hent : forall e', In e' (entries (renderPR (PT m) pref)) ->
            exists e, In e m /\ e' = rendered pref e).
  { intros e'. now apply render_entries. }
  destruct (renderPR (PT m) pref) as [mr]. simpl entries in *.
  unfold allkeys. fold allkeys.
  assert (Hin : forall e b, In e m ->
            In b (fst (rendered pref e) :: allkeys (snd (rendered pref e))) ->
            In (b ++ [c])
               ((pref ++ fst e) :: fullkeys (pref ++ fst e) (snd e))).
  { intros [k sub] b He [<-|Hb]; destruct (Hk k sub He) as [Hk1 Hsub].
    - left. simpl. symmetry. apply removelast_ends. now apply ends_with_app.
    - right. simpl in *. now apply render_allkeys_full. }
  apply NoDup_flat_map_disj.
  - eapply NoDup_map_inv, Hkeys.
  - intros e' He'. destruct (Hent e' He') as [[k sub] [He ->]].
    destruct (Hk k sub He) as [[k0 ->] Hsub]. unfold rendered. simpl.
    assert (Hs := fullkeys_NoDup_sub pref (k0 ++ [c]) sub m Hfk He).
    constructor.
    + intros Hx. apply (render_allkeys_form c) in Hx as [x [Hx E]]; [|assumption].
      assert (E1 : removelast (pref ++ k0 ++ [c]) = pref ++ k0)
        by (rewrite app_assoc; apply removelast_last).
      rewrite E1 in E. apply (f_equal (@List.length ascii)) in E.
      rewrite !length_app in E. simpl in E. lia.
    + apply (IH (k0 ++ [c]) sub He); [assumption | now inversion Hs].
  - intros e1' e2' b H1 H2 Hb1 Hb2.
    destruct (Hent e1' H1) as [e1 [He1 ->]].
    destruct (Hent e2' H2) as [e2 [He2 ->]].
    f_equal. apply (fullkeys_segment_unique pref m e1 e2 (b ++ [c])); auto.
Qed.

Lemma fromPaths_NoDup paths c t :
  fromPaths paths [c] = Some t -> NoDup (allkeys t).
Proof.
  unfold fromPaths. destruct (nested paths [c]) as [n|] eqn:Hn; [|discriminate].
  intros [= <-]. destruct (nested_total paths [c]) as [n' [Hn' Hp]].
  rewrite Hn in Hn'. injection Hn' as <-.
  apply (render_NoDup c); [eapply nested_well_keyed, Hn|].
  eapply Permutation_NoDup; [symmetry; exact Hp | apply leaves_NoDup].
Qed.

Lemma fromPaths_keys paths c t k :
  fromPaths paths [c] = Some t -> In k (allkeys t) -> In k paths.
Proof.
  unfold fromPaths. destruct (nested paths [c]) as [n|] eqn:Hn; [|discriminate].
  intros [= <-] Hk. destruct (nested_total paths [c]) as [n' [Hn' Hp]].
  rewrite Hn in Hn'. injection Hn' as <-.
  apply (render_allkeys_full c n []) in Hk; [|eapply nested_well_keyed, Hn].
  eapply Permutation_in in Hk; [|exact Hp].
  apply leaves_fullkeys_form in Hk as [p [Hin E]].
  apply app_inj_tail in E as [-> _]. assumption.
Qed.
End TrieKeys.

Lemma CTree_ind' (P : CTree -> Prop)
    (H : forall c kids, Forall P kids -> P (CNode c kids)) :
  forall t, P t.
Proof.
  fix IH 1. intros [c kids]. apply H.
  induction kids as [|k kids IHk]; constructor; [apply IH | exact IHk].
Qed.

Module ForestFacts.
Import JsMap JsMapFacts BomBuilder.

Lemma set_add_new c l : ~ In c l -> set_add c l = l ++ [c].
Proof.
  intros H. unfold set_add.
  destruct (existsb (Nat.eqb c) l) eqn:E; [|reflexivity].
  apply existsb_exists in E as [x [Hx E]]. apply Nat.eqb_eq in E.
  subst. contradiction.
Qed.

Lemma set_add_all l : forall acc,
  NoDup (acc ++ l) -> fold_left (fun ch c => set_add c ch) l acc = acc ++ l.
Proof.
  induction l as [|c l IH]; intros acc H; simpl.
  - now rewrite app_nil_r.
  - rewrite set_add_new.
    + rewrite IH; rewrite <- app_assoc; [reflexivity | exact H].
    + apply NoDup_remove_2 in H. intros Hc. apply H, in_or_app. now left.
Qed.

Lemma roots_incl f c : In c (map root_of f) -> In c (flat_map cids_of f).
Proof.
  intros H. apply in_map_iff in H as [[c' kids] [<- H]].
  apply in_flat_map. exists (CNode c' kids). split; [assumption | now left].
Qed.

Lemma roots_NoDup f : NoDup (flat_map cids_of f) -> NoDup (map root_of f).
Proof.
  induction f as [|[c kids] f IH]; simpl; [constructor|].
  intros H. inversion H as [|? ? Hn Hd]; subst. constructor.
  - intros Hc. apply Hn, in_or_app. right. now apply roots_incl.
  - apply IH. eapply NoDup_app_r, Hd.
Qed.

Lemma stored_frame h h' : forall t,
  (forall i, In i (cids_of t) -> kids_of h' i = kids_of h i) ->
  stored h t -> stored h' t.
Proof.
  intros t. induction t as [c kids IH] using CTree_ind'. intros Hf Hs.
  inversion Hs as [c' kids' Hk Hkids]; subst. constructor.
  - rewrite Hf; [assumption | now left].
  - rewrite Forall_forall in *. intros k Hin. apply IH; auto.
    intros i Hi. apply Hf. right. apply in_flat_map. eauto.
Qed.

Lemma stored_frame_forest h h' f :
  (forall i, In i (flat_map cids_of f) -> kids_of h' i = kids_of h i) ->
  Forall (stored h) f -> Forall (stored h') f.
Proof.
  intros Hf. rewrite !Forall_forall. intros Hs t Hin.
  apply (stored_frame h h'); auto.
  intros i Hi. apply Hf, in_flat_map. eauto.
Qed.

Lemma nestComponents_unfold all m h :
  nestComponents all (PT m) h = fold_left (nest_step all) m (h, []).
Proof. reflexivity. Qed.

Lemma nestF_unfold all m : nestF all (PT m) = flat_map (entryF all) m.
Proof. reflexivity. Qed.

Lemma kids_of_update_same h c v :
  c < List.length h -> kids_of (update_nth c (set_components v) h) c = Some v.
Proof.
  intros H. unfold kids_of. rewrite nth_error_update_nth_same.
  destruct (nth_error h c) eqn:E; [reflexivity|].
  apply nth_error_None in E. lia.
Qed.

Lemma kids_of_update_other h c v i :
  c <> i -> kids_of (update_nth c (set_components v) h) i = kids_of h i.
Proof. intros H. unfold kids_of. now rewrite nth_error_update_nth_other. Qed.

Lemma same_but_nesting_update h c v :
  same_but_nesting h (update_nth c (set_components v) h).
Proof.
  intros i. destruct (Nat.eq_dec c i) as [<-|Hne].
  - rewrite nth_error_update_nth_same. now destruct (nth_error h c).
  - now rewrite nth_error_update_nth_other.
Qed.

Lemma same_but_nesting_trans h1 h2 h3 :
  same_but_nesting h1 h2 -> same_but_nesting h2 h3 -> same_but_nesting h1 h3.
Proof. intros A B i. now rewrite B, A. Qed.

(** [nestComponents] stores the forest of the trie in the heap and returns
    its roots, when no component occurs twice in that forest. *)
Lemma nestComponents_forest all : forall tree h,
  NoDup (flat_map cids_of (nestF all tree)) ->
  (forall c, In c (flat_map cids_of (nestF all tree)) -> c < List.length h) ->
  exists h',
    nestComponents all tree h = (h', map root_of (nestF all tree)) /\
    Forall (stored h') (nestF all tree) /\
    List.length h' = List.length h /\
    same_but_nesting h h' /\
    (forall i, ~ In i (flat_map cids_of (nestF all tree)) ->
               nth_error h' i = nth_error h i).
Proof.
  intros tree. induction tree as [m IH] using PTree_ind'. intros h Hnd Hlt.
  rewrite nestComponents_unfold. rewrite nestF_unfold in *.
  assert (G : forall m', incl m' m -> forall h0 forest0,
    NoDup (flat_map cids_of (forest0 ++ flat_map (entryF all) m')) ->
    (forall c, In c (flat_map cids_of (flat_map (entryF all) m')) ->
               c < List.length h0) ->
    Forall (stored h0) forest0 ->
    exists h',
      fold_left (nest_step all) m' (h0, map root_of forest0) =
        (h', map root_of (forest0 ++ flat_map (entryF all) m')) /\
      Forall (stored h') (forest0 ++ flat_map (entryF all) m') /\
      List.length h' = List.length h0 /\
      same_but_nesting h0 h' /\
      (forall i, ~ In i (flat_map cids_of (flat_map (entryF all) m')) ->
                 nth_error h' i = nth_error h0 i)).
  { induction m' as [|[p pTree] m' IHm]; intros Hincl h0 forest0 Hnd0 Hlt0 Hst0.
    - simpl. rewrite app_nil_r. exists h0. repeat split; auto.
    - simpl flat_map in *. set (Fp := nestF all pTree) in *.
      set (Frest := flat_map (entryF all) m') in *.
      assert (Hin : In (p, pTree) m) by (apply Hincl; now left).
      assert (Hincl' : incl m' m) by (intros y Hy; apply Hincl; now right).
      (* the forest of the subtree *)
      assert (HcFp : forall i, In i (flat_map cids_of Fp) ->
                In i (flat_map cids_of (entryF all (p, pTree)))).
      { intros i Hi. unfold entryF. simpl. fold Fp.
        destruct (get p all); [simpl; rewrite app_nil_r; now right | assumption]. }
      rewrite !flat_map_app in Hnd0.
      assert (HndE : NoDup (flat_map cids_of (entryF all (p, pTree)))).
      { eapply NoDup_app_l, NoDup_app_r, Hnd0. }
      assert (HndFp : NoDup (flat_map cids_of Fp)).
      { unfold entryF in HndE. simpl in HndE. fold Fp in HndE.
        destruct (get p all); [|assumption].
        simpl in HndE. rewrite app_nil_r in HndE. now inversion HndE. }
      destruct (IH p pTree Hin h0 HndFp) as [h1 [Hn1 [Hs1 [Hl1 [Hsb1 Hf1]]]]].
      { intros c Hc. apply Hlt0. rewrite flat_map_app. apply in_or_app. left. auto. }
      assert (Hst1 : Forall (stored h1) forest0).
      { apply (stored_frame_forest h0); [|assumption].
        intros i Hi. unfold kids_of. rewrite Hf1; [reflexivity|].
        intros Hi'. eapply (NoDup_app_disj _ _ _ i Hnd0); [exact Hi|].
        apply in_or_app. left. auto. }
      simpl fold_left. rewrite Hn1.
      unfold entryF. simpl fst. simpl snd. fold Fp.
      unfold entryF in HndE, Hnd0, Hlt0. simpl fst in *. simpl snd in *.
      fold Fp in HndE, Hnd0, Hlt0.
      destruct (get p all) as [c|] eqn:Hg.
      + (* the node has a component *)
        simpl flat_map in HndE, Hnd0, Hlt0. rewrite app_nil_r in HndE, Hnd0.
        inversion HndE as [|? ? HcFp' _]; subst.
        assert (Hc0 : ~ In c (flat_map cids_of forest0)).
        { intros Hi. eapply (NoDup_app_disj _ _ _ c Hnd0); [exact Hi|].
          apply in_or_app. left. now left. }
        assert (Hclt : c < List.length h1).
        { rewrite Hl1. apply Hlt0. now left. }
        rewrite set_add_new by (intros Hi; apply Hc0; now apply roots_incl).
        set (h2 := update_nth c (set_components (map root_of Fp)) h1).
        assert (Hnode : stored h2 (CNode c Fp)).
        { constructor; [now apply kids_of_update_same|].
          apply (stored_frame_forest h1); [|assumption].
          intros i Hi. apply kids_of_update_other. intros ->. contradiction. }
        assert (Hst2 : Forall (stored h2) (forest0 ++ [CNode c Fp])).
        { apply Forall_app. split; [|constructor; [exact Hnode | constructor]].
          apply (stored_frame_forest h1); [|assumption].
          intros i Hi. apply kids_of_update_other. intros ->. contradiction. }
        destruct (IHm Hincl' h2 (forest0 ++ [CNode c Fp])) as [h' [Hn' [Hs' [Hl' [Hsb' Hf']]]]].
        * rewrite !flat_map_app. simpl flat_map. rewrite app_nil_r.
          rewrite <- app_assoc. exact Hnd0.
        * intros x Hx. unfold h2. rewrite update_nth_length, Hl1. apply Hlt0.
          right. apply in_or_app. now right.
        * exact Hst2.
        * exists h'. rewrite map_app in Hn'. simpl map in Hn'.
          rewrite <- !app_assoc in *. simpl app in *.
          split; [exact Hn'|]. split; [exact Hs'|].
          split; [unfold h2 in Hl'; rewrite update_nth_length in Hl'; lia|].
          split.
          { eapply same_but_nesting_trans; [exact Hsb1|].
            eapply same_but_nesting_trans; [apply same_but_nesting_update|].
            exact Hsb'. }
          intros i Hi. rewrite Hf'.
          -- unfold h2. rewrite nth_error_update_nth_other.
             ++ apply Hf1. intros Hi'. apply Hi. right. apply in_or_app. left.
                exact Hi'.
             ++ intros ->. apply Hi. now left.
          -- intros Hi'. apply Hi. right. apply in_or_app. now right.
      + (* the node passes the forest of its subtree on *)
        rewrite set_add_all.
        2:{ rewrite <- map_app. apply roots_NoDup. rewrite flat_map_app.
            rewrite app_assoc in Hnd0. eapply NoDup_app_l, Hnd0. }
        destruct (IHm Hincl' h1 (forest0 ++ Fp)) as [h' [Hn' [Hs' [Hl' [Hsb' Hf']]]]].
        * rewrite !flat_map_app, <- app_assoc. exact Hnd0.
        * intros x Hx. rewrite Hl1. apply Hlt0. rewrite flat_map_app.
          apply in_or_app. now right.
        * apply Forall_app. split; assumption.
        * exists h'. rewrite <- map_app, <- !app_assoc in *.
          split; [exact Hn'|]. split; [exact Hs'|]. split; [lia|]. split.
          { eapply same_but_nesting_trans; eauto. }
          intros i Hi. rewrite Hf'.
          -- apply Hf1. intros Hi'. apply Hi. rewrite flat_map_app.
             apply in_or_app. now left.
          -- intros Hi'. apply Hi. rewrite flat_map_app. apply in_or_app. now right. }
  destruct (G m (incl_refl m) h []) as [h' H']; auto.
  exists h'. exact H'.
Qed.

(** *** [adjustNestedBomRefs] on a stored forest *)

Lemma chains_map : forall t anc0,
  chains anc0 t = map (fun e => (anc0 ++ fst e, snd e)) (chains [] t).
Proof.
  intros t. induction t as [c0 kids IH] using CTree_ind'. intros anc0.
  simpl. rewrite app_nil_r. f_equal.
  induction kids as [|k kids IHk]; [reflexivity|].
  inversion IH as [|? ? Hk Hkids]; subst.
  simpl. rewrite map_app, <- (IHk Hkids). f_equal.
  rewrite (Hk (anc0 ++ [c0])), (Hk [c0]), map_map.
  apply map_ext. intros [a c]. simpl. now rewrite <- app_assoc.
Qed.

Lemma chains_In anc0 t anc c :
  In (anc, c) (chains anc0 t) <->
  exists rel, anc = anc0 ++ rel /\ In (rel, c) (chains [] t).
Proof.
  rewrite chains_map, in_map_iff. split.
  - intros [[rel c'] [E H]]. simpl in E. injection E as <- <-. eauto.
  - intros [rel [-> H]]. exists (rel, c). auto.
Qed.

Lemma chains_members : forall t rel c,
  In (rel, c) (chains [] t) ->
  In c (cids_of t) /\ forall a, In a rel -> In a (cids_of t).
Proof.
  intros t. induction t as [c0 kids IH] using CTree_ind'.
  intros rel c. simpl. intros [E|H].
  - injection E as <- <-. split; [now left | intros a []].
  - apply in_flat_map in H as [k [Hk H]]. rewrite Forall_forall in IH.
    apply chains_In in H as [rel' [-> H]].
    destruct (IH k Hk _ _ H) as [Hc Hrel]. split.
    + right. apply in_flat_map. eauto.
    + intros a [<-|Ha]; [now left|]. right. apply in_flat_map. eauto.
Qed.

Lemma same_but_ref_kids h h' i : same_but_ref h h' -> kids_of h' i = kids_of h i.
Proof.
  intros H. unfold kids_of. specialize (H i).
  destruct (nth_error h' i), (nth_error h i); simpl in *; try discriminate; auto.
  apply (f_equal (option_map c_components)) in H. exact H.
Qed.

Lemma same_but_ref_refl h : same_but_ref h h.
Proof. intros i. reflexivity. Qed.

Lemma same_but_ref_trans h1 h2 h3 :
  same_but_ref h1 h2 -> same_but_ref h2 h3 -> same_but_ref h1 h3.
Proof. intros A B i. now rewrite B, A. Qed.

Lemma same_but_ref_update h c v : same_but_ref h (update_nth c (set_bomRef v) h).
Proof.
  intros i. destruct (Nat.eq_dec c i) as [<-|Hne].
  - rewrite nth_error_update_nth_same. now destruct (nth_error h c).
  - now rewrite nth_error_update_nth_other.
Qed.

(** The statement about one tree, for a given fuel. *)
Definition adjust_ok (fuel : nat) : Prop :=
  forall t h pref,
    stored h t -> NoDup (cids_of t) -> refs_defined h (cids_of t) ->
    List.length (cids_of t) < fuel ->
    exists h',
      adjustNestedBomRefs fuel h (root_of t) pref = Some h' /\
      List.length h' = List.length h /\
      same_but_ref h h' /\
      refs_defined h' (cids_of t) /\
      (forall i, ~ In i (cids_of t) -> nth_error h' i = nth_error h i) /\
      (forall anc c, In (anc, c) (chains [] t) ->
         ref_of h' c = pref ++ chain_prefix h anc ++ ref_of h c).

Lemma ref_of_frame h h' c : nth_error h' c = nth_error h c -> ref_of h' c = ref_of h c.
Proof. intros H. unfold ref_of. now rewrite H. Qed.

Lemma chain_prefix_frame h h' anc :
  (forall a, In a anc -> nth_error h' a = nth_error h a) ->
  chain_prefix h' anc = chain_prefix h anc.
Proof.
  intros H. unfold chain_prefix. induction anc as [|a anc IH]; [reflexivity|].
  cbn [flat_map]. rewrite (ref_of_frame h h' a) by (apply H; now left).
  rewrite IH; [reflexivity|]. intros x Hx. apply H. now right.
Qed.

Lemma refs_defined_frame h h' l :
  (forall c, In c l -> nth_error h' c = nth_error h c) ->
  refs_defined h l -> refs_defined h' l.
Proof. intros Hf Hd c Hc. rewrite (Hf c Hc). now apply Hd. Qed.

(** The loop over the nested components, from the statement about one
    tree. *)
Lemma adjust_forest fuel (Htree : adjust_ok fuel) : forall f h pref,
  Forall (stored h) f -> NoDup (flat_map cids_of f) ->
  refs_defined h (flat_map cids_of f) ->
  (forall t, In t f -> List.length (cids_of t) < fuel) ->
  exists h',
    for_each (fun h c => adjustNestedBomRefs fuel h c pref) (map root_of f) h
      = Some h' /\
    List.length h' = List.length h /\
    same_but_ref h h' /\
    refs_defined h' (flat_map cids_of f) /\
    (forall i, ~ In i (flat_map cids_of f) -> nth_error h' i = nth_error h i) /\
    (forall t anc c, In t f -> In (anc, c) (chains [] t) ->
       ref_of h' c = pref ++ chain_prefix h anc ++ ref_of h c).
Proof.
  induction f as [|t f IH]; intros h pref Hst Hnd Hdef Hsize.
  - exists h. simpl. split; [reflexivity|]. split; [reflexivity|].
    split; [apply same_but_ref_refl|]. split; [intros c []|].
    split; [reflexivity | intros t anc c []].
  - simpl flat_map in *. inversion Hst as [|? ? Hst_t Hst_f]; subst.
    destruct (Htree t h pref Hst_t) as [h1 [Ha [Hl1 [Hsb1 [Hd1 [Hf1 Hr1]]]]]].
    + eapply NoDup_app_l, Hnd.
    + intros c Hc. apply Hdef, in_or_app. now left.
    + apply Hsize. now left.
    + assert (Hdisj : forall i, In i (flat_map cids_of f) -> ~ In i (cids_of t)).
      { intros i Hi Hi'. eapply (NoDup_app_disj _ _ _ i Hnd); eauto. }
      destruct (IH h1 pref) as [h' [Hb [Hl' [Hsb' [Hd' [Hf' Hr']]]]]].
      * apply (stored_frame_forest h); [|assumption].
        intros i _. now apply same_but_ref_kids.
      * eapply NoDup_app_r, Hnd.
      * apply (refs_defined_frame h).
        -- intros c Hc. apply Hf1. now apply Hdisj.
        -- intros c Hc. apply Hdef, in_or_app. now right.
      * intros t' Ht'. apply Hsize. now right.
      * exists h'. simpl map. simpl for_each. rewrite Ha.
        split; [exact Hb|]. split; [lia|].
        split; [eapply same_but_ref_trans; eauto|]. split; [|split].
        -- intros c Hc. apply in_app_or in Hc as [Hc|Hc]; [|now apply Hd'].
           rewrite Hf'; [now apply Hd1|]. intros Hc'. now apply (Hdisj c).
        -- intros i Hi. rewrite Hf'; [apply Hf1|]; intros Hi'; apply Hi, in_or_app; auto.
        -- intros t' anc c [<-|Ht'] Hin.
           ++ destruct (chains_members _ _ _ Hin) as [Hc _].
              rewrite <- (Hr1 anc c Hin). apply ref_of_frame, Hf'.
              intros Hc'. now apply (Hdisj c).
           ++ rewrite (Hr' t' anc c Ht' Hin).
              destruct (chains_members _ _ _ Hin) as [Hc Hrel].
              assert (Hin_f : forall a, In a (cids_of t') -> In a (flat_map cids_of f)).
              { intros a Ha'. apply in_flat_map. eauto. }
              rewrite (chain_prefix_frame h h1 anc).
              ** rewrite (ref_of_frame h h1 c); [reflexivity|].
                 apply Hf1, Hdisj, Hin_f, Hc.
              ** intros a Ha'. apply Hf1, Hdisj, Hin_f, Hrel, Ha'.
Qed.

Lemma length_flat_map_le (f : list CTree) k :
  In k f -> List.length (cids_of k) <= List.length (flat_map cids_of f).
Proof.
  induction f as [|t f IH]; [intros []|]. simpl. rewrite length_app.
  intros [->|H]; [lia|]. specialize (IH H). lia.
Qed.

(** [adjustNestedBomRefs] returns on a stored tree with pairwise different
    components when the fuel exceeds their number, and gives every
    component of the tree its own token after the tokens of its
    ancestors. *)
Lemma adjust_tree fuel : adjust_ok fuel.
Proof.
  induction fuel as [|fuel IH]; intros t h pref Hst Hnd Hdef Hsize; [lia|].
  destruct t as [c kids]. simpl root_of. simpl cids_of in *.
  inversion Hst as [c' kids' Hk Hkids]; subst.
  destruct (Hdef c (or_introl eq_refl)) as [comp [v [Hc Hv]]].
  unfold kids_of in Hk. rewrite Hc in Hk. injection Hk as Hk.
  simpl adjustNestedBomRefs. rewrite Hc, Hv, Hk.
  set (h1 := update_nth c (set_bomRef (Some (pref ++ v))) h).
  inversion Hnd as [|? ? Hc_kids Hnd_kids]; subst.
  assert (Hframe1 : forall i, i <> c -> nth_error h1 i = nth_error h i).
  { intros i Hi. unfold h1. now rewrite nth_error_update_nth_other by auto. }
  destruct (adjust_forest fuel IH kids h1 ((pref ++ v) ++ s "|"))
    as [h' [Hb [Hl' [Hsb' [Hd' [Hf' Hr']]]]]].
  - apply (stored_frame_forest h); [|assumption].
    intros i _. apply same_but_ref_kids, same_but_ref_update.
  - assumption.
  - apply (refs_defined_frame h).
    + intros x Hx. apply Hframe1. intros ->. contradiction.
    + intros x Hx. apply Hdef. now right.
  - intros k Hk'. assert (H := length_flat_map_le kids k Hk'). simpl in Hsize. lia.
  - exists h'. split; [exact Hb|].
    split; [unfold h1 in Hl'; rewrite update_nth_length in Hl'; lia|].
    split; [eapply same_but_ref_trans; [apply same_but_ref_update | exact Hsb']|].
    split; [|split].
    + intros x [<-|Hx]; [|now apply Hd'].
      rewrite Hf' by assumption. unfold h1.
      rewrite nth_error_update_nth_same, Hc. simpl.
      exists (set_bomRef (Some (pref ++ v)) comp), (pref ++ v). split; reflexivity.
    + intros i Hi. rewrite Hf'; [apply Hframe1|]; intros Hi'; apply Hi;
        [now left | now right].
    + intros anc x. simpl chains. intros [E|Hin].
      * injection E as <- <-. rewrite (ref_of_frame h1 h' c) by (apply Hf'; assumption).
        unfold ref_of at 1. unfold h1. rewrite nth_error_update_nth_same, Hc. simpl.
        unfold ref_of. rewrite Hc, Hv. reflexivity.
      * apply in_flat_map in Hin as [k [Hk' Hin]].
        apply chains_In in Hin as [rel [-> Hin0]].
        destruct (chains_members _ _ _ Hin0) as [Hx Hrel].
        rewrite (Hr' k rel x Hk' Hin0).
        assert (Hin_k : forall a, In a (cids_of k) -> a <> c).
        { intros a Ha ->. apply Hc_kids, in_flat_map. eauto. }
        rewrite (chain_prefix_frame h h1 rel) by (intros a Ha; apply Hframe1, Hin_k, Hrel, Ha).
        rewrite (ref_of_frame h h1 x) by (apply Hframe1, Hin_k, Hx).
        assert (Hrc : ref_of h c = v) by (unfold ref_of; now rewrite Hc, Hv).
        unfold chain_prefix. cbn [app flat_map]. rewrite Hrc.
        rewrite <- !app_assoc. reflexivity.
Qed.

(** *** The forest of a trie *)

Lemma nestF_cids all : forall tree,
  flat_map cids_of (nestF all tree) = cids_of_keys all (allkeys tree).
Proof.
  intros tree. induction tree as [m IH] using PTree_ind'.
  rewrite nestF_unfold. unfold allkeys. fold allkeys.
  induction m as [|[k sub] m IHm]; [reflexivity|].
  cbn [flat_map]. unfold cids_of_keys in *. rewrite !flat_map_app.
  rewrite IHm by (intros k' c' H; apply (IH k' c'); now right).
  f_equal. cbn [flat_map fst snd].
  rewrite <- (IH k sub (or_introl eq_refl)).
  unfold entryF. cbn [fst snd]. destruct (get k all); simpl.
  - now rewrite app_nil_r.
  - reflexivity.
Qed.

Lemma get_injective {V : Type} (m : JsMap.t V) k1 k2 v :
  NoDup (values m) -> get k1 m = Some v -> get k2 m = Some v -> k1 = k2.
Proof.
  induction m as [|[k v'] m IH]; simpl; [discriminate|].
  intros Hnd H1 H2. inversion Hnd as [|? ? Hn Hd]; subst.
  destruct (str_eqb k k1) eqn:E1, (str_eqb k k2) eqn:E2.
  - apply str_eqb_eq in E1, E2. congruence.
  - injection H1 as ->. apply get_In in H2. exfalso. apply Hn.
    change v with (snd (k2, v)). now apply in_map.
  - injection H2 as ->. apply get_In in H1. exfalso. apply Hn.
    change v with (snd (k1, v)). now apply in_map.
  - eauto.
Qed.

Lemma cids_of_keys_NoDup all ks :
  NoDup ks -> NoDup (values all) -> NoDup (cids_of_keys all ks).
Proof.
  intros Hks Hv. unfold cids_of_keys. apply NoDup_flat_map_disj; [assumption| |].
  - intros k _. destruct (get k all); repeat constructor. simpl. tauto.
  - intros k1 k2 c _ _ H1 H2.
    destruct (get k1 all) eqn:E1; [|destruct H1].
    destruct (get k2 all) eqn:E2; [|destruct H2].
    destruct H1 as [->|[]], H2 as [->|[]]. eapply get_injective; eauto.
Qed.

Lemma cids_of_keys_In all ks c :
  In c (cids_of_keys all ks) -> exists k, In k ks /\ get k all = Some c.
Proof.
  unfold cids_of_keys. rewrite in_flat_map. intros [k [Hk H]].
  exists k. split; [assumption|]. destruct (get k all); [|destruct H].
  destruct H as [->|[]]. reflexivity.
Qed.

Lemma cids_of_keys_length all ks :
  List.length (cids_of_keys all ks) <= List.length ks.
Proof.
  unfold cids_of_keys. induction ks as [|k ks IH]; simpl; [lia|].
  rewrite length_app. destruct (get k all); simpl; lia.
Qed.

Lemma nodes_allkeys : forall t, TreeBuilder.nodes t = List.length (allkeys t).
Proof.
  intros t. induction t as [m IH] using PTree_ind'.
  unfold allkeys. fold allkeys.
  induction m as [|[k c] m IHm]; [reflexivity|].
  simpl flat_map. simpl List.length. rewrite length_app.
  simpl TreeBuilder.nodes in *. rewrite IHm.
  - now rewrite (IH k c) by now left.
  - intros k' c' H. apply (IH k' c'). now right.
Qed.

Lemma nonRoot_get all k c : get k (nonRoot all) = Some c -> In c (values all) /\ c <> 0.
Proof.
  intros H. apply get_In in H. unfold nonRoot in H. apply filter_In in H as [H1 H2].
  simpl in H2. apply negb_true_iff, Nat.eqb_neq in H2. split; [|assumption].
  change c with (snd (k, c)). now apply in_map.
Qed.

Lemma NoDup_map_filter {A B : Type} (f : A -> B) (p : A -> bool) l :
  NoDup (map f l) -> NoDup (map f (filter p l)).
Proof.
  induction l as [|x l IH]; simpl; [auto|]. intros H.
  inversion H as [|? ? Hn Hd]; subst. destruct (p x); simpl; [|auto].
  constructor; [|auto]. intros Hx. apply Hn.
  apply in_map_iff in Hx as [y [E Hy]]. apply filter_In in Hy as [Hy _].
  rewrite <- E. now apply in_map.
Qed.

(** *** The other steps of the assembly *)

Section WithCollaborators.
Variable E : Collaborators.

Lemma finalize_length rootPath l h :
  List.length (finalizePathProperties E rootPath l h) = List.length h.
Proof.
  unfold finalizePathProperties. destruct rootPath as [|a r]; [reflexivity|].
  revert h. induction l as [|c l IH]; intros h; simpl; [reflexivity|].
  now rewrite IH, update_nth_length.
Qed.

Lemma finalize_same rootPath l h :
  same_but_properties h (finalizePathProperties E rootPath l h).
Proof.
  unfold finalizePathProperties. destruct rootPath as [|a r]; [intros i; reflexivity|].
  revert h. induction l as [|c l IH]; intros h; simpl; [intros i; reflexivity|].
  intros i. rewrite IH. destruct (Nat.eq_dec c i) as [<-|Hne].
  - rewrite nth_error_update_nth_same. now destruct (nth_error h c).
  - now rewrite nth_error_update_nth_other.
Qed.
End WithCollaborators.

Lemma same_but_properties_ref h h' i :
  same_but_properties h h' ->
  option_map c_bomRef (nth_error h' i) = option_map c_bomRef (nth_error h i).
Proof.
  intros H. specialize (H i).
  destruct (nth_error h' i), (nth_error h i); simpl in *; try discriminate; auto.
  apply (f_equal (option_map c_bomRef)) in H. exact H.
Qed.

Lemma same_but_nesting_ref h h' i :
  same_but_nesting h h' ->
  option_map c_bomRef (nth_error h' i) = option_map c_bomRef (nth_error h i).
Proof.
  intros H. specialize (H i).
  destruct (nth_error h' i), (nth_error h i); simpl in *; try discriminate; auto.
  apply (f_equal (option_map c_bomRef)) in H. exact H.
Qed.

Lemma ref_of_same h h' c :
  option_map c_bomRef (nth_error h' c) = option_map c_bomRef (nth_error h c) ->
  ref_of h' c = ref_of h c.
Proof.
  unfold ref_of. destruct (nth_error h' c), (nth_error h c); simpl;
    intros H; try discriminate; auto. injection H as ->. reflexivity.
Qed.

Lemma chain_prefix_same h h' anc :
  (forall c, option_map c_bomRef (nth_error h' c) =
             option_map c_bomRef (nth_error h c)) ->
  chain_prefix h' anc = chain_prefix h anc.
Proof.
  intros H. unfold chain_prefix. induction anc as [|a anc IH]; [reflexivity|].
  cbn [flat_map]. now rewrite (ref_of_same h h' a), IH by apply H.
Qed.
End ForestFacts.

Module BuildFacts.
Import JsMap JsMapFacts BomBuilder ForestFacts.

Lemma same_but_nesting_proj {A : Type} (f : Component -> A) h h' i :
  (forall v c, f (set_components v c) = f c) ->
  same_but_nesting h h' ->
  option_map f (nth_error h' i) = option_map f (nth_error h i).
Proof.
  intros Hf H. specialize (H i).
  destruct (nth_error h' i) as [c|], (nth_error h i) as [c0|];
    cbn [option_map] in *; try discriminate; auto.
  apply (f_equal (option_map f)) in H. cbn [option_map] in H.
  now rewrite !Hf in H.
Qed.

Lemma same_but_ref_proj {A : Type} (f : Component -> A) h h' i :
  (forall v c, f (set_bomRef v c) = f c) ->
  same_but_ref h h' ->
  option_map f (nth_error h' i) = option_map f (nth_error h i).
Proof.
  intros Hf H. specialize (H i).
  destruct (nth_error h' i) as [c|], (nth_error h i) as [c0|];
    cbn [option_map] in *; try discriminate; auto.
  apply (f_equal (option_map f)) in H. cbn [option_map] in H.
  now rewrite !Hf in H.
Qed.

Lemma same_but_properties_proj {A : Type} (f : Component -> A) h h' i :
  (forall v c, f (set_properties v c) = f c) ->
  same_but_properties h h' ->
  option_map f (nth_error h' i) = option_map f (nth_error h i).
Proof.
  intros Hf H. specialize (H i).
  destruct (nth_error h' i) as [c|], (nth_error h i) as [c0|];
    cbn [option_map] in *; try discriminate; auto.
  apply (f_equal (option_map f)) in H. cbn [option_map] in H.
  now rewrite !Hf in H.
Qed.

Lemma update_components_proj {A : Type} (f : Component -> A) h c v i :
  (forall v c, f (set_components v c) = f c) ->
  option_map f (nth_error (update_nth c (set_components v) h) i) =
  option_map f (nth_error h i).
Proof.
  intros Hf. apply same_but_nesting_proj; [assumption|].
  apply same_but_nesting_update.
Qed.

Lemma separator_of_spec rootPath :
  match rootPath with "/"%char :: _ => s "/" | _ => s "\" end
  = [separator_of rootPath].
Proof.
  destruct rootPath as [|[[] [] [] [] [] [] [] []] r]; reflexivity.
Qed.

Section WithCollaborators.
Variable E : Collaborators.
Variable this : BomBuilderOptions.

(** The assembly of the nested forest returns, and what it returns. *)
Lemma buildNested_spec data rootPath st1 :
  walk E this data = Some (rootPath, st1) -> walk_inv st1 ->
  exists h tree,
    TreeBuilder.fromPaths (keys (allComponents st1)) [separator_of rootPath]
      = Some tree /\
    buildNested E this data =
      Some (h, allComponents st1,
            map root_of (nestF (nonRoot (allComponents st1)) tree)) /\
    List.length h = List.length (heap st1) /\
    NoDup (flat_map cids_of (nestF (nonRoot (allComponents st1)) tree)) /\
    (forall c, In c (flat_map cids_of (nestF (nonRoot (allComponents st1)) tree)) ->
               0 < c < List.length h) /\
    Forall (stored h) (nestF (nonRoot (allComponents st1)) tree) /\
    refs_defined h (flat_map cids_of (nestF (nonRoot (allComponents st1)) tree)) /\
    (forall t anc c,
       In t (nestF (nonRoot (allComponents st1)) tree) ->
       In (anc, c) (chains [] t) ->
       ref_of h c = chain_prefix (heap st1) anc ++ ref_of (heap st1) c) /\
    (forall i, ~ In i (flat_map cids_of (nestF (nonRoot (allComponents st1)) tree)) ->
       option_map c_bomRef (nth_error h i) =
       option_map c_bomRef (nth_error (heap st1) i)) /\
    (forall i, option_map core (nth_error h i) =
               option_map core (nth_error (heap st1) i)) /\
    (forall i, option_map c_properties (nth_error h i) =
               option_map c_properties
                 (nth_error (finalizePathProperties E rootPath
                               (values (allComponents st1)) (heap st1)) i)).
Proof.
  intros Hw [Hkeys [Hvals Hheap]]. unfold buildNested. rewrite Hw.
  set (all := allComponents st1) in *.
  set (h2 := finalizePathProperties E rootPath (values all) (heap st1)).
  rewrite separator_of_spec.
  destruct (TreeFacts.fromPaths_total (keys all) [separator_of rootPath])
    as [tree Htree].
  rewrite Htree.
  set (nr := nonRoot all).
  change (filter (fun e => negb (snd e =? 0)) all) with nr.
  set (forest := nestF nr tree).
  assert (Hnd_tree : NoDup (allkeys tree))
    by (eapply TrieKeys.fromPaths_NoDup, Htree).
  assert (Hv_nr : NoDup (values nr)).
  { unfold nr, nonRoot, values. apply NoDup_map_filter.
    fold (values all). rewrite Hvals. apply seq_NoDup. }
  assert (HndF : NoDup (flat_map cids_of forest)).
  { unfold forest. rewrite nestF_cids. now apply cids_of_keys_NoDup. }
  assert (Hrange : forall c, In c (flat_map cids_of forest) ->
            0 < c < List.length (heap st1)).
  { intros c Hc. unfold forest in Hc. rewrite nestF_cids in Hc.
    apply cids_of_keys_In in Hc as [k [_ Hg]].
    apply nonRoot_get in Hg as [Hin Hne]. rewrite Hvals in Hin.
    apply in_seq in Hin. lia. }
  assert (Hl2 : List.length h2 = List.length (heap st1))
    by apply finalize_length.
  destruct (nestComponents_forest nr tree h2 HndF) as [h3 [Hn3 [Hs3 [Hl3 [Hsb3 Hf3]]]]].
  { intros c Hc. rewrite Hl2. now apply Hrange. }
  fold forest in Hn3, Hs3, Hf3. rewrite Hn3.
  assert (Href3 : forall c, option_map c_bomRef (nth_error h3 c) =
                            option_map c_bomRef (nth_error (heap st1) c)).
  { intros c. rewrite (same_but_nesting_proj c_bomRef h2 h3 c) by auto.
    apply same_but_properties_proj; [reflexivity | apply finalize_same]. }
  assert (Hdef3 : refs_defined h3 (flat_map cids_of forest)).
  { intros c Hc. specialize (Href3 c). apply Hrange in Hc.
    destruct (nth_error (heap st1) c) as [comp0|] eqn:E0.
    2:{ apply nth_error_None in E0. lia. }
    rewrite Forall_forall in Hheap. apply nth_error_In in E0.
    destruct (Hheap comp0 E0) as [_ Hb].
    destruct (nth_error h3 c) as [comp|]; [|discriminate].
    simpl in Href3. injection Href3 as Href3. exists comp.
    destruct (c_bomRef comp0) as [v|]; [|congruence]. now exists v. }
  destruct (adjust_forest (S (TreeBuilder.nodes tree)) (adjust_tree _) forest h3 []
              Hs3 HndF Hdef3) as [h4 [Ha4 [Hl4 [Hsb4 [Hd4 [Hf4 Hr4]]]]]].
  { intros t Ht. assert (H := length_flat_map_le forest t Ht).
    unfold forest in H. rewrite nestF_cids in H.
    assert (H' := cids_of_keys_length nr (allkeys tree)).
    rewrite nodes_allkeys. lia. }
  unfold adjustAll. rewrite Ha4.
  assert (Hnot0 : forall c, In c (flat_map cids_of forest) -> 0 <> c).
  { intros c Hc. apply Hrange in Hc. lia. }
  exists (update_nth 0 (set_components []) h4), tree.
  split; [reflexivity|]. split; [reflexivity|].
  split; [rewrite update_nth_length; lia|].
  split; [exact HndF|].
  split; [intros c Hc; rewrite update_nth_length, Hl4, Hl3, Hl2; now apply Hrange|].
  split.
  { apply (stored_frame_forest h4).
    - intros i Hi. apply kids_of_update_other. now apply Hnot0.
    - apply (stored_frame_forest h3); [|assumption].
      intros i _. now apply same_but_ref_kids. }
  split.
  { intros c Hc. rewrite nth_error_update_nth_other by now apply Hnot0.
    now apply Hd4. }
  split.
  { intros t anc c Ht Hin.
    destruct (chains_members _ _ _ Hin) as [Hc _].
    assert (Hc' : In c (flat_map cids_of forest)) by (apply in_flat_map; eauto).
    rewrite (ref_of_frame h4) by (apply nth_error_update_nth_other; now apply Hnot0).
    rewrite (Hr4 t anc c Ht Hin). simpl app.
    now rewrite (chain_prefix_same (heap st1) h3), (ref_of_same (heap st1) h3). }
  split.
  { intros i Hi. rewrite update_components_proj by reflexivity.
    rewrite (Hf4 i Hi). apply Href3. }
  split.
  { intros i. rewrite update_components_proj by reflexivity.
    rewrite (same_but_ref_proj core h3 h4 i) by auto.
    rewrite (same_but_nesting_proj core h2 h3 i) by auto.
    apply same_but_properties_proj; [reflexivity | apply finalize_same]. }
  intros i. rewrite update_components_proj by reflexivity.
  rewrite (same_but_ref_proj c_properties h3 h4 i) by auto.
  now rewrite (same_but_nesting_proj c_properties h2 h3 i) by auto.
Qed.

(** The root component after the walk is the one the walk started
    with. *)
Lemma walk_spec data rootPath st1 :
  walk E this data = Some (rootPath, st1) ->
  exists made root1,
    as_string (get_prop data "path") = Some rootPath /\
    makeComponent E this data (Some (metaComponentType this)) = Some made /\
    walk_inv st1 /\
    nth_error (heap st1) 0 = Some root1 /\
    core root1 =
      core match made with
           | MadeComponent c => c
           | _ => DummyComponent (metaComponentType this) (s "RootComponent")
           end.
Proof.
  unfold walk.
  destruct (as_string (get_prop data "path")) as [p|] eqn:Hp; [|discriminate].
  destruct (makeComponent E this data (Some (metaComponentType this)))
    as [made|] eqn:Hm; [|discriminate].
  set (root := match made with
               | MadeComponent c => c
               | _ => DummyComponent (metaComponentType this) (s "RootComponent")
               end).
  set (st0 := mkState [root] [(p, 0)]).
  destruct (gatherDependencies E this (S (json_depth data)) st0 data 0)
    as [st|] eqn:Hst; [|discriminate].
  intros [= <- <-]. exists made.
  assert (Hi0 : walk_inv st0).
  { unfold walk_inv, st0. simpl. repeat split.
    - repeat constructor. simpl. tauto.
    - repeat constructor.
      + unfold root. destruct made; try reflexivity.
        apply (WalkFacts.makeComponent_fresh E this _ _ _ Hm).
      + unfold root. destruct made; try discriminate.
        apply (WalkFacts.makeComponent_fresh E this _ _ _ Hm). }
  destruct (WalkFacts.gatherDependencies_inv E this _ _ _ _ _ Hi0 Hst)
    as [Hi1 [_ Hx]].
  destruct (Hx 0 root eq_refl) as [root1 [H1 H2]].
  exists root1. split; [reflexivity|]. split; [reflexivity|].
  split; [exact Hi1|]. split; [exact H1|].
  apply (f_equal core) in H2. exact H2.
Qed.

(** The walk of [buildFromNpmLs] returns for a root with a string path
    when [normalizePackageData] does not throw. *)
Lemma walk_total data rootPath :
  (forall d, normalizePackageData E d <> None) ->
  as_string (get_prop data "path") = Some rootPath ->
  exists st1, walk E this data = Some (rootPath, st1).
Proof.
  intros Hnorm Hp. unfold walk. rewrite Hp.
  destruct (WalkFacts.makeComponent_returns E this data
              (Some (metaComponentType this)) rootPath Hnorm Hp) as [made ->].
  match goal with
  | |- context [gatherDependencies E this ?f ?st0 data 0] =>
      destruct (WalkFacts.gatherDependencies_total E this f Hnorm st0 data 0
                  (Nat.lt_succ_diag_r _)) as [st1 ->]
  end.
  eauto.
Qed.

Lemma set_add_In c l i : In i (set_add c l) <-> i = c \/ In i l.
Proof.
  unfold set_add. destruct (existsb (Nat.eqb c) l) eqn:Ex.
  - apply existsb_exists in Ex as [x [Hx Ex]]. apply Nat.eqb_eq in Ex. subst x.
    split; [now right | intros [->|H]; assumption].
  - rewrite in_app_iff. simpl. split; [intros [H|[H|[]]]; auto | intros [H|H]; auto].
Qed.

(** The loop of the flatten mode. *)
Lemma flatten_spec l : forall h comps,
  exists h' comps',
    fold_left
      (fun (acc : Heap * list cid) component =>
         let '(h, components) := acc in
         let h' := update_nth component (set_components []) h in
         if negb (component =? 0) then (h', set_add component components)
         else (h', components))
      l (h, comps) = (h', comps') /\
    List.length h' = List.length h /\
    same_but_nesting h h' /\
    (forall i, In i l -> i < List.length h -> kids_of h' i = Some []) /\
    (forall i, kids_of h i = Some [] -> kids_of h' i = Some []) /\
    (forall i, In i comps' <-> In i comps \/ (In i l /\ i <> 0)).
Proof.
  induction l as [|c l IH]; intros h comps.
  - exists h, comps. simpl. split; [reflexivity|]. split; [reflexivity|].
    split; [intros i; reflexivity|]. split; [intros i []|].
    split; [auto|]. intros i. tauto.
  - simpl fold_left.
    set (h1 := update_nth c (set_components []) h).
    set (comps1 := if negb (c =? 0) then set_add c comps else comps).
    destruct (IH h1 comps1) as [h' [comps' [Hf [Hl [Hsb [Hk [Hkeep Hin]]]]]]].
    exists h', comps'.
    assert (Hkeep1 : forall i, kids_of h i = Some [] -> kids_of h1 i = Some []).
    { intros i Hi. unfold h1. destruct (Nat.eq_dec c i) as [<-|Hne].
      - apply kids_of_update_same. unfold kids_of in Hi.
        destruct (nth_error h c) eqn:Ec; [|discriminate].
        apply nth_error_Some. congruence.
      - now rewrite kids_of_update_other. }
    split.
    { rewrite <- Hf. unfold comps1. destruct (negb (c =? 0)); reflexivity. }
    split; [unfold h1 in Hl; now rewrite update_nth_length in Hl|].
    split; [eapply same_but_nesting_trans; [apply same_but_nesting_update | exact Hsb]|].
    split.
    { intros i [<-|Hi] Hlt.
      - apply Hkeep. unfold h1. now apply kids_of_update_same.
      - apply Hk; [assumption|]. unfold h1. now rewrite update_nth_length. }
    split; [intros i Hi; apply Hkeep, Hkeep1, Hi|].
    intros i. rewrite Hin. unfold comps1. simpl In.
    destruct (c =? 0) eqn:Ec; simpl negb; cbv iota.
    + apply Nat.eqb_eq in Ec. subst c. split; [tauto|].
      intros [H|[[<-|H] Hne]]; [tauto | congruence | tauto].
    + apply Nat.eqb_neq in Ec. rewrite set_add_In. split.
      * intros [[->|H]|[H Hne]]; auto.
      * intros [H|[[<-|H] Hne]]; auto.
Qed.

Lemma flatten_all all h comps :
  exists h' comps',
    flatten all (h, comps) = (h', comps') /\
    List.length h' = List.length h /\
    same_but_nesting h h' /\
    (forall i, In i (values all) -> i < List.length h -> kids_of h' i = Some []) /\
    (forall i, kids_of h i = Some [] -> kids_of h' i = Some []) /\
    (forall i, In i comps' <-> In i comps \/ (In i (values all) /\ i <> 0)).
Proof. unfold flatten. apply flatten_spec. Qed.


(** [buildFromNpmLs] returns when its walk does; the flatten mode starts
    from the nested assembly. *)
Lemma buildFromNpmLs_spec data rootPath st1 :
  walk E this data = Some (rootPath, st1) ->
  exists h0 all components0 h bom,
    buildNested E this data = Some (h0, all, components0) /\
    buildFromNpmLs E this data = Some (h, bom) /\
    bom_metadata_component bom = 0 /\
    List.length h = List.length h0 /\
    same_but_nesting h0 h /\
    (flattenComponents this = false -> h = h0 /\ bom_components bom = components0) /\
    (flattenComponents this = true ->
       (forall i c, nth_error h i = Some c -> c_components c = []) /\
       (forall i, In i (bom_components bom) <-> 0 < i < List.length h)).
Proof.
  intros Hw.
  destruct (walk_spec data rootPath st1 Hw) as [made [root1 [_ [_ [Hi _]]]]].
  destruct (buildNested_spec data rootPath st1 Hw Hi)
    as [h0 [tree [_ [Hb [Hl0 [_ [Hrange [_ _]]]]]]]].
  unfold buildFromNpmLs. rewrite Hb.
  set (components0 := map root_of (nestF (nonRoot (allComponents st1)) tree)) in *.
  destruct (flattenComponents this) eqn:Hflat.
  - destruct (flatten_all (allComponents st1) h0 components0)
      as [h [comps [Hf [Hl [Hsb [Hk [_ Hin]]]]]]].
    rewrite Hf. exists h0, (allComponents st1), components0, h, (mkBom 0 comps).
    split; [reflexivity|]. split; [reflexivity|]. split; [reflexivity|].
    split; [assumption|]. split; [assumption|]. split; [discriminate|].
    intros _. destruct Hi as [_ [Hvals _]]. split.
    + intros i c Hc. assert (Hlt : i < List.length h0).
      { rewrite <- Hl. apply nth_error_Some. congruence. }
      specialize (Hk i). unfold kids_of in Hk. rewrite Hc in Hk. simpl in Hk.
      assert (H : Some (c_components c) = Some []).
      { apply Hk; [|assumption]. rewrite Hvals. apply in_seq. lia. }
      now injection H.
    + intros i. simpl bom_components. rewrite Hin, Hvals, in_seq, Hl, Hl0. split.
      * intros [H|[H Hne]]; [|lia].
        rewrite <- Hl0. apply Hrange. now apply roots_incl.
      * intros H. right. lia.
  - exists h0, (allComponents st1), components0, h0, (mkBom 0 components0).
    repeat split; auto; try discriminate.
Qed.
End WithCollaborators.
End BuildFacts.


(** * The claims about the assembly *)




(** C5, as stated, fails: two components with the same name and version
    that are installed side by side have the same chain of ancestors, and
    keep the same reference token. *)
Lemma C5_counterexample :
  summary (BomBuilder.buildFromNpmLs demo (options [] false) ex_alias) =
  Some
    ([(Some (s "proj@1.0.0"), [mkProperty PackageInstallPath []], []);
      (Some (s "x@1.0.0"),
       [mkProperty PackageInstallPath (s "node_modules/x")], []);
      (Some (s "x@1.0.0"),
       [mkProperty PackageInstallPath (s "node_modules/y")], [])],
     [1; 2]).
Proof. vm_compute. reflexivity. Qed.

(** C5, amended.  Whenever the walk of the build returns, the nested
    assembly returns too, and after it and the adjustment of the reference
    tokens the forest is stored in the components, no component occurs
    twice in it, and the token of every component of the forest is the
    token the walk gave it, after the tokens the walk gave its ancestors,
    outermost first and each followed by [|].  So two components to which
    the walk gave the same token (same name and version) have different
    tokens exactly when the tokens of their chains of ancestors differ. *)
Theorem C5_tokens_after_nesting (E : Collaborators) (this : BomBuilderOptions)
    (data : json) (rootPath : jsstring) (st1 : State) :
  BomBuilder.walk E this data = Some (rootPath, st1) ->
  exists h forest,
    BomBuilder.buildNested E this data
      = Some (h, allComponents st1, map root_of forest) /\
    Forall (stored h) forest /\
    NoDup (flat_map cids_of forest) /\
    (forall t anc c,
       In t forest -> In (anc, c) (chains [] t) ->
       option_map c_bomRef (nth_error h c) =
       Some (Some (chain_prefix (heap st1) anc ++ ref_of (heap st1) c))) /\
    (forall t1 anc1 c1 t2 anc2 c2,
       In t1 forest -> In (anc1, c1) (chains [] t1) ->
       In t2 forest -> In (anc2, c2) (chains [] t2) ->
       ref_of (heap st1) c1 = ref_of (heap st1) c2 ->
       (ref_of h c1 <> ref_of h c2 <->
        chain_prefix (heap st1) anc1 <> chain_prefix (heap st1) anc2)).
Proof.
  intros Hw.
  destruct (BuildFacts.walk_spec E this data rootPath st1 Hw)
    as [made [root1 [_ [_ [Hi _]]]]].
  destruct (BuildFacts.buildNested_spec E this data rootPath st1 Hw Hi)
    as [h [tree [_ [Hb [_ [Hnd [_ [Hst [Hdef [Href _]]]]]]]]]].
  exists h, (nestF (nonRoot (allComponents st1)) tree).
  split; [exact Hb|]. split; [exact Hst|].
  split; [exact Hnd|]. split.
  - intros t anc c Ht Hin. specialize (Href t anc c Ht Hin).
    destruct (ForestFacts.chains_members _ _ _ Hin) as [Hc _].
    destruct (Hdef c) as [comp [v [Hn Hv]]]; [apply in_flat_map; eauto|].
    unfold ref_of at 1 in Href. rewrite Hn, Hv in Href.
    rewrite Hn. simpl. now rewrite Hv, Href.
  - intros t1 anc1 c1 t2 anc2 c2 Ht1 Hin1 Ht2 Hin2 Hown.
    rewrite (Href t1 anc1 c1 Ht1 Hin1), (Href t2 anc2 c2 Ht2 Hin2), Hown.
    split; intros H E'; apply H.
    + now rewrite E'.
    + now apply app_inv_tail in E'.
Qed.

Lemma C5_witness :
  exists st1 h forest,
    BomBuilder.walk demo (options [] false) ex_nested = Some (s "/proj", st1) /\
    BomBuilder.buildNested demo (options [] false) ex_nested
      = Some (h, allComponents st1, map root_of forest) /\
    Forall (stored h) forest /\
    NoDup (flat_map cids_of forest) /\
    map c_bomRef h =
      [Some (s "proj@1.0.0"); Some (s "a@1.0.0"); Some (s "a@1.0.0|b@2.0.0")].
Proof.
  destruct (BomBuilder.walk demo (options [] false) ex_nested)
    as [[r st1]|] eqn:Hw; [|vm_compute in Hw; discriminate].
  assert (Hr : r = s "/proj")
    by (vm_compute in Hw; injection Hw as Hr _; symmetry; exact Hr).
  subst r.
  destruct (C5_tokens_after_nesting demo (options [] false) ex_nested (s "/proj")
              st1 Hw) as [h [forest [H2 [H3 [H4 _]]]]].
  exists st1, h, forest. split; [reflexivity|]. split; [exact H2|].
  split; [exact H3|]. split; [exact H4|].
  vm_compute in H2. injection H2 as <- _ _. reflexivity.
Defined.

(** C4, as stated, fails: in the flatten mode the package [b], installed
    below [a], keeps the token [a@1.0.0|b@2.0.0] that the nested assembly
    has given it (the walk gave it [b@2.0.0]), and its only property is
    its install path. *)
Lemma C4_counterexample :
  option_map (fun st => map c_bomRef (heap (snd st)))
    (BomBuilder.walk demo (options [] true) ex_nested) =
  Some [Some (s "proj@1.0.0"); Some (s "a@1.0.0"); Some (s "b@2.0.0")] /\
  summary (BomBuilder.buildFromNpmLs demo (options [] true) ex_nested) =
  Some
    ([(Some (s "proj@1.0.0"), [mkProperty PackageInstallPath []], []);
      (Some (s "a@1.0.0"),
       [mkProperty PackageInstallPath (s "node_modules/a")], []);
      (Some (s "a@1.0.0|b@2.0.0"),
       [mkProperty PackageInstallPath (s "node_modules/a/node_modules/b")], [])],
     [1; 2]).
Proof. split; vm_compute; reflexivity. Qed.

(** C4, amended.  When the flatten mode is active and the walk of the
    build returns, the build returns a document in which the child list of
    every component is empty and every component but the root component is
    a member of the top-level forest.  The components are otherwise as the
    nested assembly leaves them: their reference tokens carry the prefix
    of the chain of ancestors, and their properties are unchanged, no
    property is added. *)
Theorem C4_flatten_mode (E : Collaborators) (this : BomBuilderOptions)
    (data : json) (rootPath : jsstring) (st1 : State) :
  BomBuilder.walk E this data = Some (rootPath, st1) ->
  flattenComponents this = true ->
  exists h0 all components0 h bom,
    BomBuilder.buildNested E this data = Some (h0, all, components0) /\
    BomBuilder.buildFromNpmLs E this data = Some (h, bom) /\
    (forall i c, nth_error h i = Some c -> c_components c = []) /\
    (forall i, In i (bom_components bom) <->
               i <> bom_metadata_component bom /\ i < List.length h) /\
    (forall i, option_map c_bomRef (nth_error h i) =
               option_map c_bomRef (nth_error h0 i)) /\
    (forall i, option_map c_properties (nth_error h i) =
               option_map c_properties (nth_error h0 i)).
Proof.
  intros Hw Hflat.
  destruct (BuildFacts.buildFromNpmLs_spec E this data rootPath st1 Hw)
    as [h0 [all [comps0 [h [bom [Hb [Hbuild [Hroot [Hl [Hsb [_ Hf]]]]]]]]]]].
  destruct (Hf Hflat) as [Hkids Hin].
  exists h0, all, comps0, h, bom.
  split; [exact Hb|]. split; [exact Hbuild|]. split; [exact Hkids|]. split.
  - intros i. rewrite Hin, Hroot. lia.
  - split; intros i; now apply BuildFacts.same_but_nesting_proj.
Qed.

Lemma C4_witness :
  exists h bom,
    BomBuilder.buildFromNpmLs demo (options [] true) ex_nested = Some (h, bom) /\
    (forall i c, nth_error h i = Some c -> c_components c = []) /\
    (forall i, In i (bom_components bom) <->
               i <> bom_metadata_component bom /\ i < List.length h).
Proof.
  destruct (BomBuilder.walk demo (options [] true) ex_nested)
    as [[r st1]|] eqn:Hw; [|vm_compute in Hw; discriminate].
  destruct (C4_flatten_mode demo (options [] true) ex_nested r st1 Hw eq_refl)
    as [h0 [all [c0 [h [bom [_ [H2 [H3 [H4 _]]]]]]]]].
  exists h, bom. auto.
Defined.

(** * More about the hash extractor *)

Module IntegrityFacts.
Import HashExtractor.

Lemma integrityRE_rows :
  integrityRE =
  map (fun r => match r with (a, prefix, count, padding) =>
                  (a, exec prefix count padding) end) integrity_rows.
Proof. reflexivity. Qed.

(** A string of the form of a pattern is matched, and the capture is the
    payload with its padding. *)
Lemma exec_matches prefix count padding pre payload :
  map lower pre = map lower prefix ->
  List.length payload = count ->
  forallb isBase64Char payload = true ->
  exec prefix count padding (pre ++ payload ++ padding) = Some (payload ++ padding).
Proof.
  intros Hpre Hlen Hall.
  assert (Hl : List.length pre = List.length prefix).
  { apply (f_equal (@List.length ascii)) in Hpre. now rewrite !length_map in Hpre. }
  unfold exec, startsWith_ci.
  assert (Hs : startsWith (map lower (pre ++ payload ++ padding)) (map lower prefix)
               = true).
  { apply startsWith_iff. exists (map lower (payload ++ padding)).
    now rewrite map_app, Hpre. }
  rewrite Hs, <- Hl, skipn_length_app.
  rewrite length_app, Hlen, Nat.eqb_refl.
  rewrite <- Hlen, firstn_app, Nat.sub_diag, firstn_all. simpl (firstn 0 _).
  rewrite app_nil_r, Hall, skipn_length_app, str_eqb_refl. reflexivity.
Qed.

(** What a match captures. *)
Lemma exec_capture prefix count padding x capture :
  exec prefix count padding x = Some capture ->
  startsWith_ci x prefix = true /\
  exists payload,
    capture = payload ++ padding /\
    List.length payload = count /\
    forallb isBase64Char payload = true.
Proof.
  unfold exec. destruct (startsWith_ci x prefix) eqn:Hs; [|discriminate].
  destruct (_ && _) eqn:Hc; [|discriminate]. intros [= <-].
  apply andb_true_iff in Hc as [Hc Hpad]. apply andb_true_iff in Hc as [Hlen Hall].
  apply Nat.eqb_eq in Hlen. apply str_eqb_eq in Hpad.
  set (rest := skipn (List.length prefix) x) in *.
  split; [reflexivity|]. exists (firstn count rest).
  split; [|split].
  - now rewrite <- Hpad, firstn_skipn.
  - rewrite length_firstn. lia.
  - exact Hall.
Qed.

(** The digest a capture decodes to. *)
Lemma capture_digest count padding payload :
  sextets padding = [] ->
  List.length payload = count ->
  forallb isBase64Char payload = true ->
  List.length (to_hex (base64_decode (payload ++ padding)))
  = 2 * decoded_length count.
Proof.
  intros Hpad Hlen Hall. unfold base64_decode.
  rewrite HashFacts.to_hex_length, HashFacts.bytes_of_sextets_length,
    HashFacts.sextets_payload, Hlen; auto.
Qed.

(** The prefixes of two rows never start the same string. *)
Lemma prefixes_exclusive x r1 r2 :
  In r1 integrity_rows -> In r2 integrity_rows ->
  startsWith_ci x (snd (fst (fst r1))) = true ->
  startsWith_ci x (snd (fst (fst r2))) = true ->
  r1 = r2.
Proof.
  unfold startsWith_ci. intros H1 H2 S1 S2.
  apply startsWith_iff in S1 as [rest E]. rewrite E in S2. clear E.
  simpl in H1, H2.
  destruct H1 as [<-|[<-|[<-|[<-|[]]]]]; destruct H2 as [<-|[<-|[<-|[<-|[]]]]];
    try reflexivity; discriminate S2.
Qed.

Lemma exec_none_of_prefix prefix count padding x :
  startsWith_ci x prefix = false -> exec prefix count padding x = None.
Proof. unfold exec. now intros ->. Qed.

(** The loop over the rows, for a string that a row matches. *)
Lemma first_match_row x a prefix count padding capture :
  In (a, prefix, count, padding) integrity_rows ->
  exec prefix count padding x = Some capture ->
  hashes_of_integrity x = [(a, to_hex (base64_decode capture))].
Proof.
  intros Hin Hx. destruct (exec_capture _ _ _ _ _ Hx) as [Hs _].
  assert (Hother : forall a' p c d, In (a', p, c, d) integrity_rows ->
            (a', p, c, d) <> (a, prefix, count, padding) ->
            exec p c d x = None).
  { intros a' p c d Hr Hne. apply exec_none_of_prefix.
    destruct (startsWith_ci x p) eqn:Hs'; [|reflexivity].
    exfalso. apply Hne. now apply (prefixes_exclusive x). }
  unfold hashes_of_integrity. rewrite integrityRE_rows.
  simpl in Hin.
  destruct Hin as [E|[E|[E|[E|[]]]]]; injection E as <- <- <- <-;
    cbn [integrity_rows map first_match]; cbv [s list_ascii_of_string];
    repeat match goal with
    | |- context [exec ?p ?c ?d x] =>
        first [ rewrite Hx
              | erewrite (Hother _ p c d);
                [| simpl;
                   first [ left; reflexivity
                         | right; left; reflexivity
                         | right; right; left; reflexivity
                         | right; right; right; left; reflexivity ]
                 | discriminate] ]
    end; reflexivity.
Qed.

(** The loop over any arrangement of the rows. *)
Lemma first_match_any x res :
  (forall e, In e res -> In e integrityRE) ->
  (forall e, In e integrityRE -> In e res) ->
  first_match res x = hashes_of_integrity x.
Proof.
  intros Hsub Hsup.
  destruct (hashes_of_integrity x) as [|h l] eqn:Hx.
  - (* no row matches *)
    assert (Hnone : forall e, In e integrityRE -> snd e x = None).
    { intros [a f] He. simpl. destruct (f x) as [capture|] eqn:Hf; [|reflexivity].
      exfalso. rewrite integrityRE_rows in He.
      apply in_map_iff in He as [[[[a' p] c] d] [E Hr]]. injection E as -> <-.
      rewrite (first_match_row x a p c d capture Hr Hf) in Hx. discriminate. }
    clear Hsup. induction res as [|[a f] res IH]; [reflexivity|].
    assert (Hf := Hnone (a, f) (Hsub _ (or_introl eq_refl))). simpl in Hf.
    simpl. rewrite Hf.
    apply IH. intros e He. apply Hsub. now right.
  - (* one row matches, the others do not *)
    assert (Hrow : exists a p c d capture,
              In (a, p, c, d) integrity_rows /\ exec p c d x = Some capture).
    { unfold hashes_of_integrity in Hx. rewrite integrityRE_rows in Hx.
      cbn [integrity_rows map first_match] in Hx.
      repeat match type of Hx with
      | context [exec ?p ?c ?d x] =>
          let E := fresh "E" in
          destruct (exec p c d x) eqn:E;
            [ do 5 eexists; split; [|exact E]; simpl; tauto |]
      end. discriminate. }
    destruct Hrow as [a [p [c [d [capture [Hr Hf]]]]]].
    rewrite (first_match_row x a p c d capture Hr Hf) in Hx.
    injection Hx as <- <-.
    destruct (exec_capture _ _ _ _ _ Hf) as [Hs _].
    assert (Hin : In (a, exec p c d) res).
    { apply Hsup. rewrite integrityRE_rows.
      apply in_map_iff. exists (a, p, c, d). auto. }
    clear Hsup. induction res as [|[a' f'] res IH]; [destruct Hin|].
    simpl. destruct (f' x) as [capture'|] eqn:Hf'.
    + assert (He : In (a', f') integrityRE) by (apply Hsub; now left).
      rewrite integrityRE_rows in He.
      apply in_map_iff in He as [[[[a2 p2] c2] d2] [E Hr2]]. injection E as -> <-.
      destruct (exec_capture _ _ _ _ _ Hf') as [Hs' _].
      assert (E := prefixes_exclusive x _ _ Hr Hr2 Hs Hs').
      injection E as <- <- <- <-. rewrite Hf in Hf'. now injection Hf' as <-.
    + apply IH.
      * intros e He. apply Hsub. now right.
      * destruct Hin as [E|Hin]; [|exact Hin].
        injection E as -> ->. congruence.
Qed.

End IntegrityFacts.

(** X1. Each of the four patterns of [integrityRE] is read like the one
    of SHA-512: for a string made of the prefix of a row, in any letter
    case, as many characters of the base64 alphabet as the row counts and
    the padding of the row, the extraction gives one hash, of the
    algorithm of the row, whose value is the decoded payload written in
    lowercase hexadecimal digits, as many as a digest of the algorithm
    has (128, 40, 64 and 96). *)
Theorem X1_integrity_of_each_algorithm (alg : HashAlgorithm)
    (prefix : jsstring) (count : nat) (padding pre payload : jsstring) :
  In (alg, prefix, count, padding) integrity_rows ->
  map lower pre = map lower prefix ->
  List.length payload = count ->
  forallb HashExtractor.isBase64Char payload = true ->
  HashExtractor.hashes_of_integrity (pre ++ payload ++ padding) =
    [(alg, HashExtractor.to_hex (HashExtractor.base64_decode (payload ++ padding)))] /\
  List.length
    (HashExtractor.to_hex (HashExtractor.base64_decode (payload ++ padding)))
    = digest_hex_length alg /\
  forallb is_lower_hex
    (HashExtractor.to_hex (HashExtractor.base64_decode (payload ++ padding)))
    = true.
Proof.
  intros Hin Hpre Hlen Hall. split; [|split].
  - apply (IntegrityFacts.first_match_row _ alg prefix count padding); [exact Hin|].
    now apply IntegrityFacts.exec_matches.
  - rewrite (IntegrityFacts.capture_digest count padding payload); auto.
    + simpl in Hin.
      destruct Hin as [E|[E|[E|[E|[]]]]]; injection E as <- <- <- <-; reflexivity.
    + simpl in Hin.
      destruct Hin as [E|[E|[E|[E|[]]]]]; injection E as <- <- <- <-; reflexivity.
  - apply HashFacts.to_hex_lower.
Qed.

Lemma X1_witness :
  HashExtractor.hashes_of_integrity (s "SHA1-aSbRsZT7xze47tUTdW3i/Np+pAg=") =
    [(SHA_1, s "6926d1b194fbc737b8eed513756de2fcda7ea408")] /\
  HashExtractor.hashes_of_integrity
    (s "sha256-jxzgcB+8dLn7Cjjyg7stGWMftZf6rbdvgoE85TOzmT4=") =
    [(SHA_256,
      s "8f1ce0701fbc74b9fb0a38f283bb2d19631fb597faadb76f82813ce533b3993e")] /\
  HashExtractor.hashes_of_integrity
    (s "sha384-aDkxLz2zQ0dwcNPAsr7NQXs1cVTUh5TQHXjPtGF+1auBmne2gy9lQt0Yu3OBMe9+") =
    [(SHA_384,
      s "6839312f3db343477070d3c0b2becd417b357154d48794d01d78cfb4617ed5ab819a77b6832f6542dd18bb738131ef7e")].
Proof.
  split; [|split].
  - destruct (X1_integrity_of_each_algorithm SHA_1 (s "sha1-") 27 (s "=")
                (s "SHA1-") (s "aSbRsZT7xze47tUTdW3i/Np+pAg"))
      as [H _]; [simpl; tauto | reflexivity | reflexivity | reflexivity |].
    vm_compute in H. vm_compute. exact H.
  - destruct (X1_integrity_of_each_algorithm SHA_256 (s "sha256-") 43 (s "=")
                (s "sha256-") (s "jxzgcB+8dLn7Cjjyg7stGWMftZf6rbdvgoE85TOzmT4"))
      as [H _]; [simpl; tauto | reflexivity | reflexivity | reflexivity |].
    vm_compute in H. vm_compute. exact H.
  - destruct (X1_integrity_of_each_algorithm SHA_384 (s "sha384-") 64 (s "")
                (s "sha384-")
                (s "aDkxLz2zQ0dwcNPAsr7NQXs1cVTUh5TQHXjPtGF+1auBmne2gy9lQt0Yu3OBMe9+"))
      as [H _]; [simpl; tauto | reflexivity | reflexivity | reflexivity |].
    vm_compute in H. vm_compute. exact H.
Defined.

(** X2. Whatever the integrity string, the extraction gives at most one
    hash, and a hash it gives is a digest of its algorithm: as many
    lowercase hexadecimal digits as the algorithm has, decoded from a
    string of one of the four forms. *)
Theorem X2_extracted_hash_is_a_digest (x : jsstring) (alg : HashAlgorithm)
    (v : jsstring) :
  In (alg, v) (HashExtractor.hashes_of_integrity x) ->
  HashExtractor.hashes_of_integrity x = [(alg, v)] /\
  List.length v = digest_hex_length alg /\
  forallb is_lower_hex v = true /\
  integrity_matches x.
Proof.
  intros Hin.
  assert (Hrow : exists a p c d capture,
            In (a, p, c, d) integrity_rows /\
            HashExtractor.exec p c d x = Some capture).
  { unfold HashExtractor.hashes_of_integrity in Hin.
    rewrite IntegrityFacts.integrityRE_rows in Hin.
    cbn [integrity_rows map HashExtractor.first_match] in Hin.
    repeat match type of Hin with
    | context [HashExtractor.exec ?p ?c ?d x] =>
        let E := fresh "E" in
        destruct (HashExtractor.exec p c d x) eqn:E;
          [ do 5 eexists; split; [|exact E]; simpl; tauto |]
    end. destruct Hin. }
  destruct Hrow as [a [p [c [d [capture [Hr Hf]]]]]].
  assert (Hx := IntegrityFacts.first_match_row x a p c d capture Hr Hf).
  rewrite Hx in Hin. destruct Hin as [E|[]]. injection E as -> <-.
  destruct (IntegrityFacts.exec_capture _ _ _ _ _ Hf)
    as [_ [payload [-> [Hlen Hall]]]].
  split; [exact Hx|]. split; [|split].
  - rewrite (IntegrityFacts.capture_digest c d payload); auto;
      simpl in Hr;
      destruct Hr as [E|[E|[E|[E|[]]]]]; injection E as <- <- <- <-; reflexivity.
  - apply HashFacts.to_hex_lower.
  - apply HashFacts.exec_form in Hf. simpl in Hr. unfold integrity_matches.
    destruct Hr as [E|[E|[E|[E|[]]]]]; injection E as <- <- <- <-; tauto.
Qed.

Lemma X2_witness :
  List.length (s "6926d1b194fbc737b8eed513756de2fcda7ea408") = 40 /\
  integrity_matches (s "sha1-aSbRsZT7xze47tUTdW3i/Np+pAg=").
Proof.
  destruct (X2_extracted_hash_is_a_digest
              (s "sha1-aSbRsZT7xze47tUTdW3i/Np+pAg=") SHA_1
              (s "6926d1b194fbc737b8eed513756de2fcda7ea408"))
    as [_ [H2 [_ H4]]]; [vm_compute; tauto|].
  split; [exact H2 | exact H4].
Defined.

(** X3. No string is matched by two of the patterns, so the order in which
    the loop of [makeComponent] tries them has no influence: the loop
    gives the same hashes over any arrangement of the four rows. *)
Theorem X3_order_of_patterns_is_immaterial (x : jsstring)
    (res : list (HashAlgorithm * (jsstring -> option jsstring))) :
  Permutation res HashExtractor.integrityRE ->
  HashExtractor.first_match res x = HashExtractor.hashes_of_integrity x.
Proof.
  intros Hp. apply IntegrityFacts.first_match_any.
  - intros e He. eapply Permutation_in; eauto.
  - intros e He. eapply Permutation_in; [symmetry|]; eauto.
Qed.

Lemma X3_witness :
  HashExtractor.first_match (rev HashExtractor.integrityRE)
    (s "sha1-aSbRsZT7xze47tUTdW3i/Np+pAg=")
  = HashExtractor.hashes_of_integrity (s "sha1-aSbRsZT7xze47tUTdW3i/Np+pAg=").
Proof.
  apply (X3_order_of_patterns_is_immaterial _ (rev HashExtractor.integrityRE)).
  symmetry. apply Permutation_rev.
Defined.

(** * More about the record normalizer *)

Module MakeFacts.
Import JsMap JsMapFacts BomBuilder.

Lemma get_set {V : Type} (k k1 : jsstring) (v : V) (m : JsMap.t V) :
  get k (set k1 v m) = if str_eqb k1 k then Some v else get k m.
Proof.
  induction m as [|[k' v'] m IH]; simpl.
  - reflexivity.
  - destruct (str_eqb k' k1) eqn:E1; simpl.
    + apply str_eqb_eq in E1. subst k'. now destruct (str_eqb k1 k).
    + rewrite IH. destruct (str_eqb k1 k) eqn:E2; [|reflexivity].
      apply str_eqb_eq in E2. subst k. now rewrite E1.
Qed.

(** [Object.assign]: a field of the source wins over the field of the
    target. *)
Lemma get_assign {V : Type} (k : jsstring) (sf : JsMap.t V) : forall tf,
  NoDup (keys sf) ->
  get k (fold_left (fun m e => set (fst e) (snd e) m) sf tf) =
  match get k sf with
  | Some v => Some v
  | None => get k tf
  end.
Proof.
  induction sf as [|[k1 v1] sf IH]; intros tf Hnd; [reflexivity|].
  inversion Hnd as [|? ? Hk Hnd']; subst.
  cbn [fold_left fst snd]. rewrite IH by assumption.
  cbn [get]. rewrite get_set.
  destruct (str_eqb k1 k) eqn:E.
  - apply str_eqb_eq in E. subst k.
    apply get_None in Hk. now rewrite Hk.
  - reflexivity.
Qed.

Section WithCollaborators.
Variable E : Collaborators.

(** What a component [makeComponent] returns is made of. *)
Lemma makeComponent_inv this data type c :
  makeComponent E this data type = Some (MadeComponent c) ->
  exists dataC built body,
    componentBuilder_makeComponent E dataC type = Some built /\
    c_type body = b_type built /\ c_name body = b_name built /\
    c_group body = b_group built /\ c_version body = b_version built /\
    c_externalReferences body = b_externalReferences built /\
    c = assign_bomRef data
          (assign_purl E this
             (when_string
                (as_string (nullish (get_prop data "resolved")
                                    (get_prop data "_resolved")))
                (add_distribution data) body)).
Proof.
  unfold makeComponent. cbv zeta.
  repeat match goal with
  | |- context [if ?b then Some MadeFalse else _] => destruct b; [discriminate|]
  end.
  destruct (if packageLockOnly this then _ else _) as [dataC0|]; [|discriminate].
  destruct (normalizePackageData E _); [|discriminate].
  match goal with
  | |- context [componentBuilder_makeComponent E ?d type] =>
      destruct (componentBuilder_makeComponent E d type) as [built|] eqn:Hb;
        [intros [= <-]; exists d, built | discriminate]
  end.
  match goal with
  | |- exists body, _ /\ _ /\ _ /\ _ /\ _ /\ _ /\
         assign_bomRef _ (assign_purl _ _ (when_string _ _ ?b)) = _ =>
      exists b
  end.
  split; [exact Hb|].
  unfold when, when_string.
  repeat match goal with
  | |- context [if ?b then _ else _] => destruct b
  | |- context [match as_string ?v with _ => _ end] => destruct (as_string v)
  end; repeat split; reflexivity.
Qed.

(** The options [makeComponent] reads. *)
Lemma makeComponent_ext this this' data type :
  packageLockOnly this = packageLockOnly this' ->
  reproducible this = reproducible this' ->
  shortPURLs this = shortPURLs this' ->
  omits this dev = omits this' dev ->
  omits this optional = omits this' optional ->
  makeComponent E this data type = makeComponent E this' data type.
Proof.
  intros H1 H2 H3 H4 H5.
  unfold makeComponent, assign_purl, makePurl.
  now rewrite H1, H2, H3, H4, H5.
Qed.

Lemma for_each_ext {A S : Type} (body body' : S -> A -> option S) l :
  (forall st x, body st x = body' st x) ->
  forall st, for_each body l st = for_each body' l st.
Proof.
  intros H. induction l as [|x l IH]; intros st; simpl; [reflexivity|].
  rewrite H. destruct (body' st x); auto.
Qed.

Lemma gatherDependencies_ext this this' :
  (forall data type, makeComponent E this data type
                     = makeComponent E this' data type) ->
  forall fuel st data parent,
    gatherDependencies E this fuel st data parent
    = gatherDependencies E this' fuel st data parent.
Proof.
  intros Hm. induction fuel as [|fuel IH]; intros st data parent; [reflexivity|].
  simpl. apply for_each_ext. intros st0 [depName depData].
  unfold gatherEntry. rewrite Hm.
  destruct (negb (is_object depData)); [reflexivity|].
  destruct (as_string (get_prop depData "path")); [|reflexivity].
  destruct (get j (allComponents st0)); [apply IH|].
  destruct (makeComponent E this' depData None) as [[c| |]|]; auto.
Qed.

Lemma buildFromNpmLs_ext this this' data :
  (forall d type, makeComponent E this d type = makeComponent E this' d type) ->
  metaComponentType this = metaComponentType this' ->
  flattenComponents this = flattenComponents this' ->
  buildFromNpmLs E this data = buildFromNpmLs E this' data.
Proof.
  intros Hm Ht Hf.
  assert (Hw : walk E this data = walk E this' data).
  { unfold walk. rewrite Ht, Hm.
    destruct (as_string (get_prop data "path")); [|reflexivity].
    destruct (makeComponent E this' data _); [|reflexivity].
    now rewrite (gatherDependencies_ext this this' Hm). }
  unfold buildFromNpmLs, buildNested. now rewrite Hw, Hf.
Qed.

End WithCollaborators.
End MakeFacts.

(** X4. [makeComponent] returns the skip signal [false] exactly for a
    record that is flagged optional while [optional] is omitted, or flagged
    as a development package while [dev] is omitted, or flagged
    [devOptional] while both are omitted (a flag is read from the canonical
    field, from the legacy alias when that one is missing or [null]).  In
    particular it never skips when neither [dev] nor [optional] is
    omitted. *)
Theorem X4_skip_signal (E : Collaborators) (this : BomBuilderOptions)
    (data : json) (type : option ComponentType) :
  (BomBuilder.makeComponent E this data type = Some MadeFalse <->
   (is_true (nullish (get_prop data "optional") (get_prop data "_optional"))
      && omits this optional)
   || (is_true (nullish (get_prop data "dev") (get_prop data "_development"))
         && omits this dev)
   || (is_true (get_prop data "devOptional")
         && omits this dev && omits this optional) = true) /\
  (omits this dev = false -> omits this optional = false ->
   BomBuilder.makeComponent E this data type <> Some MadeFalse).
Proof.
  assert (H : BomBuilder.makeComponent E this data type = Some MadeFalse <->
   (is_true (nullish (get_prop data "optional") (get_prop data "_optional"))
      && omits this optional)
   || (is_true (nullish (get_prop data "dev") (get_prop data "_development"))
         && omits this dev)
   || (is_true (get_prop data "devOptional")
         && omits this dev && omits this optional) = true).
  { unfold BomBuilder.makeComponent. cbv zeta.
    destruct (is_true (nullish (get_prop data "optional") _) && omits this optional);
      [split; reflexivity|].
    destruct (is_true (nullish (get_prop data "dev") _) && omits this dev);
      [split; reflexivity|].
    destruct (is_true (get_prop data "devOptional") && omits this dev
              && omits this optional); [split; reflexivity|].
    split; [|discriminate]. intros H. exfalso.
    destruct (if packageLockOnly this then _ else _); [|discriminate].
    destruct (normalizePackageData E _); [|discriminate].
    destruct (componentBuilder_makeComponent E _ type); discriminate. }
  split; [exact H|]. intros Hd Ho Hm. apply H in Hm.
  rewrite Hd, Ho, !andb_false_r in Hm. discriminate.
Qed.

Lemma X4_witness :
  BomBuilder.makeComponent demo (options [] false)
    (record "a" "1.0.0" "/proj/node_modules/a"
       [(s "dev", JBool true); (s "optional", JBool true);
        (s "devOptional", JBool true)] [])
    None <> Some MadeFalse.
Proof.
  apply (X4_skip_signal demo (options [] false)
           (record "a" "1.0.0" "/proj/node_modules/a"
              [(s "dev", JBool true); (s "optional", JBool true);
               (s "devOptional", JBool true)] [])
           None); reflexivity.
Defined.

(** X5. The document does not depend on the omission of [peer]: a build
    reads the set of omitted types only to ask whether [dev] and whether
    [optional] is in it.  Two builders that agree on these two answers and
    on their other options build the same document from a raw tree,
    whatever else the sets hold and in whatever order. *)
Theorem X5_peer_omission_is_not_read (E : Collaborators)
    (this this' : BomBuilderOptions) (data : json) :
  metaComponentType this = metaComponentType this' ->
  packageLockOnly this = packageLockOnly this' ->
  reproducible this = reproducible this' ->
  flattenComponents this = flattenComponents this' ->
  shortPURLs this = shortPURLs this' ->
  omits this dev = omits this' dev ->
  omits this optional = omits this' optional ->
  BomBuilder.buildFromNpmLs E this data = BomBuilder.buildFromNpmLs E this' data.
Proof.
  intros H1 H2 H3 H4 H5 H6 H7. apply MakeFacts.buildFromNpmLs_ext; auto.
  intros d type. now apply MakeFacts.makeComponent_ext.
Qed.

Lemma X5_witness :
  BomBuilder.buildFromNpmLs demo (options [peer; dev; peer] false) ex_nested
  = BomBuilder.buildFromNpmLs demo (options [dev; dev] false) ex_nested.
Proof.
  apply (X5_peer_omission_is_not_read demo (options [peer; dev; peer] false)
           (options [dev; dev] false) ex_nested); reflexivity.
Defined.

(** X6. A component [makeComponent] returns has a reference token, and the
    token is not empty: it is the [_id] of the record when that is a
    string that is not empty, and else the group, [/], the name, [@] and
    the version of the component, with [-] for a group or a version that
    is missing or empty. *)
Theorem X6_reference_token (E : Collaborators) (this : BomBuilderOptions)
    (data : json) (type : option ComponentType) (c : Component) :
  BomBuilder.makeComponent E this data type = Some (MadeComponent c) ->
  exists v,
    c_bomRef c = Some v /\ v <> [] /\
    (forall id, as_string (get_prop data "_id") = Some id -> id <> [] -> v = id) /\
    (as_string (get_prop data "_id") = None \/
     as_string (get_prop data "_id") = Some [] ->
     v = BomBuilder.or_dash (c_group c) ++ s "/" ++ c_name c ++ s "@" ++
         BomBuilder.or_dash (c_version c)).
Proof.
  intros Hm.
  destruct (MakeFacts.makeComponent_inv E this data type c Hm)
    as [dataC [built [body [_ [_ [_ [_ [_ [_ ->]]]]]]]]].
  unfold BomBuilder.assign_bomRef at 1. cbn [c_bomRef set_bomRef].
  eexists. split; [reflexivity|].
  destruct (as_string (get_prop data "_id")) as [[|a id]|].
  - split; [|split].
    + destruct (BomBuilder.or_dash _); discriminate.
    + intros id [= <-] H. congruence.
    + intros _. reflexivity.
  - split; [discriminate|]. split.
    + intros id' [= <-] _. reflexivity.
    + intros [H|H]; discriminate.
  - split; [|split].
    + destruct (BomBuilder.or_dash _); discriminate.
    + intros id H. discriminate.
    + intros _. reflexivity.
Qed.

Lemma X6_witness :
  exists v,
    v <> [] /\
    v = BomBuilder.or_dash None ++ s "/" ++ s "n" ++ s "@" ++
        BomBuilder.or_dash None.
Proof.
  destruct (X6_reference_token demo (options [] false)
              (JObj [(s "name", JStr (s "n")); (s "_id", JStr [])]) None
              (mkComponent Library (s "n") None None None (Some (s "-/n@-")) None
                 [] [] None [] [] false) eq_refl)
    as [v [_ [H2 [_ H4]]]].
  exists v. split; [exact H2|]. apply H4. right. reflexivity.
Defined.

(** X7. With the option [shortPURLs] the package URL of a component
    [makeComponent] returns carries neither qualifiers nor a subpath. *)
Theorem X7_short_package_urls (E : Collaborators) (this : BomBuilderOptions)
    (data : json) (type : option ComponentType) (c : Component)
    (purl : PackageURL) :
  shortPURLs this = true ->
  BomBuilder.makeComponent E this data type = Some (MadeComponent c) ->
  c_purl c = Some purl ->
  purl_qualifiers purl = None /\ purl_subpath purl = None.
Proof.
  intros Hs Hm.
  destruct (MakeFacts.makeComponent_inv E this data type c Hm)
    as [dataC [built [body [_ [_ [_ [_ [_ [_ ->]]]]]]]]].
  cbn [BomBuilder.assign_bomRef BomBuilder.assign_purl c_purl set_bomRef set_purl].
  unfold BomBuilder.makePurl. rewrite Hs.
  destruct (purlFactory_makeFromComponent E _ _); [|discriminate].
  intros [= <-]. split; reflexivity.
Qed.

Lemma X7_witness :
  purl_qualifiers (mkPackageURL (s "pkg:npm/a") None None) = None /\
  purl_subpath (mkPackageURL (s "pkg:npm/a") None None) = None.
Proof.
  apply (X7_short_package_urls demo_installed
           (mkBomBuilder Application true [] true false true)
           (record "a" "1.0.0" "/proj/node_modules/a" [] []) None
           (mkComponent Library (s "a") None (Some (s "1.0.0")) None
              (Some (s "a@1.0.0")) None
              [mkProperty PackageInstallPath (s "/proj/node_modules/a")] []
              (Some (mkPackageURL (s "pkg:npm/a") None None)) [] [] false));
    reflexivity.
Defined.

(** X8. The only external reference [makeComponent] adds to those of the
    library's builder is the distribution reference for [resolved], and it
    never adds one for a [resolved] that starts with [file:] or [ignore:],
    in any letter case: every reference of the component is one of the
    builder's, or it is of type distribution, its URL is the [resolved] of
    the record and starts with neither prefix, and its hashes are those of
    the [integrity] of the record. *)
Theorem X8_distribution_reference (E : Collaborators) (this : BomBuilderOptions)
    (data : json) (type : option ComponentType) (c : Component)
    (r : ExternalReference) :
  BomBuilder.makeComponent E this data type = Some (MadeComponent c) ->
  In r (c_externalReferences c) ->
  (exists dataC built,
     componentBuilder_makeComponent E dataC type = Some built /\
     In r (b_externalReferences built)) \/
  (er_type r = Distribution /\
   as_string (nullish (get_prop data "resolved") (get_prop data "_resolved"))
     = Some (er_url r) /\
   startsWith_ci (er_url r) (s "file:") = false /\
   startsWith_ci (er_url r) (s "ignore:") = false /\
   er_hashes r =
     match as_string (nullish (get_prop data "integrity")
                              (get_prop data "_integrity")) with
     | Some integrity => HashExtractor.hashes_of_integrity integrity
     | None => []
     end).
Proof.
  intros Hm.
  destruct (MakeFacts.makeComponent_inv E this data type c Hm)
    as [dataC [built [body [Hb [_ [_ [_ [_ [Hrefs ->]]]]]]]]].
  cbn [BomBuilder.assign_bomRef BomBuilder.assign_purl c_externalReferences
       set_bomRef set_purl].
  unfold BomBuilder.when_string.
  destruct (as_string (nullish (get_prop data "resolved") _)) as [resolved|].
  - unfold BomBuilder.add_distribution.
    destruct (BomBuilder.resolvedRE_ignore resolved) eqn:Hi.
    + rewrite Hrefs. intros Hin. left. eauto.
    + cbn [BomBuilder.add_externalReference c_externalReferences
           set_externalReferences]. rewrite Hrefs.
      intros Hin. apply in_app_or in Hin as [Hin|[<-|[]]]; [left; eauto|].
      right. cbn [er_type er_url er_hashes].
      unfold BomBuilder.resolvedRE_ignore in Hi.
      apply orb_false_iff in Hi as [Hi1 Hi2]. auto.
  - rewrite Hrefs. intros Hin. left. eauto.
Qed.

Lemma X8_witness :
  er_type (mkExternalReference (s "https://registry.example/a.tgz") Distribution
             [(SHA_1, s "6926d1b194fbc737b8eed513756de2fcda7ea408")]
             (s "as detected from npm-ls property " ++ dquote ++ s "resolved" ++
              dquote ++ s " and property " ++ dquote ++ s "integrity" ++ dquote))
  = Distribution.
Proof.
  destruct (X8_distribution_reference demo (options [] false)
              (record "a" "1.0.0" "/proj/node_modules/a"
                 [(s "resolved", JStr (s "https://registry.example/a.tgz"));
                  (s "integrity", JStr (s "sha1-aSbRsZT7xze47tUTdW3i/Np+pAg="))] [])
              None
              (mkComponent Library (s "a") None (Some (s "1.0.0")) None
                 (Some (s "a@1.0.0")) None
                 [mkProperty PackageInstallPath (s "/proj/node_modules/a")]
                 [mkExternalReference (s "https://registry.example/a.tgz")
                    Distribution
                    [(SHA_1, s "6926d1b194fbc737b8eed513756de2fcda7ea408")]
                    (s "as detected from npm-ls property " ++ dquote ++
                     s "resolved" ++ dquote ++ s " and property " ++ dquote ++
                     s "integrity" ++ dquote)]
                 None [] [] false)
              (mkExternalReference (s "https://registry.example/a.tgz") Distribution
                 [(SHA_1, s "6926d1b194fbc737b8eed513756de2fcda7ea408")]
                 (s "as detected from npm-ls property " ++ dquote ++ s "resolved" ++
                  dquote ++ s " and property " ++ dquote ++ s "integrity" ++ dquote))
              eq_refl (or_introl eq_refl))
    as [[dataC [built [Hb Hin]]]|[H _]].
  - reflexivity.
  - exact H.
Defined.

(** X9. [enhancedPackageData] lets the record of the listing win over the
    manifest on disk: when the path is absolute and its [package.json]
    loads as an object, a field the record has keeps the value of the
    record, and only a field the record lacks is taken from the manifest.
    When the path is not absolute, or the manifest does not load, the
    record is returned as it is. *)
Theorem X9_listing_overrides_manifest (E : Collaborators) (path : jsstring)
    (fields manifest : list (jsstring * json)) (name : string) :
  NoDup (JsMap.keys fields) ->
  (path_isAbsolute E path = true ->
   require E (path_join E path (s "package.json")) = Some (JObj manifest) ->
   get_prop (BomBuilder.enhancedPackageData E path (JObj fields)) name =
     match get_prop (JObj fields) name with
     | Some v => Some v
     | None => get_prop (JObj manifest) name
     end) /\
  (path_isAbsolute E path = false \/
   require E (path_join E path (s "package.json")) = None ->
   BomBuilder.enhancedPackageData E path (JObj fields) = JObj fields).
Proof.
  intros Hnd. unfold BomBuilder.enhancedPackageData. split.
  - intros -> ->. simpl negb. cbv iota.
    unfold Object_assign, get_prop. now apply MakeFacts.get_assign.
  - intros [->| ->]; [reflexivity|].
    now destruct (negb (path_isAbsolute E path)).
Qed.

Lemma X9_witness :
  get_prop (BomBuilder.enhancedPackageData demo_installed (s "/proj/node_modules/a")
              (JObj [(s "name", JStr (s "a")); (s "version", JStr (s "1.0.0"))]))
    "name" = Some (JStr (s "a")) /\
  get_prop (BomBuilder.enhancedPackageData demo_installed (s "/proj/node_modules/a")
              (JObj [(s "name", JStr (s "a")); (s "version", JStr (s "1.0.0"))]))
    "license" = Some (JStr (s "MIT")).
Proof.
  assert (Hnd : NoDup (JsMap.keys [(s "name", JStr (s "a"));
                                   (s "version", JStr (s "1.0.0"))])).
  { apply TreeFacts.distinct_NoDup. reflexivity. }
  split.
  - apply (X9_listing_overrides_manifest demo_installed (s "/proj/node_modules/a")
             [(s "name", JStr (s "a")); (s "version", JStr (s "1.0.0"))]
             [(s "name", JStr (s "from-manifest")); (s "license", JStr (s "MIT"))]
             "name" Hnd); reflexivity.
  - apply (X9_listing_overrides_manifest demo_installed (s "/proj/node_modules/a")
             [(s "name", JStr (s "a")); (s "version", JStr (s "1.0.0"))]
             [(s "name", JStr (s "from-manifest")); (s "license", JStr (s "MIT"))]
             "license" Hnd); reflexivity.
Defined.

(** * The install paths *)

Module PathFacts.
Import BomBuilder.

Lemma replace_first_same (c : ascii) (x : jsstring) : replace_first c [c] x = x.
Proof.
  induction x as [|d x IH]; simpl; [reflexivity|].
  destruct (Ascii.eqb d c) eqn:E; [|now rewrite IH].
  apply Ascii.eqb_eq in E. now subst.
Qed.

Lemma replace_first_split (c : ascii) (by_ a b : jsstring) :
  ~ In c a -> replace_first c by_ (a ++ c :: b) = a ++ by_ ++ b.
Proof.
  induction a as [|d a IH]; simpl; intros H.
  - now rewrite Ascii.eqb_refl.
  - destruct (Ascii.eqb d c) eqn:E.
    + apply Ascii.eqb_eq in E. exfalso. auto.
    + rewrite IH by tauto. reflexivity.
Qed.

Lemma replace_first_absent (c : ascii) (by_ x : jsstring) :
  ~ In c x -> replace_first c by_ x = x.
Proof.
  induction x as [|d x IH]; simpl; intros H; [reflexivity|].
  destruct (Ascii.eqb d c) eqn:E.
  - apply Ascii.eqb_eq in E. exfalso. auto.
  - rewrite IH by tauto. reflexivity.
Qed.

Section WithCollaborators.
Variable E : Collaborators.

(** What [finalizePathProperties] makes of an install path that is not
    empty. *)
Definition relativized (rootPath value : jsstring) : jsstring :=
  match rootPath with
  | "/"%char :: _ => replace_first "/"%char (s "/") (path_posix_relative E rootPath value)
  | _ => replace_first "\"%char (s "/") (path_win32_relative E rootPath value)
  end.

Lemma finalize_install_paths rootPath c :
  install_paths (finalize_component E rootPath c) =
  map (relativized rootPath) (filter nonempty (install_paths c)).
Proof.
  unfold install_paths, finalize_component. cbn [c_properties set_properties].
  induction (c_properties c) as [|p ps IH]; [reflexivity|].
  cbn [flat_map filter]. rewrite filter_app, map_app, IH.
  unfold is_install_path at 1 3.
  destruct p as [name value]. cbn [p_name p_value].
  destruct name; cbn [filter map app is_install_path p_name]; try reflexivity.
  destruct value as [|a value]; [reflexivity|].
  cbn [filter map app is_install_path p_name p_value nonempty].
  f_equal. unfold relativized.
  destruct rootPath as [|[[] [] [] [] [] [] [] []] r]; reflexivity.
Qed.

Lemma finalize_other_properties rootPath c :
  other_properties (finalize_component E rootPath c) = other_properties c.
Proof.
  unfold other_properties, finalize_component. cbn [c_properties set_properties].
  induction (c_properties c) as [|p ps IH]; [reflexivity|].
  cbn [flat_map filter]. rewrite filter_app, IH.
  unfold is_install_path at 1 3.
  destruct p as [name value]. cbn [p_name p_value].
  destruct name; cbn [filter negb app is_install_path p_name]; try reflexivity.
  destruct value; reflexivity.
Qed.

Lemma length_filter_le {A : Type} (f : A -> bool) (l : list A) :
  List.length (filter f l) <= List.length l.
Proof. induction l as [|x l IH]; simpl; [lia|]. destruct (f x); simpl; lia. Qed.

Lemma finalize_paths_length rootPath c :
  List.length (install_paths (finalize_component E rootPath c))
  <= List.length (install_paths c).
Proof.
  rewrite finalize_install_paths, length_map. apply length_filter_le.
Qed.

(** The loop over the components. *)
Lemma finalize_loop_other rootPath l : forall h i,
  ~ In i l ->
  nth_error (fold_left (fun h c => update_nth c (finalize_component E rootPath) h) l h) i
  = nth_error h i.
Proof.
  induction l as [|c l IH]; intros h i Hi; simpl; [reflexivity|].
  rewrite IH by (simpl in Hi; tauto).
  apply nth_error_update_nth_other. simpl in Hi. tauto.
Qed.

Lemma finalize_loop_member rootPath l : forall h i,
  NoDup l -> In i l ->
  nth_error (fold_left (fun h c => update_nth c (finalize_component E rootPath) h) l h) i
  = option_map (finalize_component E rootPath) (nth_error h i).
Proof.
  induction l as [|c l IH]; intros h i Hnd Hi; [destruct Hi|].
  inversion Hnd as [|? ? Hc Hnd']; subst. simpl.
  destruct Hi as [->|Hi].
  - rewrite finalize_loop_other by assumption.
    apply nth_error_update_nth_same.
  - rewrite IH by assumption.
    rewrite nth_error_update_nth_other; [reflexivity|]. intros ->. contradiction.
Qed.

Lemma finalize_loop_keeps rootPath l : forall h i c,
  nth_error h i = Some c ->
  exists c',
    nth_error (fold_left (fun h c => update_nth c (finalize_component E rootPath) h) l h) i
    = Some c' /\
    other_properties c' = other_properties c /\
    List.length (install_paths c') <= List.length (install_paths c).
Proof.
  induction l as [|k l IH]; intros h i c Hc; simpl.
  - exists c. auto.
  - destruct (IH (update_nth k (finalize_component E rootPath) h) i
                 (if k =? i then finalize_component E rootPath c else c))
      as [c' [H1 [H2 H3]]].
    { now apply nth_error_update_nth. }
    exists c'. split; [exact H1|]. destruct (k =? i).
    + rewrite finalize_other_properties in H2. split; [exact H2|].
      assert (H := finalize_paths_length rootPath c). lia.
    + auto.
Qed.

(** [finalizePathProperties] keeps the other properties of every
    component. *)
Lemma finalize_keeps_other rootPath l h i c :
  nth_error h i = Some c ->
  exists c',
    nth_error (finalizePathProperties E rootPath l h) i = Some c' /\
    other_properties c' = other_properties c.
Proof.
  intros Hc. unfold finalizePathProperties. destruct rootPath as [|a r].
  - exists c. auto.
  - destruct (finalize_loop_keeps (a :: r) l h i c Hc) as [c' [H1 [H2 _]]]. eauto.
Qed.

(** A component of the list after [finalizePathProperties]. *)
Lemma finalize_member_paths rootPath l h c comp :
  rootPath <> [] -> NoDup l -> In c l -> nth_error h c = Some comp ->
  exists comp',
    nth_error (finalizePathProperties E rootPath l h) c = Some comp' /\
    c_isDummy comp' = c_isDummy comp /\
    (separator_of rootPath = "/"%char ->
     install_paths comp' =
       map (path_posix_relative E rootPath) (filter nonempty (install_paths comp))) /\
    (separator_of rootPath = "\"%char ->
     install_paths comp' =
       map (fun value =>
              replace_first "\"%char (s "/") (path_win32_relative E rootPath value))
           (filter nonempty (install_paths comp))).
Proof.
  intros Hne Hnd Hin Hc. unfold finalizePathProperties.
  destruct rootPath as [|r0 r]; [congruence|].
  rewrite (finalize_loop_member (r0 :: r) l h c Hnd Hin), Hc.
  cbn [option_map]. eexists. split; [reflexivity|]. split; [reflexivity|].
  rewrite finalize_install_paths. split; intros Hsep; apply map_ext; intros value;
    unfold relativized;
    destruct r0 as [[] [] [] [] [] [] [] []]; try discriminate Hsep;
    try reflexivity.
  apply replace_first_same.
Qed.

End WithCollaborators.
End PathFacts.

(** X10. [finalizePathProperties] only touches install paths: the heap
    keeps its components, each with everything but its properties, with
    its other properties in their order, and with no more install paths
    than it had; a component that is not among the given ones is not
    touched at all, and with an empty root path nothing is. *)
Theorem X10_finalize_touches_install_paths_only (E : Collaborators)
    (rootPath : jsstring) (components : list cid) (h : Heap) :
  List.length (BomBuilder.finalizePathProperties E rootPath components h)
    = List.length h /\
  same_but_properties h (BomBuilder.finalizePathProperties E rootPath components h) /\
  (forall i c, nth_error h i = Some c ->
     exists c',
       nth_error (BomBuilder.finalizePathProperties E rootPath components h) i
         = Some c' /\
       other_properties c' = other_properties c /\
       List.length (install_paths c') <= List.length (install_paths c)) /\
  (forall i, ~ In i components ->
     nth_error (BomBuilder.finalizePathProperties E rootPath components h) i
     = nth_error h i) /\
  (rootPath = [] ->
   BomBuilder.finalizePathProperties E rootPath components h = h).
Proof.
  split; [apply ForestFacts.finalize_length|].
  split; [apply ForestFacts.finalize_same|].
  unfold BomBuilder.finalizePathProperties. split; [|split].
  - intros i c Hc. destruct rootPath as [|a r].
    + exists c. auto.
    + now apply PathFacts.finalize_loop_keeps.
  - intros i Hi. destruct rootPath as [|a r]; [reflexivity|].
    now apply PathFacts.finalize_loop_other.
  - intros ->. reflexivity.
Qed.

Lemma X10_witness :
  BomBuilder.finalizePathProperties demo [] [0] [ex_installed "/proj/node_modules/a"]
  = [ex_installed "/proj/node_modules/a"].
Proof.
  apply (X10_finalize_touches_install_paths_only demo [] [0]
           [ex_installed "/proj/node_modules/a"]).
  reflexivity.
Defined.

(** X11. With a root path that is not empty, [finalizePathProperties]
    drops the install paths that are empty and makes the others relative
    to the root path.  For a root path that starts with [/] the new value
    is exactly what [path.posix.relative] returns; for another root path
    it is what [path.win32.relative] returns with its first backslash, and
    only that one, replaced by a slash. *)
Theorem X11_install_paths_made_relative (E : Collaborators)
    (rootPath : jsstring) (components : list cid) (h : Heap) (c : cid)
    (comp : Component) :
  rootPath <> [] -> NoDup components -> In c components ->
  nth_error h c = Some comp ->
  exists comp',
    nth_error (BomBuilder.finalizePathProperties E rootPath components h) c
      = Some comp' /\
    (separator_of rootPath = "/"%char ->
     install_paths comp' =
       map (path_posix_relative E rootPath) (filter nonempty (install_paths comp))) /\
    (separator_of rootPath = "\"%char ->
     install_paths comp' =
       map (fun value =>
              replace_first "\"%char (s "/") (path_win32_relative E rootPath value))
           (filter nonempty (install_paths comp)) /\
     forall value a b,
       In value (filter nonempty (install_paths comp)) ->
       path_win32_relative E rootPath value = a ++ "\"%char :: b ->
       ~ In "\"%char a ->
       In (a ++ "/"%char :: b) (install_paths comp')).
Proof.
  intros Hne Hnd Hin Hc. unfold BomBuilder.finalizePathProperties.
  destruct rootPath as [|r0 r]; [congruence|].
  rewrite (PathFacts.finalize_loop_member E (r0 :: r) components h c Hnd Hin), Hc.
  cbn [option_map]. eexists. split; [reflexivity|].
  rewrite PathFacts.finalize_install_paths. split.
  - intros Hsep. apply map_ext. intros value. unfold PathFacts.relativized.
    destruct r0 as [[] [] [] [] [] [] [] []]; try discriminate Hsep.
    apply PathFacts.replace_first_same.
  - intros Hsep.
    assert (Hrel : forall value,
              PathFacts.relativized E (r0 :: r) value =
              replace_first "\"%char (s "/") (path_win32_relative E (r0 :: r) value)).
    { intros value. unfold PathFacts.relativized.
      destruct r0 as [[] [] [] [] [] [] [] []]; try reflexivity.
      discriminate Hsep. }
    split; [apply map_ext; exact Hrel|].
    intros value a b Hv Hsplit Ha. apply in_map_iff. exists value.
    split; [|exact Hv].
    rewrite Hrel, Hsplit. now apply PathFacts.replace_first_split.
Qed.

Lemma X11_witness :
  (exists comp',
     nth_error (BomBuilder.finalizePathProperties demo (s "/proj") [0]
                  [ex_installed "/proj/node_modules/a/node_modules/b"]) 0
       = Some comp' /\
     install_paths comp' = [s "node_modules/a/node_modules/b"]) /\
  (exists comp',
     nth_error (BomBuilder.finalizePathProperties demo_win32 (s "C:\proj") [0]
                  [ex_installed "C:\proj\node_modules\a\node_modules\b"]) 0
       = Some comp' /\
     In (s "node_modules/a\node_modules\b") (install_paths comp')).
Proof.
  split.
  - destruct (X11_install_paths_made_relative demo (s "/proj") [0]
                [ex_installed "/proj/node_modules/a/node_modules/b"] 0
                (ex_installed "/proj/node_modules/a/node_modules/b"))
      as [comp' [H1 [H2 _]]];
      [discriminate | repeat constructor; simpl; tauto | now left | reflexivity |].
    exists comp'. split; [exact H1|]. now apply H2.
  - destruct (X11_install_paths_made_relative demo_win32 (s "C:\proj") [0]
                [ex_installed "C:\proj\node_modules\a\node_modules\b"] 0
                (ex_installed "C:\proj\node_modules\a\node_modules\b"))
      as [comp' [H1 [_ H3]]];
      [discriminate | repeat constructor; simpl; tauto | now left | reflexivity |].
    exists comp'. split; [exact H1|].
    destruct (H3 eq_refl) as [_ H4].
    apply (H4 (s "C:\proj\node_modules\a\node_modules\b")
              (s "node_modules") (s "a\node_modules\b")).
    + now left.
    + reflexivity.
    + simpl. intuition discriminate.
Defined.

(** * More about the graph walk *)

Module EdgeFacts.
Import JsMap JsMapFacts BomBuilder.

Lemma set_add_NoDup c l : NoDup l -> NoDup (set_add c l).
Proof.
  intros H. unfold set_add. destruct (existsb (Nat.eqb c) l) eqn:Ex; [assumption|].
  apply NoDup_app; [assumption | repeat constructor; simpl; tauto|].
  intros x Hx [<-|[]].
  assert (Ht : existsb (Nat.eqb c) l = true).
  { apply existsb_exists. exists c. split; [assumption | apply Nat.eqb_refl]. }
  congruence.
Qed.

Lemma grows_refl st : grows st st.
Proof.
  split; [apply extends_refl|]. intros i c H. exists c. split; [assumption|].
  apply incl_refl.
Qed.

Lemma grows_trans st1 st2 st3 : grows st1 st2 -> grows st2 st3 -> grows st1 st3.
Proof.
  intros [A1 B1] [A2 B2]. split; [eapply extends_trans; eauto|].
  intros i c H. destruct (B1 i c H) as [c' [H' I']].
  destruct (B2 i c' H') as [c'' [H'' I'']]. exists c''. split; [assumption|].
  eapply incl_tran; eauto.
Qed.

Lemma add_dependency_grows owner dep st : grows st (add_dependency owner dep st).
Proof.
  split; [apply WalkFacts.add_dependency_extends|].
  intros i c H. unfold add_dependency. cbn [heap].
  rewrite (nth_error_update_nth owner i _ _ c H). eexists. split; [reflexivity|].
  destruct (owner =? i); [|apply incl_refl].
  intros d Hd. cbn [c_dependencies set_dependencies].
  apply BuildFacts.set_add_In. now right.
Qed.

Lemma add_dependency_records owner dep st :
  owner < List.length (heap st) ->
  exists comp, nth_error (heap (add_dependency owner dep st)) owner = Some comp /\
               In dep (c_dependencies comp).
Proof.
  intros H. unfold add_dependency. cbn [heap].
  destruct (nth_error (heap st) owner) as [c|] eqn:Hc.
  2:{ apply nth_error_None in Hc. lia. }
  rewrite (nth_error_update_nth owner owner _ _ c Hc), Nat.eqb_refl.
  eexists. split; [reflexivity|]. cbn [c_dependencies set_dependencies].
  apply BuildFacts.set_add_In. now left.
Qed.

Lemma register_grows st path component :
  get path (allComponents st) = None ->
  grows st (mkState (heap st ++ [component])
                    (set path (List.length (heap st)) (allComponents st))).
Proof.
  intros Hg. split; [now apply WalkFacts.register_extends|].
  intros i c H. exists c. split; [|apply incl_refl]. cbn [heap].
  rewrite nth_error_app1; [assumption|]. apply nth_error_Some. congruence.
Qed.

Lemma grows_length st st' : grows st st' ->
  List.length (heap st) <= List.length (heap st').
Proof.
  intros [_ H]. destruct (heap st) as [|c0 h0] eqn:Eh; [simpl; lia|].
  destruct (Nat.le_gt_cases (List.length (c0 :: h0)) (List.length (heap st')))
    as [Hle|Hgt]; [exact Hle|].
  exfalso.
  assert (Hlast : exists c, nth_error (c0 :: h0) (List.length h0) = Some c).
  { destruct (nth_error (c0 :: h0) (List.length h0)) eqn:E; [eauto|].
    apply nth_error_None in E. simpl in E. lia. }
  destruct Hlast as [c Hc]. destruct (H _ _ Hc) as [c' [Hc' _]].
  assert (Hlt : List.length h0 < List.length (heap st'))
    by (apply nth_error_Some; congruence).
  simpl in Hgt. lia.
Qed.

Section WithCollaborators.
Variable E : Collaborators.
Variable this : BomBuilderOptions.

Lemma makeComponent_no_edges data type c :
  makeComponent E this data type = Some (MadeComponent c) ->
  c_dependencies c = [].
Proof.
  intros Hm.
  destruct (MakeFacts.makeComponent_inv E this data type c Hm)
    as [dataC [built [body [_ _]]]].
  revert Hm. unfold makeComponent. cbv zeta.
  repeat match goal with
  | |- context [if ?b then Some MadeFalse else _] => destruct b; [discriminate|]
  end.
  destruct (if packageLockOnly this then _ else _); [|discriminate].
  destruct (normalizePackageData E _); [|discriminate].
  destruct (componentBuilder_makeComponent E _ type); [|discriminate].
  intros [= <-]. unfold when, when_string, add_distribution.
  repeat match goal with
  | |- context [if ?b then _ else _] => destruct b
  | |- context [match as_string ?v with _ => _ end] => destruct (as_string v)
  end; reflexivity.
Qed.

(** One edge of the walk keeps what the walk has recorded. *)
Lemma gatherEntry_grows recurse parent st entry st' :
  (forall st0 d c st1, recurse st0 d c = Some st1 -> grows st0 st1) ->
  gatherEntry E this recurse parent st entry = Some st' ->
  grows st st'.
Proof.
  intros Hrec. destruct entry as [depName depData]. unfold gatherEntry.
  destruct (is_object depData); simpl negb; cbv iota.
  2:{ intros [= <-]. apply grows_refl. }
  destruct (as_string (get_prop depData "path")) as [path|].
  2:{ intros [= <-]. apply grows_refl. }
  destruct (get path (allComponents st)) as [dep|] eqn:Hg.
  - intros H. apply Hrec in H.
    eapply grows_trans; [apply add_dependency_grows | exact H].
  - destruct (makeComponent E this depData None) as [made|]; [|discriminate].
    assert (G : forall component,
      recurse
        (add_dependency parent (List.length (heap st))
           (mkState (heap st ++ [component])
                    (set path (List.length (heap st)) (allComponents st))))
        depData (List.length (heap st)) = Some st' ->
      grows st st').
    { intros component H. apply Hrec in H.
      eapply grows_trans; [now apply (register_grows st path component)|].
      eapply grows_trans; [apply add_dependency_grows | exact H]. }
    destruct made as [c| |]; [apply G | | apply G].
    intros [= <-]. apply grows_refl.
Qed.

Lemma gatherDependencies_grows fuel : forall st data parent st',
  gatherDependencies E this fuel st data parent = Some st' -> grows st st'.
Proof.
  induction fuel as [|fuel IH]; intros st data parent st' H; [discriminate|].
  simpl in H.
  apply (WalkFacts.for_each_inv
           (gatherEntry E this (gatherDependencies E this fuel) parent)
           (fun _ => True) grows
           (Object_entries (dependencies_of data)) grows_refl grows_trans)
    in H; [tauto | | exact I].
  intros entry st0 st1 _ _ Hb. split; [exact I|].
  eapply gatherEntry_grows; [|exact Hb]. intros st2 d c st3. apply IH.
Qed.

(** An edge that is not skipped is recorded. *)
Lemma gatherEntry_records fuel parent st depName depData path st' :
  parent < List.length (heap st) ->
  is_object depData = true ->
  as_string (get_prop depData "path") = Some path ->
  makeComponent E this depData None <> Some MadeFalse ->
  gatherEntry E this (gatherDependencies E this fuel) parent st (depName, depData)
    = Some st' ->
  exists dep comp,
    get path (allComponents st') = Some dep /\
    nth_error (heap st') parent = Some comp /\
    In dep (c_dependencies comp).
Proof.
  intros Hparent Hobj Hp Hm. unfold gatherEntry. rewrite Hobj, Hp.
  simpl negb. cbv iota.
  assert (G : forall st0 dep,
    parent < List.length (heap st0) ->
    get path (allComponents st0) = Some dep ->
    gatherDependencies E this fuel (add_dependency parent dep st0) depData dep
      = Some st' ->
    exists dep comp,
      get path (allComponents st') = Some dep /\
      nth_error (heap st') parent = Some comp /\
      In dep (c_dependencies comp)).
  { intros st0 dep Hlt Hg H. apply gatherDependencies_grows in H as [[Hk _] Hd].
    destruct (add_dependency_records parent dep st0 Hlt) as [comp [Hc Hin]].
    destruct (Hd parent comp Hc) as [comp' [Hc' Hincl]].
    exists dep, comp'. split; [|split; [exact Hc' | now apply Hincl]].
    apply Hk. exact Hg. }
  destruct (get path (allComponents st)) as [dep|] eqn:Hg.
  - now apply G.
  - destruct (makeComponent E this depData None) as [[c| |]|]; try discriminate;
      try congruence.
    + apply G; cbn [heap allComponents].
      * rewrite length_app. lia.
      * rewrite MakeFacts.get_set. now rewrite str_eqb_refl.
    + apply G; cbn [heap allComponents].
      * rewrite length_app. lia.
      * rewrite MakeFacts.get_set. now rewrite str_eqb_refl.
Qed.

Lemma for_each_app {A S : Type} (body : S -> A -> option S) l1 l2 st :
  for_each body (l1 ++ l2) st =
  match for_each body l1 st with
  | Some st1 => for_each body l2 st1
  | None => None
  end.
Proof.
  revert st. induction l1 as [|x l1 IH]; intros st; simpl; [reflexivity|].
  destruct (body st x); auto.
Qed.

Lemma for_each_grows fuel parent l : forall st st',
  for_each (gatherEntry E this (gatherDependencies E this fuel) parent) l st
    = Some st' ->
  grows st st'.
Proof.
  intros st st' H.
  apply (WalkFacts.for_each_inv
           (gatherEntry E this (gatherDependencies E this fuel) parent)
           (fun _ => True) grows l grows_refl grows_trans)
    in H; [tauto | | exact I].
  intros entry st0 st1 _ _ Hb. split; [exact I|].
  eapply gatherEntry_grows; [|exact Hb]. intros st2 d c st3.
  apply gatherDependencies_grows.
Qed.

(** The walk keeps the edges closed. *)
Lemma closed_add_dependency owner dep st :
  edges_closed (heap st) -> dep < List.length (heap st) ->
  edges_closed (heap (add_dependency owner dep st)).
Proof.
  unfold edges_closed, add_dependency. cbn [heap]. intros H Hd.
  rewrite update_nth_length. apply Forall_update_nth; [|exact H].
  intros c [H1 H2]. cbn [c_dependencies set_dependencies]. split.
  - now apply set_add_NoDup.
  - intros d Hin. apply BuildFacts.set_add_In in Hin as [->|Hin]; auto.
Qed.

Lemma closed_register h component :
  edges_closed h -> c_dependencies component = [] ->
  edges_closed (h ++ [component]).
Proof.
  unfold edges_closed. intros H Hc. rewrite length_app. apply Forall_app. split.
  - eapply Forall_impl; [|exact H]. intros c [H1 H2]. split; [exact H1|].
    intros d Hd. specialize (H2 d Hd). lia.
  - constructor; [|constructor]. rewrite Hc. split; [constructor | intros d []].
Qed.

Lemma get_in_range st path dep :
  walk_inv st -> get path (allComponents st) = Some dep ->
  dep < List.length (heap st).
Proof.
  intros [_ [Hv _]] Hg. apply get_In in Hg.
  assert (Hin : In dep (values (allComponents st))).
  { change dep with (snd (path, dep)). now apply in_map. }
  rewrite Hv in Hin. apply in_seq in Hin. lia.
Qed.

Lemma gatherDependencies_closed fuel : forall st data parent st',
  walk_inv st -> edges_closed (heap st) ->
  gatherDependencies E this fuel st data parent = Some st' ->
  walk_inv st' /\ edges_closed (heap st').
Proof.
  induction fuel as [|fuel IH]; intros st data parent st' Hi Hc H; [discriminate|].
  simpl in H.
  apply (WalkFacts.for_each_inv
           (gatherEntry E this (gatherDependencies E this fuel) parent)
           (fun st => walk_inv st /\ edges_closed (heap st)) (fun _ _ => True)
           (Object_entries (dependencies_of data))) in H; auto; [tauto|].
  clear st st' Hi Hc H. intros [depName depData] st st' _ [Hi Hc] Hb.
  split; [|exact I]. revert Hb. unfold gatherEntry.
  destruct (is_object depData); simpl negb; cbv iota; [|intros [= <-]; auto].
  destruct (as_string (get_prop depData "path")) as [path|]; [|intros [= <-]; auto].
  destruct (get path (allComponents st)) as [dep|] eqn:Hg.
  - apply IH.
    + now apply WalkFacts.add_dependency_inv.
    + apply closed_add_dependency; [assumption|]. eapply get_in_range; eauto.
  - destruct (makeComponent E this depData None) as [made|] eqn:Hm; [|discriminate].
    assert (G : forall component,
      c_components component = [] /\ c_bomRef component <> None ->
      c_dependencies component = [] ->
      gatherDependencies E this fuel
        (add_dependency parent (List.length (heap st))
           (mkState (heap st ++ [component])
                    (set path (List.length (heap st)) (allComponents st))))
        depData (List.length (heap st)) = Some st' ->
      walk_inv st' /\ edges_closed (heap st')).
    { intros component Hfresh Hdeps. apply IH.
      - now apply WalkFacts.add_dependency_inv, WalkFacts.register_inv.
      - apply closed_add_dependency; cbn [heap].
        + now apply closed_register.
        + rewrite length_app. simpl. lia. }
    destruct made as [c| |].
    + apply G; [|eapply makeComponent_no_edges; eauto].
      apply (WalkFacts.makeComponent_fresh E this) in Hm. tauto.
    + intros [= <-]. auto.
    + apply G; [apply WalkFacts.dummy_fresh | reflexivity].
Qed.

(** Every direct dependency that is not skipped is recorded. *)
Lemma gatherDependencies_records fuel st st' data parent depName path depData :
  parent < List.length (heap st) ->
  gatherDependencies E this fuel st data parent = Some st' ->
  In (depName, depData) (Object_entries (dependencies_of data)) ->
  is_object depData = true ->
  as_string (get_prop depData "path") = Some path ->
  makeComponent E this depData None <> Some MadeFalse ->
  exists dep comp,
    get path (allComponents st') = Some dep /\
    nth_error (heap st') parent = Some comp /\
    In dep (c_dependencies comp).
Proof.
  intros Hparent Hw Hin Hobj Hp Hm.
  destruct fuel as [|fuel]; [discriminate|]. simpl in Hw.
  apply in_split in Hin as [l1 [l2 Hl]]. rewrite Hl in Hw.
  rewrite for_each_app in Hw.
  destruct (for_each _ l1 st) as [sa|] eqn:Ha; [|discriminate].
  cbn [for_each] in Hw.
  destruct (gatherEntry E this _ parent sa (depName, depData))
    as [sb|] eqn:Hb; [|discriminate].
  apply for_each_grows in Ha. apply for_each_grows in Hw.
  assert (Hparent' : parent < List.length (heap sa)).
  { apply grows_length in Ha. lia. }
  destruct (gatherEntry_records fuel parent sa depName depData
              path sb Hparent' Hobj Hp Hm Hb) as [dep [comp [Hg [Hc Hd]]]].
  destruct Hw as [[Hk _] Hdeps].
  destruct (Hdeps parent comp Hc) as [comp' [Hc' Hincl]].
  exists dep, comp'. split; [now apply Hk|]. split; [exact Hc' | now apply Hincl].
Qed.

End WithCollaborators.
End EdgeFacts.

(** C1. When the path of a child entry is already a key of the component
    map, the walk takes the component registered there, without looking
    at the rest of the child record: it registers nothing, adds the edge
    from the parent to that component (to the dependencies of the parent
    and of no other component, and changing nothing else of a component)
    and walks on into the entry.  The walk keeps every path it has
    registered on the component it was registered with.  When the walk of
    [buildFromNpmLs] returns, each path is the key of one component of the
    heap, different paths of different components, the root path of the
    root component, and the path of every direct dependency of the root
    that is installed and not skipped is a key, of a component that is
    among the dependencies of the root component.  The walk returns for
    every raw tree whose root carries a string path when
    [normalizePackageData] throws on no record. *)
Theorem C1_one_component_per_path (E : Collaborators) (this : BomBuilderOptions) :
  (forall recurse directDepRefs st depName depData path dep,
     is_object depData = true ->
     as_string (get_prop depData "path") = Some path ->
     JsMap.get path (allComponents st) = Some dep ->
     BomBuilder.gatherEntry E this recurse directDepRefs st (depName, depData)
       = recurse (BomBuilder.add_dependency directDepRefs dep st) depData dep /\
     allComponents (BomBuilder.add_dependency directDepRefs dep st)
       = allComponents st /\
     List.length (heap (BomBuilder.add_dependency directDepRefs dep st))
       = List.length (heap st) /\
     (forall i c, nth_error (heap st) i = Some c ->
        exists c',
          nth_error (heap (BomBuilder.add_dependency directDepRefs dep st)) i
            = Some c' /\
          set_dependencies [] c' = set_dependencies [] c /\
          (forall d, In d (c_dependencies c') <->
                     (i = directDepRefs /\ d = dep) \/ In d (c_dependencies c)) /\
          (NoDup (c_dependencies c) -> NoDup (c_dependencies c')))) /\
  (forall fuel st data directDepRefs st',
     walk_inv st ->
     BomBuilder.gatherDependencies E this fuel st data directDepRefs = Some st' ->
     walk_inv st' /\ extends st st') /\
  (forall data rootPath st,
     BomBuilder.walk E this data = Some (rootPath, st) ->
     as_string (get_prop data "path") = Some rootPath /\
     JsMap.get rootPath (allComponents st) = Some 0 /\
     NoDup (JsMap.keys (allComponents st)) /\
     NoDup (JsMap.values (allComponents st)) /\
     (forall p c, JsMap.get p (allComponents st) = Some c ->
                  c < List.length (heap st)) /\
     (forall depName depData path,
        In (depName, depData)
           (Object_entries (BomBuilder.dependencies_of data)) ->
        is_object depData = true ->
        as_string (get_prop depData "path") = Some path ->
        BomBuilder.makeComponent E this depData None <> Some MadeFalse ->
        exists dep root,
          JsMap.get path (allComponents st) = Some dep /\
          nth_error (heap st) 0 = Some root /\
          In dep (c_dependencies root))) /\
  (forall data rootPath,
     (forall d, normalizePackageData E d <> None) ->
     as_string (get_prop data "path") = Some rootPath ->
     exists st, BomBuilder.walk E this data = Some (rootPath, st)).
Proof.
  split; [|split; [|split]].
  - intros recurse parent st depName depData path dep Hobj Hp Hg.
    split; [|split; [|split]].
    + unfold BomBuilder.gatherEntry. now rewrite Hobj, Hp, Hg.
    + reflexivity.
    + unfold BomBuilder.add_dependency. cbn [heap]. apply update_nth_length.
    + intros i c H. unfold BomBuilder.add_dependency. cbn [heap].
      rewrite (nth_error_update_nth parent i _ _ c H).
      eexists. split; [reflexivity|].
      destruct (parent =? i) eqn:Ei.
      * apply Nat.eqb_eq in Ei. subst i.
        cbn [c_dependencies set_dependencies]. split; [reflexivity|]. split.
        -- intros d. rewrite BuildFacts.set_add_In. tauto.
        -- apply EdgeFacts.set_add_NoDup.
      * apply Nat.eqb_neq in Ei. split; [reflexivity|]. split; [|tauto].
        intros d. split; [tauto|]. intros [[Hi _]|Hd]; [congruence | exact Hd].
  - intros fuel st data parent st'. apply WalkFacts.gatherDependencies_inv.
  - intros data rootPath st. unfold BomBuilder.walk.
    destruct (as_string (get_prop data "path")) as [p|] eqn:Hp; [|discriminate].
    destruct (BomBuilder.makeComponent E this data (Some (metaComponentType this)))
      as [made|] eqn:Hm; [|discriminate].
    set (root := match made with
                 | MadeComponent c => c
                 | _ => DummyComponent (metaComponentType this) (s "RootComponent")
                 end).
    set (st0 := mkState [root] [(p, 0)]).
    destruct (BomBuilder.gatherDependencies E this (S (json_depth data)) st0 data 0)
      as [st'|] eqn:Hst; [|discriminate].
    intros [= <- <-]. split; [reflexivity|].
    assert (Hi0 : walk_inv st0).
    { unfold walk_inv, st0. simpl. repeat split.
      - repeat constructor. simpl. tauto.
      - repeat constructor.
        + unfold root. destruct made; try reflexivity.
          apply (WalkFacts.makeComponent_fresh E this _ _ _ Hm).
        + unfold root. destruct made; try discriminate.
          apply (WalkFacts.makeComponent_fresh E this _ _ _ Hm). }
    destruct (WalkFacts.gatherDependencies_inv E this _ _ _ _ _ Hi0 Hst)
      as [[H1 [H2 H3]] [Hx _]].
    split; [|split; [exact H1|split; [|split]]].
    + apply Hx. unfold st0. simpl. now rewrite str_eqb_refl.
    + rewrite H2. apply seq_NoDup.
    + intros q c Hg. apply JsMapFacts.get_In in Hg.
      assert (Hin : In c (JsMap.values (allComponents st'))).
      { change c with (snd (q, c)). now apply in_map. }
      rewrite H2 in Hin. apply in_seq in Hin. lia.
    + intros depName depData path Hin Hobj Hpath Hnot.
      apply (EdgeFacts.gatherDependencies_records E this
               (S (json_depth data)) st0 st' data 0 depName path depData); auto.
  - intros data rootPath Hnorm Hp.
    apply (BuildFacts.walk_total E this data rootPath Hnorm Hp).
Qed.

Lemma C1_witness :
  exists st,
    BomBuilder.walk demo (options [] false) ex_dedup = Some (s "/proj", st) /\
    JsMap.keys (allComponents st) =
      [s "/proj"; s "/proj/node_modules/a"; s "/proj/node_modules/c";
       s "/proj/node_modules/d"] /\
    JsMap.values (allComponents st) = [0; 1; 2; 3] /\
    map c_dependencies (heap st) = [[1; 2]; [2]; [3]; []] /\
    NoDup (JsMap.keys (allComponents st)) /\
    NoDup (JsMap.values (allComponents st)) /\
    (exists dep root,
       JsMap.get (s "/proj/node_modules/c") (allComponents st) = Some dep /\
       nth_error (heap st) 0 = Some root /\ In dep (c_dependencies root)).
Proof.
  destruct (C1_one_component_per_path demo (options [] false)) as [_ [_ [H Ht]]].
  destruct (Ht ex_dedup (s "/proj") ltac:(discriminate) eq_refl) as [st Hw].
  destruct (H ex_dedup (s "/proj") st Hw) as [_ [_ [H3 [H4 [_ H6]]]]].
  exists st. split; [exact Hw|].
  assert (Hc : (JsMap.keys (allComponents st), JsMap.values (allComponents st),
                map c_dependencies (heap st)) =
               ([s "/proj"; s "/proj/node_modules/a"; s "/proj/node_modules/c";
                 s "/proj/node_modules/d"], [0; 1; 2; 3],
                [[1; 2]; [2]; [3]; []])).
  { vm_compute in Hw. injection Hw as <-. reflexivity. }
  injection Hc as Hk Hv Hd.
  split; [exact Hk|]. split; [exact Hv|]. split; [exact Hd|].
  split; [exact H3|]. split; [exact H4|].
  apply (H6 (s "c") (record "c" "3.0.0" "/proj/node_modules/c" []
                       [(s "d", record "d" "4.0.0" "/proj/node_modules/d" [] [])])).
  - right. left. reflexivity.
  - reflexivity.
  - reflexivity.
  - discriminate.
Defined.

(** X12. Every direct dependency the walk looks at and does not skip is
    recorded: when an entry of [dependencies] is an object with a string
    path whose normalization does not give the skip signal, then after
    [gatherDependencies] the path is a key of the component map, and the
    component it maps to is among the dependencies of the parent. *)
Theorem X12_direct_dependency_recorded (E : Collaborators)
    (this : BomBuilderOptions) (fuel : nat) (st st' : State) (data : json)
    (parent : cid) (depName path : jsstring) (depData : json) :
  parent < List.length (heap st) ->
  BomBuilder.gatherDependencies E this fuel st data parent = Some st' ->
  In (depName, depData) (Object_entries (BomBuilder.dependencies_of data)) ->
  is_object depData = true ->
  as_string (get_prop depData "path") = Some path ->
  BomBuilder.makeComponent E this depData None <> Some MadeFalse ->
  exists dep comp,
    JsMap.get path (allComponents st') = Some dep /\
    nth_error (heap st') parent = Some comp /\
    In dep (c_dependencies comp).
Proof.
  intros Hparent Hw Hin Hobj Hp Hm.
  destruct fuel as [|fuel]; [discriminate|]. simpl in Hw.
  apply in_split in Hin as [l1 [l2 Hl]]. rewrite Hl in Hw.
  rewrite EdgeFacts.for_each_app in Hw.
  destruct (BomBuilder.for_each _ l1 st) as [sa|] eqn:Ha; [|discriminate].
  cbn [BomBuilder.for_each] in Hw.
  destruct (BomBuilder.gatherEntry E this _ parent sa (depName, depData))
    as [sb|] eqn:Hb; [|discriminate].
  apply EdgeFacts.for_each_grows in Ha. apply EdgeFacts.for_each_grows in Hw.
  assert (Hparent' : parent < List.length (heap sa)).
  { apply EdgeFacts.grows_length in Ha. lia. }
  destruct (EdgeFacts.gatherEntry_records E this fuel parent sa depName depData
              path sb Hparent' Hobj Hp Hm Hb) as [dep [comp [Hg [Hc Hd]]]].
  destruct Hw as [[Hk _] Hdeps].
  destruct (Hdeps parent comp Hc) as [comp' [Hc' Hincl]].
  exists dep, comp'. split; [now apply Hk|]. split; [exact Hc' | now apply Hincl].
Qed.

Lemma X12_witness :
  exists st' dep comp,
    BomBuilder.gatherDependencies demo (options [] false) 4
      (mkState [DummyComponent Application (s "RootComponent")] [(s "/proj", 0)])
      ex_nested 0 = Some st' /\
    JsMap.get (s "/proj/node_modules/a") (allComponents st') = Some dep /\
    nth_error (heap st') 0 = Some comp /\
    In dep (c_dependencies comp).
Proof.
  destruct (BomBuilder.gatherDependencies demo (options [] false) 4
              (mkState [DummyComponent Application (s "RootComponent")]
                       [(s "/proj", 0)])
              ex_nested 0) as [st'|] eqn:Hw; [|vm_compute in Hw; discriminate].
  destruct (X12_direct_dependency_recorded demo (options [] false) 4
              (mkState [DummyComponent Application (s "RootComponent")]
                       [(s "/proj", 0)])
              st' ex_nested 0 (s "a") (s "/proj/node_modules/a")
              (record "a" "1.0.0" "/proj/node_modules/a" []
                 [(s "b", record "b" "2.0.0" "/proj/node_modules/a/node_modules/b"
                            [] [])]))
    as [dep [comp H]].
  - simpl. lia.
  - exact Hw.
  - simpl. now left.
  - reflexivity.
  - reflexivity.
  - discriminate.
  - exists st', dep, comp. split; [reflexivity | exact H].
Defined.

(** X13. A dependency whose record cannot be built is not dropped: when
    the normalization of an entry with a new path returns [undefined],
    the walk registers for the path a placeholder of type library named
    [DummyComponent.InterferedDependency.<name of the entry>], and that
    component is still there, as it was made, when the edge is done. *)
Theorem X13_broken_dependency_placeholder (E : Collaborators)
    (this : BomBuilderOptions) (fuel : nat) (st st' : State) (parent : cid)
    (depName path : jsstring) (depData : json) :
  is_object depData = true ->
  as_string (get_prop depData "path") = Some path ->
  JsMap.get path (allComponents st) = None ->
  BomBuilder.makeComponent E this depData None = Some MadeUndefined ->
  BomBuilder.gatherEntry E this (BomBuilder.gatherDependencies E this fuel) parent
    st (depName, depData) = Some st' ->
  exists comp,
    JsMap.get path (allComponents st') = Some (List.length (heap st)) /\
    nth_error (heap st') (List.length (heap st)) = Some comp /\
    set_dependencies [] comp =
      DummyComponent Library (s "InterferedDependency." ++ depName) /\
    c_isDummy comp = true /\
    c_name comp = s "DummyComponent.InterferedDependency." ++ depName.
Proof.
  intros Hobj Hp Hg Hm. unfold BomBuilder.gatherEntry.
  rewrite Hobj, Hp, Hg, Hm. simpl negb. cbv iota. intros Hw.
  apply EdgeFacts.gatherDependencies_grows in Hw as [[Hk Hh] _].
  set (dummy := DummyComponent Library (s "InterferedDependency." ++ depName)) in *.
  assert (H0 : exists c0,
            nth_error
              (heap (BomBuilder.add_dependency parent (List.length (heap st))
                       (mkState (heap st ++ [dummy])
                          (JsMap.set path (List.length (heap st))
                             (allComponents st)))))
              (List.length (heap st)) = Some c0 /\
            set_dependencies [] c0 = dummy).
  { unfold BomBuilder.add_dependency. cbn [heap].
    destruct (Nat.eq_dec parent (List.length (heap st))) as [->|Hne].
    - rewrite nth_error_update_nth_same, nth_error_app2, Nat.sub_diag by lia.
      eexists. split; reflexivity.
    - rewrite nth_error_update_nth_other by assumption.
      rewrite nth_error_app2, Nat.sub_diag by lia.
      eexists. split; reflexivity. }
  destruct H0 as [c0 [Hc0 Hd0]].
  destruct (Hh (List.length (heap st)) c0 Hc0) as [comp [Hc He]].
  rewrite Hd0 in He.
  exists comp. split.
  { apply Hk. unfold BomBuilder.add_dependency. cbn [allComponents].
    rewrite MakeFacts.get_set. now rewrite str_eqb_refl. }
  split; [exact Hc|]. split; [exact He|].
  split.
  - apply (f_equal c_isDummy) in He. exact He.
  - apply (f_equal c_name) in He. exact He.
Qed.

Lemma X13_witness :
  exists st' comp,
    BomBuilder.gatherEntry demo (options [] false)
      (BomBuilder.gatherDependencies demo (options [] false) 3) 0
      (mkState [DummyComponent Application (s "RootComponent")] [(s "/proj", 0)])
      (s "a", JObj [(s "path", JStr (s "/proj/node_modules/a"))]) = Some st' /\
    JsMap.get (s "/proj/node_modules/a") (allComponents st') = Some 1 /\
    nth_error (heap st') 1 = Some comp /\
    c_name comp = s "DummyComponent.InterferedDependency.a".
Proof.
  destruct (BomBuilder.gatherEntry demo (options [] false)
              (BomBuilder.gatherDependencies demo (options [] false) 3) 0
              (mkState [DummyComponent Application (s "RootComponent")]
                       [(s "/proj", 0)])
              (s "a", JObj [(s "path", JStr (s "/proj/node_modules/a"))]))
    as [st'|] eqn:Hw; [|vm_compute in Hw; discriminate].
  destruct (X13_broken_dependency_placeholder demo (options [] false) 3
              (mkState [DummyComponent Application (s "RootComponent")]
                       [(s "/proj", 0)])
              st' 0 (s "a") (s "/proj/node_modules/a")
              (JObj [(s "path", JStr (s "/proj/node_modules/a"))])
              eq_refl eq_refl eq_refl eq_refl Hw)
    as [comp [H1 [H2 [_ [_ H5]]]]].
  exists st', comp. auto.
Defined.

(** X14. The walk ignores the entries of [dependencies] that are not
    objects or carry no string [path] (a dependency that was not
    installed): the loop over the entries does what it does over the
    installed ones alone, and over entries none of which is installed it
    leaves the state as it is. *)
Theorem X14_uninstalled_entries_are_ignored (E : Collaborators)
    (this : BomBuilderOptions)
    (recurse : State -> json -> cid -> option State) (parent : cid)
    (l : list (jsstring * json)) (st : State) :
  BomBuilder.for_each (BomBuilder.gatherEntry E this recurse parent) l st =
  BomBuilder.for_each (BomBuilder.gatherEntry E this recurse parent)
    (filter installed l) st /\
  (filter installed l = [] ->
   BomBuilder.for_each (BomBuilder.gatherEntry E this recurse parent) l st
   = Some st).
Proof.
  assert (H : BomBuilder.for_each (BomBuilder.gatherEntry E this recurse parent) l st =
              BomBuilder.for_each (BomBuilder.gatherEntry E this recurse parent)
                (filter installed l) st).
  { revert st. induction l as [|[depName depData] l IH]; intros st; [reflexivity|].
    cbn [filter]. unfold installed at 1. cbn [snd].
    destruct (is_object depData) eqn:Hobj.
    - destruct (as_string (get_prop depData "path")) as [path|] eqn:Hp.
      + cbn [andb BomBuilder.for_each].
        destruct (BomBuilder.gatherEntry E this recurse parent st (depName, depData));
          auto.
      + cbn [andb BomBuilder.for_each]. unfold BomBuilder.gatherEntry at 1.
        rewrite Hobj, Hp. simpl negb. cbv iota. apply IH.
    - cbn [andb BomBuilder.for_each]. unfold BomBuilder.gatherEntry at 1.
      rewrite Hobj. simpl negb. cbv iota. apply IH. }
  split; [exact H|]. intros Hnil. rewrite H, Hnil. reflexivity.
Qed.

Lemma X14_witness :
  BomBuilder.for_each
    (BomBuilder.gatherEntry demo (options [] false)
       (BomBuilder.gatherDependencies demo (options [] false) 3) 0)
    [(s "gone", JObj [(s "name", JStr (s "gone"))]); (s "n", JNull)]
    (mkState [DummyComponent Application (s "RootComponent")] [(s "/proj", 0)])
  = Some (mkState [DummyComponent Application (s "RootComponent")]
                  [(s "/proj", 0)]).
Proof.
  apply (X14_uninstalled_entries_are_ignored demo (options [] false)
           (BomBuilder.gatherDependencies demo (options [] false) 3) 0
           [(s "gone", JObj [(s "name", JStr (s "gone"))]); (s "n", JNull)]).
  reflexivity.
Defined.

(** * More about the assembly *)

Module FrameFacts.
Import JsMap JsMapFacts BomBuilder ForestFacts.

Lemma same_length {B : Type} (f g : Component -> B) (h h' : Heap) :
  (forall i, option_map f (nth_error h' i) = option_map g (nth_error h i)) ->
  List.length h' = List.length h.
Proof.
  intros H.
  destruct (Nat.lt_trichotomy (List.length h') (List.length h)) as [Hlt|[He|Hgt]];
    [|exact He|].
  - exfalso. specialize (H (List.length h')).
    assert (E1 : nth_error h' (List.length h') = None) by (apply nth_error_None; lia).
    destruct (nth_error h (List.length h')) eqn:E2.
    + rewrite E1 in H. discriminate.
    + apply nth_error_None in E2. lia.
  - exfalso. specialize (H (List.length h)).
    assert (E1 : nth_error h (List.length h) = None) by (apply nth_error_None; lia).
    destruct (nth_error h' (List.length h)) eqn:E2.
    + rewrite E1 in H. discriminate.
    + apply nth_error_None in E2. lia.
Qed.

Lemma same_but_nesting_refl h : same_but_nesting h h.
Proof. intros i. reflexivity. Qed.

(** [nestComponents] only writes nested components, whatever the trie. *)
Lemma nestComponents_same all : forall tree h,
  same_but_nesting h (fst (nestComponents all tree h)).
Proof.
  intros tree. induction tree as [m IH] using PTree_ind'. intros h.
  rewrite nestComponents_unfold.
  assert (G : forall m', incl m' m -> forall acc,
            same_but_nesting (fst acc) (fst (fold_left (nest_step all) m' acc))).
  { induction m' as [|[k sub] m' IHm]; intros Hincl acc; [apply same_but_nesting_refl|].
    cbn [fold_left].
    eapply same_but_nesting_trans; [|apply IHm; intros e He; apply Hincl; now right].
    destruct acc as [h0 children]. unfold nest_step. cbn [fst].
    assert (Hsub := IH k sub (Hincl _ (or_introl eq_refl)) h0).
    destruct (nestComponents all sub h0) as [h1 components]. cbn [fst] in Hsub.
    destruct (get k all) as [component|]; cbn [fst]; [|exact Hsub].
    eapply same_but_nesting_trans; [exact Hsub | apply same_but_nesting_update]. }
  apply (G m (incl_refl m) (h, [])).
Qed.

(** [adjustNestedBomRefs] only writes reference tokens, whatever the
    heap. *)
Lemma adjust_same fuel : forall h c pref h',
  adjustNestedBomRefs fuel h c pref = Some h' -> same_but_ref h h'.
Proof.
  induction fuel as [|fuel IH]; intros h c pref h'; [discriminate|].
  simpl. destruct (nth_error h c) as [comp|]; [|discriminate].
  destruct (c_bomRef comp) as [value|]; [|intros [= <-]; apply same_but_ref_refl].
  intros H.
  eapply same_but_ref_trans; [apply same_but_ref_update|].
  apply (WalkFacts.for_each_inv
           (fun h c' => adjustNestedBomRefs fuel h c' ((pref ++ value) ++ s "|"))
           (fun _ => True) same_but_ref (c_components comp)
           same_but_ref_refl same_but_ref_trans) in H;
    [exact (proj2 H) | | exact I].
  intros c' h0 h1 _ _ Hb. split; [exact I|]. eapply IH, Hb.
Qed.

Lemma adjustAll_same fuel components h h' :
  adjustAll fuel components h = Some h' -> same_but_ref h h'.
Proof.
  unfold adjustAll. intros H.
  apply (WalkFacts.for_each_inv
           (fun h c => adjustNestedBomRefs fuel h c [])
           (fun _ => True) same_but_ref components
           same_but_ref_refl same_but_ref_trans) in H; [tauto | | exact I].
  intros c' h0 h1 _ _ Hb. split; [exact I|]. eapply adjust_same, Hb.
Qed.

Section WithCollaborators.
Variable E : Collaborators.
Variable this : BomBuilderOptions.

(** After [finalizePathProperties], a build only writes nested components
    and reference tokens. *)
Lemma build_frame {A : Type} (f : Component -> A) data rootPath st1 h bom :
  (forall v c, f (set_components v c) = f c) ->
  (forall v c, f (set_bomRef v c) = f c) ->
  walk E this data = Some (rootPath, st1) ->
  buildFromNpmLs E this data = Some (h, bom) ->
  forall i,
    option_map f (nth_error h i) =
    option_map f
      (nth_error (finalizePathProperties E rootPath (values (allComponents st1))
                    (heap st1)) i).
Proof.
  intros Hf1 Hf2 Hw. unfold buildFromNpmLs, buildNested. rewrite Hw.
  set (h2 := finalizePathProperties E rootPath (values (allComponents st1)) (heap st1)).
  destruct (TreeBuilder.fromPaths _ _) as [tree|]; [|discriminate].
  assert (H3 := nestComponents_same
                  (filter (fun e => negb (snd e =? 0)) (allComponents st1)) tree h2).
  destruct (nestComponents _ tree h2) as [h3 components]. cbn [fst] in H3.
  destruct (adjustAll _ components h3) as [h4|] eqn:H4; [|discriminate].
  apply adjustAll_same in H4.
  assert (H5 : forall i,
            option_map f (nth_error (update_nth 0 (set_components []) h4) i) =
            option_map f (nth_error h2 i)).
  { intros i. rewrite BuildFacts.update_components_proj by assumption.
    rewrite (BuildFacts.same_but_ref_proj f h3 h4 i) by assumption.
    now apply BuildFacts.same_but_nesting_proj. }
  destruct (flattenComponents this).
  - destruct (BuildFacts.flatten_all (allComponents st1)
                (update_nth 0 (set_components []) h4) components)
      as [h' [comps' [Hfl [_ [Hsb _]]]]].
    rewrite Hfl. intros [= <- <-] i.
    rewrite (BuildFacts.same_but_nesting_proj f _ h' i Hf1 Hsb).
    apply H5.
  - intros [= <- <-]. exact H5.
Qed.

Lemma build_keeps {A : Type} (f : Component -> A) data rootPath st1 h bom :
  (forall v c, f (set_properties v c) = f c) ->
  (forall v c, f (set_components v c) = f c) ->
  (forall v c, f (set_bomRef v c) = f c) ->
  walk E this data = Some (rootPath, st1) ->
  buildFromNpmLs E this data = Some (h, bom) ->
  forall i, option_map f (nth_error h i) = option_map f (nth_error (heap st1) i).
Proof.
  intros Hf0 Hf1 Hf2 Hw Hb i.
  rewrite (build_frame f data rootPath st1 h bom Hf1 Hf2 Hw Hb i).
  apply BuildFacts.same_but_properties_proj; [assumption|].
  apply finalize_same.
Qed.

(** The state the walk of [buildFromNpmLs] starts from. *)
Lemma walk_closed data rootPath st1 :
  walk E this data = Some (rootPath, st1) ->
  walk_inv st1 /\ edges_closed (heap st1).
Proof.
  unfold walk. destruct (as_string (get_prop data "path")) as [p|]; [|discriminate].
  destruct (makeComponent E this data _) as [made|] eqn:Hm; [|discriminate].
  destruct (gatherDependencies E this _ _ data 0) as [st|] eqn:Hg; [|discriminate].
  intros [= <- <-].
  apply (EdgeFacts.gatherDependencies_closed E this) in Hg; [exact Hg| |].
  - unfold walk_inv. cbn [heap allComponents]. split; [|split].
    + repeat constructor. simpl. tauto.
    + reflexivity.
    + repeat constructor.
      * destruct made; try reflexivity.
        apply (WalkFacts.makeComponent_fresh E this _ _ _ Hm).
      * destruct made; try discriminate.
        apply (WalkFacts.makeComponent_fresh E this _ _ _ Hm).
  - cbn [heap]. unfold edges_closed. constructor; [|constructor].
    assert (Hd : c_dependencies
                   match made with
                   | MadeComponent c => c
                   | _ => DummyComponent (metaComponentType this) (s "RootComponent")
                   end = []).
    { destruct made; try reflexivity.
      apply (EdgeFacts.makeComponent_no_edges E this _ _ _ Hm). }
    rewrite Hd. split; [constructor | intros d []].
Qed.

End WithCollaborators.
End FrameFacts.

(** X16. The assembly never changes what a component is: when the walk of
    the build returns, [buildFromNpmLs] returns a document, in either mode,
    in which every component has the type, name, group, version,
    description, scope, external references and package URL, the
    dependencies and the properties other than the install path that it
    had when the walk was done. *)
Theorem X16_assembly_keeps_components (E : Collaborators)
    (this : BomBuilderOptions) (data : json) (rootPath : jsstring)
    (st1 : State) :
  BomBuilder.walk E this data = Some (rootPath, st1) ->
  exists h bom,
    BomBuilder.buildFromNpmLs E this data = Some (h, bom) /\
    List.length h = List.length (heap st1) /\
    forall i,
      option_map (fun c => (core c, c_dependencies c, other_properties c))
                 (nth_error h i) =
      option_map (fun c => (core c, c_dependencies c, other_properties c))
                 (nth_error (heap st1) i).
Proof.
  intros Hw.
  destruct (BuildFacts.buildFromNpmLs_spec E this data rootPath st1 Hw)
    as [h0 [all [c0 [h [bom [_ [Hb _]]]]]]].
  exists h, bom. split; [exact Hb|].
  assert (Hk := FrameFacts.build_keeps E this
                  (fun c => (core c, c_dependencies c)) data rootPath st1 h bom
                  (fun _ _ => eq_refl) (fun _ _ => eq_refl) (fun _ _ => eq_refl)
                  Hw Hb).
  split.
  { apply (FrameFacts.same_length (fun c => (core c, c_dependencies c))
             (fun c => (core c, c_dependencies c))). exact Hk. }
  intros i.
  assert (Ho := FrameFacts.build_frame E this other_properties data rootPath st1 h bom
                  (fun _ _ => eq_refl) (fun _ _ => eq_refl) Hw Hb i).
  specialize (Hk i).
  destruct (nth_error (heap st1) i) as [c1|] eqn:E1.
  - destruct (PathFacts.finalize_keeps_other E rootPath (JsMap.values (allComponents st1)) (heap st1) i c1 E1)
      as [c2 [E2 H2]].
    rewrite E2 in Ho. destruct (nth_error h i) as [c|]; [|discriminate].
    cbn [option_map] in *. injection Ho as Ho.
    assert (Hk' : (core c, c_dependencies c) = (core c1, c_dependencies c1))
      by congruence.
    f_equal. f_equal; [exact Hk' | congruence].
  - destruct (nth_error h i); [discriminate | reflexivity].
Qed.

Lemma X16_witness :
  exists st1 h bom,
    BomBuilder.walk demo (options [] true) ex_nested = Some (s "/proj", st1) /\
    BomBuilder.buildFromNpmLs demo (options [] true) ex_nested = Some (h, bom) /\
    List.length h = List.length (heap st1) /\
    map (fun c => (c_name c, c_dependencies c)) h =
    map (fun c => (c_name c, c_dependencies c)) (heap st1).
Proof.
  destruct (BomBuilder.walk demo (options [] true) ex_nested)
    as [[r st1]|] eqn:Hw; [|vm_compute in Hw; discriminate].
  destruct (X16_assembly_keeps_components demo (options [] true) ex_nested r st1 Hw)
    as [h [bom [H2 [H3 _]]]].
  assert (Hv := Hw). vm_compute in Hv. injection Hv as <- <-.
  eexists _, h, bom. split; [reflexivity|]. split; [exact H2|].
  split; [exact H3|].
  vm_compute in H2. injection H2 as <- _. reflexivity.
Defined.

Module NestFacts.
Import JsMap JsMapFacts BomBuilder ForestFacts.

Lemma get_filter {V : Type} (p : jsstring * V -> bool) (m : JsMap.t V) k v :
  NoDup (keys m) -> In (k, v) m ->
  get k (filter p m) = if p (k, v) then Some v else None.
Proof.
  intros Hnd Hin. destruct (p (k, v)) eqn:Hp.
  - apply In_get.
    + unfold keys. now apply NoDup_map_filter.
    + apply filter_In. auto.
  - apply get_None. intros Hk. apply in_map_iff in Hk as [[k' v'] [Ek Hk]].
    simpl in Ek. subst k'. apply filter_In in Hk as [Hk Hp'].
    assert (v' = v).
    { apply (In_get _ _ _ Hnd) in Hk. apply (In_get _ _ _ Hnd) in Hin. congruence. }
    subst. congruence.
Qed.

Lemma get_nonRoot all k c :
  NoDup (keys all) -> get k (nonRoot all) = Some c -> get k all = Some c.
Proof.
  intros Hnd H. apply get_In in H. unfold nonRoot in H.
  apply filter_In in H as [H _]. now apply In_get.
Qed.

(** The components of the keys of a map, the root left out, are the values
    of the map without the root. *)
Lemma cids_of_all_keys all :
  NoDup (keys all) ->
  cids_of_keys (nonRoot all) (keys all)
  = filter (fun c => negb (c =? 0)) (values all).
Proof.
  intros Hnd. unfold cids_of_keys, keys, values.
  assert (G : forall l, incl l all ->
            flat_map (fun k => match get k (nonRoot all) with
                               | Some c => [c]
                               | None => []
                               end) (map fst l)
            = filter (fun c => negb (c =? 0)) (map snd l)).
  { induction l as [|[k v] l IH]; intros Hl; [reflexivity|].
    cbn [map flat_map filter fst snd].
    rewrite IH by (intros e He; apply Hl; now right).
    unfold nonRoot. rewrite (get_filter _ all k v Hnd (Hl _ (or_introl eq_refl))).
    cbn [snd]. now destruct (negb (v =? 0)). }
  apply G, incl_refl.
Qed.

Lemma filter_seq_nonzero n :
  filter (fun c => negb (c =? 0)) (seq 0 n) = seq 1 (n - 1).
Proof.
  destruct n as [|n]; [reflexivity|]. cbn [seq filter Nat.eqb negb].
  rewrite Nat.sub_succ, Nat.sub_0_r.
  apply forallb_filter_id. apply forallb_forall. intros x Hx.
  apply in_seq in Hx. apply negb_true_iff, Nat.eqb_neq. lia.
Qed.

(** With pairwise different paths that do not end with the separator, the
    trie has the paths as its keys. *)
Lemma fromPaths_allkeys paths c t :
  NoDup paths ->
  forallb (fun p => negb (endsWith p [c])) paths = true ->
  TreeBuilder.fromPaths paths [c] = Some t ->
  Permutation (allkeys t) paths.
Proof.
  intros Hd He Ht. apply TreeFacts.distinct_NoDup in Hd.
  destruct (TreeFacts.fromPaths_fullpaths paths c Hd He) as [n [_ [Hp Hf]]].
  rewrite Hf in Ht. injection Ht as <-.
  rewrite TreeFacts.allkeys_fullpaths, Hp, map_map.
  erewrite map_ext; [rewrite map_id; reflexivity|].
  intros p. apply removelast_last.
Qed.

(** A component is only nested under the component of a node above its
    own node. *)
Lemma nestF_chain all : forall tree t anc c a,
  In t (nestF all tree) -> In (anc, c) (chains [] t) -> In a anc ->
  exists p q, get p all = Some a /\ get q all = Some c /\ nested_under p q tree.
Proof.
  intros tree. induction tree as [m IH] using PTree_ind'.
  intros t anc c a Ht Hin Ha. rewrite nestF_unfold in Ht.
  apply in_flat_map in Ht as [[k sub] [Hm Ht]]. unfold entryF in Ht. cbn [fst snd] in Ht.
  assert (Hlift : forall p q, nested_under p q sub -> nested_under p q (PT m)).
  { intros p q [cp [Hn Hq]]. exists cp. split; [|exact Hq].
    eapply node_below; eauto. }
  destruct (get k all) as [c0|] eqn:Hk.
  - destruct Ht as [<-|[]]. cbn [chains] in Hin. destruct Hin as [E|Hin].
    { injection E as <- <-. destruct Ha. }
    apply in_flat_map in Hin as [t' [Ht' Hin]].
    apply chains_In in Hin as [rel [-> Hin]].
    apply in_app_or in Ha as [[<-|[]]|Ha].
    + destruct (chains_members _ _ _ Hin) as [Hc _].
      assert (Hc' : In c (cids_of_keys all (allkeys sub))).
      { rewrite <- nestF_cids. apply in_flat_map. eauto. }
      apply cids_of_keys_In in Hc' as [q [Hq Hgq]].
      exists k, q. split; [exact Hk|]. split; [exact Hgq|].
      exists sub. split; [now apply node_here | exact Hq].
    + destruct (IH k sub Hm t' rel c a Ht' Hin Ha) as [p [q [H1 [H2 H3]]]].
      exists p, q. auto.
  - destruct (IH k sub Hm t anc c a Ht Hin Ha) as [p [q [H1 [H2 H3]]]].
    exists p, q. auto.
Qed.

(** With pairwise different paths that do not end with the separator, the
    forest holds every component of the map but the root once. *)
Lemma nestF_complete (all : JsMap.t cid) tree c n :
  NoDup (keys all) ->
  values all = seq 0 n ->
  forallb (fun p => negb (endsWith p [c])) (keys all) = true ->
  TreeBuilder.fromPaths (keys all) [c] = Some tree ->
  Permutation (flat_map cids_of (nestF (nonRoot all) tree)) (seq 1 (n - 1)).
Proof.
  intros Hkeys Hvals Hends Htree.
  rewrite nestF_cids.
  assert (Hperm := fromPaths_allkeys _ _ _ Hkeys Hends Htree).
  unfold cids_of_keys. rewrite (Permutation_flat_map _ Hperm).
  fold (cids_of_keys (nonRoot all) (keys all)).
  rewrite cids_of_all_keys by assumption.
  rewrite Hvals, filter_seq_nonzero. reflexivity.
Qed.

End NestFacts.

(** X17. No component is lost in the nested assembly when no install path
    ends with the separator: when the walk of the build returns, the
    build returns a document whose forest holds every component but the
    root exactly once, nested or at the top level. *)
Theorem X17_nested_forest_complete (E : Collaborators)
    (this : BomBuilderOptions) (data : json) (rootPath : jsstring)
    (st1 : State) :
  BomBuilder.walk E this data = Some (rootPath, st1) ->
  flattenComponents this = false ->
  forallb (fun p => negb (endsWith p [separator_of rootPath]))
          (JsMap.keys (allComponents st1)) = true ->
  exists h bom forest,
    BomBuilder.buildFromNpmLs E this data = Some (h, bom) /\
    bom_components bom = map root_of forest /\
    Forall (stored h) forest /\
    Permutation (flat_map cids_of forest) (seq 1 (List.length h - 1)).
Proof.
  intros Hw Hflat Hends.
  destruct (BuildFacts.walk_spec E this data rootPath st1 Hw)
    as [made [root1 [_ [_ [Hi _]]]]].
  destruct (BuildFacts.buildNested_spec E this data rootPath st1 Hw Hi)
    as [h [tree [Htree [Hb [Hl [_ [_ [Hst _]]]]]]]].
  destruct (BuildFacts.buildFromNpmLs_spec E this data rootPath st1 Hw)
    as [h0 [all [c0 [h' [bom [Hb' [Hbuild [_ [_ [_ [Hnest _]]]]]]]]]]].
  rewrite Hb in Hb'. injection Hb' as <- <- <-.
  destruct (Hnest Hflat) as [-> Hcomps].
  exists h, bom, (nestF (nonRoot (allComponents st1)) tree).
  split; [exact Hbuild|]. split; [exact Hcomps|]. split; [exact Hst|].
  destruct Hi as [Hkeys [Hvals _]]. rewrite Hl.
  now apply (NestFacts.nestF_complete _ tree (separator_of rootPath)).
Qed.

Lemma X17_witness :
  exists h bom forest,
    BomBuilder.buildFromNpmLs demo (options [] false) ex_three = Some (h, bom) /\
    bom_components bom = map root_of forest /\
    Permutation (flat_map cids_of forest) [1; 2; 3].
Proof.
  destruct (BomBuilder.walk demo (options [] false) ex_three)
    as [[r st1]|] eqn:Hw; [|vm_compute in Hw; discriminate].
  assert (H := X17_nested_forest_complete demo (options [] false) ex_three r st1
                 Hw eq_refl).
  vm_compute in Hw. injection Hw as <- <-.
  destruct (H eq_refl) as [h [bom [forest [H1 [H2 [_ H4]]]]]].
  exists h, bom, forest. split; [exact H1|]. split; [exact H2|].
  assert (Hl : List.length h = 4).
  { vm_compute in H1. injection H1 as <- _. reflexivity. }
  rewrite Hl in H4. exact H4.
Defined.

(** X18. A component is only ever nested under components whose install
    path starts its own: when the walk of the build returns, for every
    component of the nested forest and every one of its ancestors there,
    the path of the ancestor followed by the separator is a prefix of the
    path of the component followed by the separator. *)
Theorem X18_nested_under_a_path_prefix (E : Collaborators)
    (this : BomBuilderOptions) (data : json) (rootPath : jsstring)
    (st1 : State) :
  BomBuilder.walk E this data = Some (rootPath, st1) ->
  exists h forest,
    BomBuilder.buildNested E this data
      = Some (h, allComponents st1, map root_of forest) /\
    Forall (stored h) forest /\
    forall t anc c a,
      In t forest -> In (anc, c) (chains [] t) -> In a anc ->
      exists p q,
        JsMap.get p (allComponents st1) = Some a /\
        JsMap.get q (allComponents st1) = Some c /\
        startsWith (q ++ [separator_of rootPath]) (p ++ [separator_of rootPath])
          = true.
Proof.
  intros Hw.
  destruct (BuildFacts.walk_spec E this data rootPath st1 Hw)
    as [made [root1 [_ [_ [Hi _]]]]].
  destruct (BuildFacts.buildNested_spec E this data rootPath st1 Hw Hi)
    as [h [tree [Htree [Hb [_ [_ [_ [Hst _]]]]]]]].
  exists h, (nestF (nonRoot (allComponents st1)) tree).
  split; [exact Hb|]. split; [exact Hst|].
  intros t anc c a Ht Hin Ha.
  destruct (NestFacts.nestF_chain _ tree t anc c a Ht Hin Ha)
    as [p [q [H1 [H2 H3]]]].
  destruct Hi as [Hkeys _].
  exists p, q. split; [now apply NestFacts.get_nonRoot|].
  split; [now apply NestFacts.get_nonRoot|].
  eapply TreeFacts.fromPaths_nested_prefix; eauto.
Qed.

Lemma X18_witness :
  exists st1 h forest,
    BomBuilder.walk demo (options [] false) ex_three = Some (s "/proj", st1) /\
    BomBuilder.buildNested demo (options [] false) ex_three
      = Some (h, allComponents st1, map root_of forest) /\
    Forall (stored h) forest /\
    map root_of forest = [1; 3].
Proof.
  destruct (BomBuilder.walk demo (options [] false) ex_three)
    as [[r st1]|] eqn:Hw; [|vm_compute in Hw; discriminate].
  destruct (X18_nested_under_a_path_prefix demo (options [] false) ex_three
              r st1 Hw) as [h [forest [H2 [H3 _]]]].
  assert (Hv := Hw). vm_compute in Hv. injection Hv as <- <-.
  eexists _, h, forest. split; [reflexivity|]. split; [exact H2|].
  split; [exact H3|].
  vm_compute in H2. injection H2 as _ H2. exact (eq_sym H2).
Defined.

(** X15. When the walk of the build returns, [buildFromNpmLs] returns a
    document, in either mode, in which no component lists a dependency
    twice and every dependency edge leads to a component of the document:
    in the flatten mode to the root component or to a member of the list
    of components, and in the nested mode, when no install path ends with
    the separator, to the root component or to a component of the forest
    below the list of components. *)
Theorem X15_dependency_edges_closed (E : Collaborators)
    (this : BomBuilderOptions) (data : json) (rootPath : jsstring)
    (st1 : State) :
  BomBuilder.walk E this data = Some (rootPath, st1) ->
  exists h bom,
    BomBuilder.buildFromNpmLs E this data = Some (h, bom) /\
    edges_closed h /\
    (flattenComponents this = true ->
     forall i c d,
       nth_error h i = Some c -> In d (c_dependencies c) ->
       d = bom_metadata_component bom \/ In d (bom_components bom)) /\
    (flattenComponents this = false ->
     forallb (fun p => negb (endsWith p [separator_of rootPath]))
             (JsMap.keys (allComponents st1)) = true ->
     exists forest,
       bom_components bom = map root_of forest /\
       Forall (stored h) forest /\
       forall i c d,
         nth_error h i = Some c -> In d (c_dependencies c) ->
         d = bom_metadata_component bom \/ In d (flat_map cids_of forest)).
Proof.
  intros Hw.
  destruct (BuildFacts.walk_spec E this data rootPath st1 Hw)
    as [made [root1 [_ [_ [Hi _]]]]].
  destruct (BuildFacts.buildNested_spec E this data rootPath st1 Hw Hi)
    as [h1 [tree [Htree [Hb1 [Hl1 [_ [_ [Hst _]]]]]]]].
  destruct (BuildFacts.buildFromNpmLs_spec E this data rootPath st1 Hw)
    as [h0 [all [c0 [h [bom [Hb0 [Hb [Hroot [Hl [_ [Hnest Hflat]]]]]]]]]]].
  rewrite Hb1 in Hb0. injection Hb0 as <- <- <-.
  exists h, bom. split; [exact Hb|].
  destruct (FrameFacts.walk_closed E this data rootPath st1 Hw) as [_ Hc].
  assert (Hd := FrameFacts.build_keeps E this c_dependencies data rootPath st1 h bom
                  (fun _ _ => eq_refl) (fun _ _ => eq_refl) (fun _ _ => eq_refl)
                  Hw Hb).
  assert (Hlen : List.length h = List.length (heap st1)).
  { apply (FrameFacts.same_length c_dependencies c_dependencies). exact Hd. }
  assert (Hclosed : edges_closed h).
  { unfold edges_closed in *. rewrite Forall_forall in *. intros c Hin.
    apply In_nth_error in Hin as [i Hi']. specialize (Hd i). rewrite Hi' in Hd.
    destruct (nth_error (heap st1) i) as [c1|] eqn:E1; [|discriminate].
    cbn [option_map] in Hd. injection Hd as Hd. rewrite Hlen, Hd.
    apply Hc. eapply nth_error_In, E1. }
  split; [exact Hclosed|].
  assert (Hlt : forall i c d,
            nth_error h i = Some c -> In d (c_dependencies c) ->
            d < List.length h).
  { intros i c d Hn Hin. unfold edges_closed in Hclosed.
    rewrite Forall_forall in Hclosed.
    apply (proj2 (Hclosed c (nth_error_In _ _ Hn))). exact Hin. }
  split.
  - intros Hf i c d Hn Hin. specialize (Hlt i c d Hn Hin).
    destruct (Hflat Hf) as [_ Hmem]. rewrite Hroot.
    destruct d as [|d]; [now left|]. right. apply Hmem. lia.
  - intros Hf Hends. destruct (Hnest Hf) as [-> Hcomps].
    exists (nestF (nonRoot (allComponents st1)) tree).
    split; [exact Hcomps|]. split; [exact Hst|].
    intros i c d Hn Hin. specialize (Hlt i c d Hn Hin). rewrite Hroot.
    destruct d as [|d]; [now left|]. right.
    destruct Hi as [Hkeys [Hvals _]].
    assert (Hperm := NestFacts.nestF_complete _ tree (separator_of rootPath)
                       _ Hkeys Hvals Hends Htree).
    apply (Permutation_in _ (Permutation_sym Hperm)).
    apply in_seq. lia.
Qed.

Lemma X15_witness :
  exists h bom forest,
    BomBuilder.buildFromNpmLs demo (options [] false) ex_dedup = Some (h, bom) /\
    edges_closed h /\
    bom_components bom = map root_of forest /\
    Forall (stored h) forest /\
    map c_dependencies h = [[1; 2]; [2]; [3]; []] /\
    forall i c d,
      nth_error h i = Some c -> In d (c_dependencies c) ->
      d = bom_metadata_component bom \/ In d (flat_map cids_of forest).
Proof.
  destruct (BomBuilder.walk demo (options [] false) ex_dedup)
    as [[r st1]|] eqn:Hw; [|vm_compute in Hw; discriminate].
  destruct (X15_dependency_edges_closed demo (options [] false) ex_dedup r st1 Hw)
    as [h [bom [H1 [H2 [_ H4]]]]].
  vm_compute in Hw. injection Hw as <- <-.
  destruct (H4 eq_refl eq_refl) as [forest [H5 [H6 H7]]].
  exists h, bom, forest. split; [exact H1|]. split; [exact H2|].
  split; [exact H5|]. split; [exact H6|]. split; [|exact H7].
  vm_compute in H1. injection H1 as <- _. reflexivity.
Defined.

(** * More about [TreeBuilder] *)

Module FlatFacts.
Import JsMap JsMapFacts TreeBuilder TreeFacts.

Lemma keys_of_entries_In {V : Type} (es : JsMap.t V) k :
  In k (keys es) -> In k (keys (of_entries es)).
Proof.
  unfold of_entries.
  assert (G : forall acc : JsMap.t V,
            In k (keys acc) \/ In k (keys es) ->
            In k (keys (fold_left (fun m e => set (fst e) (snd e) m) es acc))).
  { induction es as [|[k1 v1] es IH]; intros acc H; simpl in *; [tauto|].
    apply IH. rewrite keys_set.
    destruct (has k1 acc) eqn:Eh.
    - destruct H as [H|[<-|H]]; auto. left. now apply has_true.
    - rewrite in_app_iff. simpl. tauto. }
  intros H. apply G. now right.
Qed.

(** No key of the map starts another one. *)
Definition unrelated (m : JsMap.t PTree) : Prop :=
  forall a b, In a (keys m) -> In b (keys m) -> a <> b -> startsWith b a = false.

Lemma nest_inner_unrelated a m :
  unrelated m -> In a (keys m) -> nest_inner a m = m.
Proof.
  intros Hu Ha. unfold nest_inner.
  assert (G : forall l, incl l m -> fold_left (nest_move a) l m = m).
  { induction l as [|[b bt] l IH]; intros Hl; [reflexivity|].
    cbn [fold_left]. unfold nest_move at 2.
    destruct (str_eqb a b) eqn:Eab; [apply IH; intros e He; apply Hl; now right|].
    rewrite Hu; [apply IH; intros e He; apply Hl; now right | exact Ha | |].
    - change b with (fst (b, bt)). apply in_map, Hl. now left.
    - intros ->. now rewrite str_eqb_refl in Eab. }
  apply G, incl_refl.
Qed.

Lemma nest_outer_unrelated m : unrelated m -> nest_outer m = m.
Proof.
  intros Hu. unfold nest_outer.
  assert (G : forall l, incl l (keys m) ->
            fold_left (fun t a => if has a t then nest_inner a t else t) l m = m).
  { induction l as [|a l IH]; intros Hl; [reflexivity|].
    cbn [fold_left]. destruct (has a m).
    - rewrite nest_inner_unrelated; [|exact Hu | apply Hl; now left].
      apply IH. intros e He. apply Hl. now right.
    - apply IH. intros e He. apply Hl. now right. }
  apply G, incl_refl.
Qed.

Lemma mapM_leaves fuel (m : JsMap.t PTree) :
  (forall k c, In (k, c) m -> c = PT []) ->
  mapM_values (nestPT (S fuel)) m = Some m.
Proof.
  induction m as [|[k c] m IH]; intros H; [reflexivity|].
  cbn [mapM_values]. rewrite IH by (intros k' c' Hin; apply (H k' c'); now right).
  rewrite (H k c) by now left. reflexivity.
Qed.

Lemma nestPT_unfold fuel m :
  nestPT (S fuel) (PT m) =
  if List.length m <? 2 then Some (PT m)
  else option_map PT (mapM_values (nestPT fuel) (nest_outer m)).
Proof. reflexivity. Qed.

End FlatFacts.

(** X19. [nestPT] loses nothing: on the map [fromPaths] starts from it
    returns, whatever the paths are, and in the tree it returns the full
    keys (the keys on the way to a node, concatenated) are pairwise
    different and are exactly the input paths, each followed by the
    separator.  What [fromPaths] may lose, it loses in [renderPR]. *)
Theorem X19_nest_keeps_every_path (paths : list jsstring) (sep : jsstring) :
  exists n,
    TreeBuilder.nested paths sep = Some n /\
    NoDup (fullkeys [] n) /\
    forall K, In K (fullkeys [] n) <-> exists p, In p paths /\ K = p ++ sep.
Proof.
  destruct (TreeFacts.nested_total paths sep) as [n [Hn Hp]].
  exists n. split; [exact Hn|]. split.
  - eapply Permutation_NoDup; [symmetry; exact Hp | apply TreeFacts.leaves_NoDup].
  - intros K. split.
    + intros HK. eapply Permutation_in in HK; [|exact Hp].
      now apply TreeFacts.leaves_fullkeys_form in HK.
    + intros [p [Hin ->]]. eapply Permutation_in; [symmetry; exact Hp|].
      rewrite TreeFacts.leaves_fullkeys. unfold TreeBuilder.leaves. cbn [entries].
      apply FlatFacts.keys_of_entries_In. unfold JsMap.keys. rewrite map_map.
      cbn [fst]. apply in_map_iff. exists p. auto.
Qed.

Lemma X19_witness :
  exists n,
    TreeBuilder.nested [s "/a"; s "/a/y/"; s "/a//a/y"] (s "/") = Some n /\
    In (s "/a/y//") (fullkeys [] n) /\
    In (s "/a//a/y/") (fullkeys [] n).
Proof.
  destruct (X19_nest_keeps_every_path [s "/a"; s "/a/y/"; s "/a//a/y"] (s "/"))
    as [n [H1 [_ H3]]].
  exists n. split; [exact H1|]. split; apply H3.
  - exists (s "/a/y/"). split; [simpl; tauto | reflexivity].
  - exists (s "/a//a/y"). split; [simpl; tauto | reflexivity].
Defined.

(** X20. Paths of which none starts another stay side by side: for
    pairwise different paths that do not end with the separator, when no
    path followed by the separator is a prefix of another path followed
    by the separator, [fromPaths] returns the flat trie with one leaf per
    path, in the order of the paths. *)
Theorem X20_unrelated_paths_stay_flat (paths : list jsstring) (c : ascii) :
  distinct paths = true ->
  forallb (fun p => negb (endsWith p [c])) paths = true ->
  (forall p q, In p paths -> In q paths -> p <> q ->
     startsWith (q ++ [c]) (p ++ [c]) = false) ->
  TreeBuilder.fromPaths paths [c] = Some (PT (map (fun p => (p, PT [])) paths)).
Proof.
  intros Hd He Hu.
  destruct (TreeFacts.fromPaths_fullpaths paths c Hd He) as [n [Hn [_ Hf]]].
  rewrite Hf. f_equal.
  assert (Hnd : NoDup paths) by now apply TreeFacts.distinct_NoDup.
  set (m := map (fun p => (p ++ [c], PT [])) paths).
  assert (Hleaves : TreeBuilder.leaves paths [c] = PT m).
  { unfold TreeBuilder.leaves. f_equal. apply JsMapFacts.of_entries_NoDup.
    unfold m, JsMap.keys. rewrite map_map. cbn [fst].
    apply Injective_map_NoDup; [|assumption].
    intros x y E. now apply app_inj_tail in E as [E _]. }
  assert (Hnested : TreeBuilder.nested paths [c] = Some (PT m)).
  { unfold TreeBuilder.nested. rewrite Hleaves.
    rewrite FlatFacts.nestPT_unfold.
    match goal with
    | |- context [if ?b then _ else _] => destruct b eqn:El; [reflexivity|]
    end.
    rewrite FlatFacts.nest_outer_unrelated.
    - destruct (TreeBuilder.nodes (PT m)) as [|k] eqn:Ek.
      + exfalso. apply Nat.ltb_ge in El. unfold m in *.
        destruct paths as [|p paths']; simpl in *; [lia | discriminate].
      + rewrite FlatFacts.mapM_leaves; [reflexivity|].
        intros k' c' Hin. unfold m in Hin. apply in_map_iff in Hin as [p [E _]].
        now injection E.
    - intros a b Ha Hb Hab. unfold m, JsMap.keys in Ha, Hb.
      rewrite map_map in Ha, Hb. cbn [fst] in Ha, Hb.
      apply in_map_iff in Ha as [p [<- Hp]]. apply in_map_iff in Hb as [q [<- Hq]].
      apply Hu; auto. intros ->. now apply Hab. }
  rewrite Hnested in Hn. injection Hn as <-.
  unfold m. cbn [fullpaths]. rewrite map_map. f_equal.
  apply map_ext. intros p. cbn [fst snd app fullpaths map].
  now rewrite removelast_last.
Qed.

Lemma X20_witness :
  TreeBuilder.fromPaths [s "/proj/node_modules/a"; s "/proj/node_modules/ab"]
    (s "/")
  = Some (PT [(s "/proj/node_modules/a", PT []);
              (s "/proj/node_modules/ab", PT [])]).
Proof.
  apply (X20_unrelated_paths_stay_flat
           [s "/proj/node_modules/a"; s "/proj/node_modules/ab"] "/"%char);
    [reflexivity | reflexivity |].
  intros p q [<-|[<-|[]]] [<-|[<-|[]]] Hne; try reflexivity; congruence.
Defined.

(** * The command line *)

(** X21. [run] asks for evidence of an installation, once the manifest is
    found: it throws [missing evidence] exactly when the project
    directory holds no [npm-shrinkwrap.json] and no [package-lock.json],
    and either holds no [node_modules] or the option
    [--package-lock-only] is set.  With that option a [node_modules]
    directory alone is no evidence.  Without the manifest it throws
    before it looks for anything else. *)
Theorem X21_evidence_of_an_installation (Spec Document Failure : Type)
    (env : Cli.Surroundings Spec Document Failure)
    (options : Cli.CommandOptions) (args : list jsstring) :
  (Cli.existsSync env (Cli.packageFile_of env args) = false <->
   Cli.run env options args
   = Cli.Throw (Cli.MissingManifest (Cli.packageFile_of env args))) /\
  (Cli.existsSync env (Cli.packageFile_of env args) = true ->
   (Cli.run env options args = Cli.Throw Cli.MissingEvidence <->
    Cli.existsSync env
      (Cli.resolve env (Cli.dirname env (Cli.packageFile_of env args))
         (s "npm-shrinkwrap.json")) = false /\
    Cli.existsSync env
      (Cli.resolve env (Cli.dirname env (Cli.packageFile_of env args))
         (s "package-lock.json")) = false /\
    (Cli.packageLockOnly options = true \/
     Cli.existsSync env
       (Cli.resolve env (Cli.dirname env (Cli.packageFile_of env args))
          (s "node_modules")) = false))).
Proof.
  unfold Cli.run. cbv zeta. split.
  - destruct (Cli.existsSync env (Cli.packageFile_of env args)); simpl negb; cbv iota.
    + split; [discriminate|]. intros H. exfalso.
      destruct (negb (Cli.evidence env options _)); [discriminate|].
      destruct (Cli.buildFromProjectDir env _ _ _); [discriminate|].
      destruct (Cli.SpecVersionDict env _); [|discriminate].
      destruct (Cli.validate options); [|discriminate].
      destruct (Cli.validator_validate env _ _ _); discriminate.
    + split; reflexivity.
  - intros ->. simpl negb. cbv iota. unfold Cli.evidence.
    destruct (Cli.existsSync env (Cli.resolve env _ (s "npm-shrinkwrap.json")));
      [|destruct (Cli.existsSync env (Cli.resolve env _ (s "package-lock.json")));
        [|destruct (Cli.packageLockOnly options);
          [|destruct (Cli.existsSync env (Cli.resolve env _ (s "node_modules")))]]];
      simpl negb; simpl andb; cbv iota;
      try (split; [reflexivity | intros _; reflexivity]);
      try (split; [tauto | intros _; reflexivity]);
      (split; [|intros [H1 [H2 [H3|H3]]]; discriminate]);
      intros H; exfalso;
      (destruct (Cli.buildFromProjectDir env _ _ _); [discriminate|]);
      (destruct (Cli.SpecVersionDict env _); [|discriminate]);
      (destruct (Cli.validate options); [|discriminate]);
      destruct (Cli.validator_validate env _ _ _); discriminate.
Qed.

Lemma X21_witness :
  Cli.run (Cli.demo_env [s "/proj/package.json"; s "/proj/node_modules"] Cli.NoErrors)
    (Cli.demo_options true true "-") []
  = Cli.Throw Cli.MissingEvidence.
Proof.
  destruct (X21_evidence_of_an_installation unit unit unit
              (Cli.demo_env [s "/proj/package.json"; s "/proj/node_modules"]
                 Cli.NoErrors)
              (Cli.demo_options true true "-") []) as [_ H].
  apply H; [reflexivity|]. split; [reflexivity|]. split; [reflexivity|].
  left. reflexivity.
Defined.

(** X22. [run] writes the document exactly when it returns the exit code
    of success.  A run that returns has found the manifest and evidence of
    an installation, has built a document and knows the version of the
    specification.  It returns 0 after it has written the serialization of
    that document, to the standard output for the output file [-] and else
    to the output file resolved against the working directory; with
    validation on, the validator has then found no error in that
    serialization, or lacks an optional dependency.  Or it returns 1 and
    has written nothing, which happens only with validation on and a
    validator that reports errors in that serialization.  It never returns
    the exit code 2. *)
Theorem X22_written_exactly_on_success (Spec Document Failure : Type)
    (env : Cli.Surroundings Spec Document Failure)
    (options : Cli.CommandOptions) (args : list jsstring) (code : Z)
    (written : option (Cli.Target * jsstring)) :
  Cli.run env options args = Cli.Exit code written ->
  exists bom spec,
    Cli.existsSync env (Cli.packageFile_of env args) = true /\
    Cli.evidence env options (Cli.dirname env (Cli.packageFile_of env args))
      = true /\
    Cli.buildFromProjectDir env (Cli.ignoreNpmErrors options)
      (mkBomBuilder (Cli.mcType options) (Cli.packageLockOnly options)
         (Cli.omit options) (Cli.outputReproducible options)
         (Cli.flattenComponents options) (Cli.shortPURLs options))
      (Cli.dirname env (Cli.packageFile_of env args)) = inr bom /\
    Cli.SpecVersionDict env (Cli.specVersion options) = Some spec /\
    code <> Cli.ExitCode_INVALID /\
    ((code = Cli.ExitCode_SUCCESS /\
      written =
        Some (if str_eqb (Cli.outputFile options) (s "-") then Cli.ToStdout
              else Cli.ToFile
                     (Cli.resolve env (Cli.cwd env) (Cli.outputFile options)),
              Cli.serialize env (Cli.outputFormat options) spec bom
                (Cli.outputReproducible options)) /\
      (Cli.validate options = true ->
       Cli.validator_validate env (Cli.outputFormat options) spec
         (Cli.serialize env (Cli.outputFormat options) spec bom
            (Cli.outputReproducible options)) = Cli.NoErrors \/
       exists message,
         Cli.validator_validate env (Cli.outputFormat options) spec
           (Cli.serialize env (Cli.outputFormat options) spec bom
              (Cli.outputReproducible options))
         = Cli.MissingOptionalDependency message)) \/
     (code = Cli.ExitCode_FAILURE /\ written = None /\
      Cli.validate options = true /\
      exists details,
        Cli.validator_validate env (Cli.outputFormat options) spec
          (Cli.serialize env (Cli.outputFormat options) spec bom
             (Cli.outputReproducible options))
        = Cli.ValidationErrors details)).
Proof.
  unfold Cli.run. cbv zeta.
  destruct (Cli.existsSync env (Cli.packageFile_of env args)); simpl negb; cbv iota;
    [|discriminate].
  destruct (Cli.evidence env options _); simpl negb; cbv iota; [|discriminate].
  destruct (Cli.buildFromProjectDir env _ _ _) as [err|bom]; [discriminate|].
  destruct (Cli.SpecVersionDict env _) as [spec|]; [|discriminate].
  intros H. exists bom, spec.
  split; [reflexivity|]. split; [reflexivity|]. split; [reflexivity|].
  split; [reflexivity|]. revert H.
  destruct (Cli.validate options) eqn:Hv.
  - destruct (Cli.validator_validate env _ spec _) as [|details|message|err] eqn:Hval;
      [| | |discriminate]; intros [= <- <-]; (split; [discriminate|]).
    + left. split; [reflexivity|]. split; [reflexivity|]. intros _. now left.
    + right. split; [reflexivity|]. split; [reflexivity|]. split; [reflexivity|].
      eauto.
    + left. split; [reflexivity|]. split; [reflexivity|]. intros _. right. eauto.
  - intros [= <- <-]. split; [discriminate|]. left.
    split; [reflexivity|]. split; [reflexivity|]. discriminate.
Qed.

Lemma X22_witness :
  (exists target content,
     Cli.run (Cli.demo_env [s "/proj/package.json"; s "/proj/package-lock.json"]
                Cli.NoErrors)
       (Cli.demo_options false true "bom.json") []
     = Cli.Exit 0%Z (Some (target, content)) /\
     target = Cli.ToFile (s "/proj/bom.json") /\
     content =
       Cli.serialize
         (Cli.demo_env [s "/proj/package.json"; s "/proj/package-lock.json"]
            Cli.NoErrors) Cli.JSON tt tt false) /\
  (Cli.run (Cli.demo_env [s "/proj/package.json"; s "/proj/package-lock.json"]
              (Cli.ValidationErrors (s "not valid")))
     (Cli.demo_options false true "bom.json") []
   = Cli.Exit 1%Z None /\
   exists details,
     Cli.validator_validate
       (Cli.demo_env [s "/proj/package.json"; s "/proj/package-lock.json"]
          (Cli.ValidationErrors (s "not valid"))) Cli.JSON tt
       (Cli.serialize
          (Cli.demo_env [s "/proj/package.json"; s "/proj/package-lock.json"]
             (Cli.ValidationErrors (s "not valid"))) Cli.JSON tt tt false)
     = Cli.ValidationErrors details).
Proof.
  split.
  - exists (Cli.ToFile (s "/proj/bom.json")), (s "{}").
    split; [reflexivity|].
    destruct (X22_written_exactly_on_success unit unit unit
                (Cli.demo_env [s "/proj/package.json"; s "/proj/package-lock.json"]
                   Cli.NoErrors)
                (Cli.demo_options false true "bom.json") [] 0%Z
                (Some (Cli.ToFile (s "/proj/bom.json"), s "{}")) eq_refl)
      as [[] [[] [_ [_ [_ [_ [_ [[_ [Hw _]]|[Hc _]]]]]]]]]; [|discriminate Hc].
    split.
    + exact (f_equal (fun o => match o with
                               | Some (t, _) => t
                               | None => Cli.ToStdout
                               end) Hw).
    + exact (f_equal (fun o => match o with
                               | Some (_, c) => c
                               | None => []
                               end) Hw).
  - split; [reflexivity|].
    destruct (X22_written_exactly_on_success unit unit unit
                (Cli.demo_env [s "/proj/package.json"; s "/proj/package-lock.json"]
                   (Cli.ValidationErrors (s "not valid")))
                (Cli.demo_options false true "bom.json") [] 1%Z None eq_refl)
      as [[] [[] [_ [_ [_ [_ [_ [[Hc _]|[_ [_ [_ Hd]]]]]]]]]]]; [discriminate Hc|].
    exact Hd.
Defined.

(** X23. Validation is skipped without consequence: with the option
    [--no-validate], and with a validator that lacks its optional
    dependency, a run ends as it ends with a validator that finds no
    error. *)
Theorem X23_skipped_validation (Spec Document Failure : Type)
    (env : Cli.Surroundings Spec Document Failure)
    (options : Cli.CommandOptions) (args : list jsstring) :
  Cli.validate options = false \/
  (forall format spec serialized, exists message,
     Cli.validator_validate env format spec serialized
     = Cli.MissingOptionalDependency message) ->
  Cli.run env options args
  = Cli.run (Cli.with_validator (fun _ _ _ => Cli.NoErrors) env) options args.
Proof.
  intros H. unfold Cli.run. cbv zeta.
  change (Cli.packageFile_of (Cli.with_validator (fun _ _ _ => Cli.NoErrors) env) args)
    with (Cli.packageFile_of env args).
  cbn [Cli.with_validator Cli.existsSync Cli.dirname Cli.buildFromProjectDir
       Cli.SpecVersionDict Cli.serialize Cli.validator_validate].
  destruct (negb (Cli.existsSync env _)); [reflexivity|].
  change (Cli.evidence (Cli.with_validator (fun _ _ _ => Cli.NoErrors) env))
    with (Cli.evidence env).
  destruct (negb (Cli.evidence env options _)); [reflexivity|].
  destruct (Cli.buildFromProjectDir env _ _ _) as [err|bom]; [reflexivity|].
  destruct (Cli.SpecVersionDict env _) as [spec|]; [|reflexivity].
  change (Cli.target_of (Cli.with_validator (fun _ _ _ => Cli.NoErrors) env))
    with (Cli.target_of env).
  destruct H as [->|H]; [reflexivity|].
  destruct (Cli.validate options); [|reflexivity].
  destruct (H (Cli.outputFormat options) spec
              (Cli.serialize env (Cli.outputFormat options) spec bom
                 (Cli.outputReproducible options))) as [message ->].
  reflexivity.
Qed.

Lemma X23_witness :
  Cli.run (Cli.demo_env [s "/proj/package.json"; s "/proj/package-lock.json"]
             (Cli.ValidationErrors (s "not valid")))
    (Cli.demo_options false false "-") []
  = Cli.Exit Cli.ExitCode_SUCCESS (Some (Cli.ToStdout, s "{}")).
Proof.
  rewrite (X23_skipped_validation unit unit unit
             (Cli.demo_env [s "/proj/package.json"; s "/proj/package-lock.json"]
                (Cli.ValidationErrors (s "not valid")))
             (Cli.demo_options false false "-") []).
  - reflexivity.
  - left. reflexivity.
Defined.

(** * More about the reference tokens *)

Module TokenFacts.

(** A prefix of tokens is empty or ends with the bar. *)
Definition closed_by_bar (p : jsstring) : Prop := p = [] \/ exists p0, p = p0 ++ [bar].

Lemma chain_prefix_closed h anc : closed_by_bar (chain_prefix h anc).
Proof.
  destruct anc as [|a anc] using rev_ind; [now left|]. right.
  unfold chain_prefix. rewrite flat_map_app. cbn [flat_map].
  exists (flat_map (fun a0 => ref_of h a0 ++ s "|") anc ++ ref_of h a).
  rewrite app_nil_r, <- app_assoc. reflexivity.
Qed.

Lemma after_bar_rev (a b x y : jsstring) :
  ~ In bar a -> ~ In bar b ->
  (x = [] \/ exists x0, x = bar :: x0) -> (y = [] \/ exists y0, y = bar :: y0) ->
  a ++ x = b ++ y -> a = b.
Proof.
  revert b. induction a as [|c a IH]; intros [|d b] Ha Hb Hx Hy E.
  - reflexivity.
  - exfalso. simpl in E. destruct Hx as [->|[x0 ->]]; [discriminate|].
    injection E as <- _. apply Hb. now left.
  - exfalso. simpl in E. destruct Hy as [->|[y0 ->]]; [discriminate|].
    injection E as -> _. apply Ha. now left.
  - simpl in E. injection E as <- E. f_equal.
    apply (IH b); auto; intros Hin; [apply Ha | apply Hb]; now right.
Qed.

(** The own token is what follows the last bar. *)
Lemma own_token_unique (p1 p2 o1 o2 : jsstring) :
  closed_by_bar p1 -> closed_by_bar p2 ->
  ~ In bar o1 -> ~ In bar o2 ->
  p1 ++ o1 = p2 ++ o2 -> o1 = o2.
Proof.
  intros H1 H2 Ho1 Ho2 E.
  apply (f_equal (@rev ascii)) in E. rewrite !rev_app_distr in E.
  assert (Hr : forall p, closed_by_bar p ->
            rev p = [] \/ exists x0, rev p = bar :: x0).
  { intros p [->|[p0 ->]]; [now left|]. right. rewrite rev_app_distr. simpl. eauto. }
  apply after_bar_rev in E; auto.
  - apply (f_equal (@rev ascii)) in E. now rewrite !rev_involutive in E.
  - intros Hin. apply Ho1. now apply in_rev.
  - intros Hin. apply Ho2. now apply in_rev.
Qed.

End TokenFacts.

(** X24. The prefixing keeps tokens apart that were apart: when the walk of
    the build returns, the nested assembly returns a forest that is stored
    in the components, with no component twice, and when the tokens the
    walk gave two components of that forest hold no bar, and the tokens of
    the two differ, then so do their tokens after [adjustNestedBomRefs]
    (the token the walk gave is what follows the last bar). *)
Theorem X24_different_tokens_stay_different (E : Collaborators)
    (this : BomBuilderOptions) (data : json) (rootPath : jsstring)
    (st1 : State) :
  BomBuilder.walk E this data = Some (rootPath, st1) ->
  exists h forest,
    BomBuilder.buildNested E this data
      = Some (h, allComponents st1, map root_of forest) /\
    Forall (stored h) forest /\
    NoDup (flat_map cids_of forest) /\
    forall t1 anc1 c1 t2 anc2 c2,
      In t1 forest -> In (anc1, c1) (chains [] t1) ->
      In t2 forest -> In (anc2, c2) (chains [] t2) ->
      ~ In bar (ref_of (heap st1) c1) -> ~ In bar (ref_of (heap st1) c2) ->
      ref_of (heap st1) c1 <> ref_of (heap st1) c2 ->
      ref_of h c1 <> ref_of h c2.
Proof.
  intros Hw.
  destruct (BuildFacts.walk_spec E this data rootPath st1 Hw)
    as [made [root1 [_ [_ [Hi _]]]]].
  destruct (BuildFacts.buildNested_spec E this data rootPath st1 Hw Hi)
    as [h [tree [_ [Hb [_ [Hnd [_ [Hst [_ [Href _]]]]]]]]]].
  exists h, (nestF (nonRoot (allComponents st1)) tree).
  split; [exact Hb|]. split; [exact Hst|]. split; [exact Hnd|].
  intros t1 anc1 c1 t2 anc2 c2 Ht1 Hin1 Ht2 Hin2 Hb1 Hb2 Hne Heq.
  rewrite (Href t1 anc1 c1 Ht1 Hin1), (Href t2 anc2 c2 Ht2 Hin2) in Heq.
  apply Hne.
  eapply TokenFacts.own_token_unique; eauto using TokenFacts.chain_prefix_closed.
Qed.

Lemma X24_witness :
  exists st1 h forest,
    BomBuilder.walk demo (options [] false) ex_three = Some (s "/proj", st1) /\
    BomBuilder.buildNested demo (options [] false) ex_three
      = Some (h, allComponents st1, map root_of forest) /\
    Forall (stored h) forest /\
    NoDup (flat_map cids_of forest) /\
    map c_bomRef (heap st1) =
      [Some (s "proj@1.0.0"); Some (s "a@1.0.0"); Some (s "b@2.0.0");
       Some (s "c@3.0.0")] /\
    map c_bomRef h =
      [Some (s "proj@1.0.0"); Some (s "a@1.0.0"); Some (s "a@1.0.0|b@2.0.0");
       Some (s "c@3.0.0")].
Proof.
  destruct (BomBuilder.walk demo (options [] false) ex_three)
    as [[r st1]|] eqn:Hw; [|vm_compute in Hw; discriminate].
  destruct (X24_different_tokens_stay_different demo (options [] false) ex_three
              r st1 Hw) as [h [forest [H2 [H3 [H4 _]]]]].
  assert (Hv := Hw). vm_compute in Hv. injection Hv as <- <-.
  eexists _, h, forest. split; [reflexivity|]. split; [exact H2|].
  split; [exact H3|]. split; [exact H4|]. split; [reflexivity|].
  vm_compute in H2. injection H2 as <- _. reflexivity.
Defined.

(** * More about the lock-only mode *)

Module LockOnlyFacts.
Import BomBuilder.

Lemma gatherDependencies_same E E' this :
  (forall data type, makeComponent E this data type
                     = makeComponent E' this data type) ->
  forall fuel st data parent,
    gatherDependencies E this fuel st data parent
    = gatherDependencies E' this fuel st data parent.
Proof.
  intros Hm. induction fuel as [|fuel IH]; intros st data parent; [reflexivity|].
  simpl. apply MakeFacts.for_each_ext. intros st0 [depName depData].
  unfold gatherEntry. rewrite Hm.
  destruct (negb (is_object depData)); [reflexivity|].
  destruct (as_string (get_prop depData "path")); [|reflexivity].
  destruct (JsMap.get j (allComponents st0)); [apply IH|].
  destruct (makeComponent E' this depData None) as [[c| |]|]; auto.
Qed.

End LockOnlyFacts.

(** X25. With the option [packageLockOnly] the builder reads no manifest
    from disk: [makeComponent], and with it the whole walk, give the same
    result whatever [path.isAbsolute], [path.join] and [require] answer:
    the components are made of the records of the listing alone. *)
Theorem X25_lock_only_reads_no_manifest (E : Collaborators)
    (this : BomBuilderOptions)
    (isAbsolute : jsstring -> bool) (join : jsstring -> jsstring -> jsstring)
    (load : jsstring -> option json) :
  packageLockOnly this = true ->
  (forall data type,
     BomBuilder.makeComponent (with_files isAbsolute join load E) this data type
     = BomBuilder.makeComponent E this data type) /\
  (forall data,
     BomBuilder.walk (with_files isAbsolute join load E) this data
     = BomBuilder.walk E this data).
Proof.
  intros Hl.
  assert (Hm : forall data type,
     BomBuilder.makeComponent (with_files isAbsolute join load E) this data type
     = BomBuilder.makeComponent E this data type).
  { intros data type. unfold BomBuilder.makeComponent. rewrite Hl. reflexivity. }
  split; [exact Hm|]. intros data. unfold BomBuilder.walk. rewrite Hm.
  destruct (as_string (get_prop data "path")); [|reflexivity].
  destruct (BomBuilder.makeComponent E this data _); [|reflexivity].
  now rewrite (LockOnlyFacts.gatherDependencies_same _ E this Hm).
Qed.

Lemma X25_witness :
  BomBuilder.walk
    (with_files (fun _ => true) (fun a b => a ++ b)
       (fun _ => Some (JObj [(s "name", JStr (s "from-manifest"))])) demo)
    (options [] false) ex_nested
  = BomBuilder.walk demo (options [] false) ex_nested.
Proof.
  apply (X25_lock_only_reads_no_manifest demo (options [] false)
           (fun _ => true) (fun a b => a ++ b)
           (fun _ => Some (JObj [(s "name", JStr (s "from-manifest"))]))).
  reflexivity.
Defined.

(** * The paths of the components *)

Module ProvenanceFacts.
Import JsMap JsMapFacts BomBuilder.

Lemma keys_set_In {V : Type} (q p : jsstring) (v : V) (m : JsMap.t V) :
  In p (keys (set q v m)) -> p = q \/ In p (keys m).
Proof.
  rewrite keys_set. destruct (has q m); [now right|].
  rewrite in_app_iff. simpl. intuition.
Qed.

Section WithCollaborators.
Variable E : Collaborators.
Variable this : BomBuilderOptions.

Lemma makeComponent_install_path data type c :
  makeComponent E this data type = Some (MadeComponent c) ->
  install_paths c =
  match as_string (get_prop data "path") with
  | Some p => [p]
  | None => []
  end.
Proof.
  unfold makeComponent. cbv zeta.
  repeat match goal with
  | |- context [if ?b then Some MadeFalse else _] => destruct b; [discriminate|]
  end.
  destruct (if packageLockOnly this then _ else _); [|discriminate].
  destruct (normalizePackageData E _); [|discriminate].
  destruct (componentBuilder_makeComponent E _ type); [|discriminate].
  intros [= <-]. unfold when, when_string, add_distribution.
  repeat match goal with
  | |- context [if ?b then _ else _] => destruct b
  | |- context [match as_string ?v with _ => _ end] => destruct (as_string v)
  end; reflexivity.
Qed.

(** The walk registers listed paths only. *)
Lemma gatherDependencies_listed fuel : forall st data parent st',
  gatherDependencies E this fuel st data parent = Some st' ->
  forall p, In p (keys (allComponents st')) ->
    In p (keys (allComponents st)) \/ listed data p.
Proof.
  induction fuel as [|fuel IH]; intros st data parent st' H; [discriminate|].
  simpl in H.
  assert (G : forall l, incl l (Object_entries (dependencies_of data)) ->
            forall st0 st1,
              for_each (gatherEntry E this (gatherDependencies E this fuel) parent)
                l st0 = Some st1 ->
              forall p, In p (keys (allComponents st1)) ->
                In p (keys (allComponents st0)) \/ listed data p).
  { induction l as [|[depName depData] l IHl]; intros Hl st0 st1 Hf p Hp.
    - injection Hf as <-. now left.
    - cbn [for_each] in Hf.
      destruct (gatherEntry E this _ parent st0 (depName, depData)) as [sm|] eqn:Hb;
        [|discriminate].
      assert (Hin : In (depName, depData) (Object_entries (dependencies_of data)))
        by (apply Hl; now left).
      destruct (IHl (fun e He => Hl e (or_intror He)) sm st1 Hf p Hp) as [Hm|Hm];
        [|now right].
      revert Hb. unfold gatherEntry.
      destruct (is_object depData); simpl negb; cbv iota;
        [|intros [= <-]; now left].
      destruct (as_string (get_prop depData "path")) as [path|] eqn:Hpath;
        [|intros [= <-]; now left].
      destruct (get path (allComponents st0)) as [dep|] eqn:Hg.
      + intros Hr. destruct (IH _ _ _ _ Hr p Hm) as [Hk|Hk]; [now left|].
        right. eapply listed_below; eauto.
      + destruct (makeComponent E this depData None) as [[c| |]|]; try discriminate.
        * intros Hr. destruct (IH _ _ _ _ Hr p Hm) as [Hk|Hk].
          -- cbn [add_dependency allComponents] in Hk.
             apply keys_set_In in Hk as [->|Hk]; [|now left].
             right. eapply listed_here; eauto.
          -- right. eapply listed_below; eauto.
        * intros [= <-]. now left.
        * intros Hr. destruct (IH _ _ _ _ Hr p Hm) as [Hk|Hk].
          -- cbn [add_dependency allComponents] in Hk.
             apply keys_set_In in Hk as [->|Hk]; [|now left].
             right. eapply listed_here; eauto.
          -- right. eapply listed_below; eauto. }
  apply (G _ (incl_refl _) st st' H).
Qed.

(** The walk keeps the install paths with the components. *)
Lemma kept_add_dependency owner dep st :
  paths_kept st -> paths_kept (add_dependency owner dep st).
Proof.
  intros H p c Hg. destruct (H p c Hg) as [comp [Hc Hk]].
  unfold add_dependency. cbn [heap].
  rewrite (nth_error_update_nth owner c _ _ comp Hc). eexists. split; [reflexivity|].
  destruct (owner =? c); exact Hk.
Qed.

Lemma kept_register st path component :
  get path (allComponents st) = None ->
  paths_kept st ->
  (c_isDummy component = true /\ install_paths component = []) \/
  (c_isDummy component = false /\ install_paths component = [path]) ->
  paths_kept (mkState (heap st ++ [component])
                      (set path (List.length (heap st)) (allComponents st))).
Proof.
  intros Hg H Hc p c. cbn [heap allComponents]. rewrite MakeFacts.get_set.
  destruct (str_eqb path p) eqn:Ep.
  - apply str_eqb_eq in Ep. subst p. intros [= <-]. exists component.
    split; [|exact Hc]. rewrite nth_error_app2, Nat.sub_diag by lia. reflexivity.
  - intros Hgp. destruct (H p c Hgp) as [comp [Hcomp Hk]]. exists comp.
    split; [|exact Hk]. rewrite nth_error_app1; [assumption|].
    apply nth_error_Some. congruence.
Qed.

Lemma gatherDependencies_kept fuel : forall st data parent st',
  paths_kept st ->
  gatherDependencies E this fuel st data parent = Some st' ->
  paths_kept st'.
Proof.
  induction fuel as [|fuel IH]; intros st data parent st' Hk H; [discriminate|].
  simpl in H.
  apply (WalkFacts.for_each_inv
           (gatherEntry E this (gatherDependencies E this fuel) parent)
           paths_kept (fun _ _ => True)
           (Object_entries (dependencies_of data))) in H; auto; [tauto|].
  clear st st' Hk H. intros [depName depData] st st' _ Hk Hb.
  split; [|exact I]. revert Hb. unfold gatherEntry.
  destruct (is_object depData); simpl negb; cbv iota; [|intros [= <-]; auto].
  destruct (as_string (get_prop depData "path")) as [path|] eqn:Hp;
    [|intros [= <-]; auto].
  destruct (get path (allComponents st)) as [dep|] eqn:Hg.
  - apply IH. now apply kept_add_dependency.
  - destruct (makeComponent E this depData None) as [[c| |]|] eqn:Hm;
      try discriminate.
    + apply IH. apply kept_add_dependency, kept_register; auto. right.
      rewrite (makeComponent_install_path _ _ _ Hm), Hp.
      split; [|reflexivity]. apply (WalkFacts.makeComponent_fresh E this _ _ _ Hm).
    + intros [= <-]. exact Hk.
    + apply IH. apply kept_add_dependency, kept_register; auto.
Qed.

Lemma walk_kept data rootPath st1 :
  walk E this data = Some (rootPath, st1) -> paths_kept st1.
Proof.
  unfold walk. destruct (as_string (get_prop data "path")) as [p|] eqn:Hp;
    [|discriminate].
  destruct (makeComponent E this data _) as [made|] eqn:Hm; [|discriminate].
  destruct (gatherDependencies E this _ _ data 0) as [st|] eqn:Hg; [|discriminate].
  intros [= <- <-]. apply (gatherDependencies_kept _ _ _ _ _) in Hg; [exact Hg|].
  intros q c. cbn [heap allComponents get].
  destruct (str_eqb p q) eqn:Eq; [|discriminate].
  apply str_eqb_eq in Eq. subst q. intros [= <-]. cbn [nth_error].
  eexists. split; [reflexivity|]. destruct made as [c| |].
  - right. rewrite (makeComponent_install_path _ _ _ Hm), Hp.
    split; [|reflexivity]. apply (WalkFacts.makeComponent_fresh E this _ _ _ Hm).
  - left. split; reflexivity.
  - left. split; reflexivity.
Qed.

End WithCollaborators.
End ProvenanceFacts.

(** X26. When the walk of the build returns, for a root path that is not
    empty, [buildFromNpmLs] returns a document in which every component
    that is not a placeholder carries one install path: the path it is registered under in the component map,
    made relative to the root path (with [path.posix.relative] for a root
    path that starts with [/]; with [path.win32.relative], and its first
    backslash replaced by a slash, for another one), and none when that
    path is empty.  A placeholder carries no install path. *)
Theorem X26_install_path_of_a_component (E : Collaborators)
    (this : BomBuilderOptions) (data : json) (rootPath : jsstring)
    (st1 : State) :
  BomBuilder.walk E this data = Some (rootPath, st1) ->
  rootPath <> [] ->
  exists h bom,
    BomBuilder.buildFromNpmLs E this data = Some (h, bom) /\
    forall p c,
      JsMap.get p (allComponents st1) = Some c ->
      exists comp,
        nth_error h c = Some comp /\
        ((c_isDummy comp = true /\ install_paths comp = []) \/
         (c_isDummy comp = false /\
          (separator_of rootPath = "/"%char ->
           install_paths comp =
             map (path_posix_relative E rootPath) (filter nonempty [p])) /\
          (separator_of rootPath = "\"%char ->
           install_paths comp =
             map (fun value =>
                    replace_first "\"%char (s "/")
                      (path_win32_relative E rootPath value))
                 (filter nonempty [p])))).
Proof.
  intros Hw Hne.
  destruct (BuildFacts.walk_spec E this data rootPath st1 Hw)
    as [made [root1 [_ [_ [Hi _]]]]].
  destruct (BuildFacts.buildFromNpmLs_spec E this data rootPath st1 Hw)
    as [h0 [all [c0 [h [bom [_ [Hb _]]]]]]].
  exists h, bom. split; [exact Hb|].
  intros p c Hg.
  destruct (ProvenanceFacts.walk_kept E this data rootPath st1 Hw p c Hg)
    as [comp1 [Hc1 Hk]].
  assert (Hf := FrameFacts.build_frame E this
                  (fun x => (c_isDummy x, install_paths x)) data rootPath st1 h bom
                  (fun _ _ => eq_refl) (fun _ _ => eq_refl) Hw Hb c).
  destruct Hi as [_ [Hvals _]].
  assert (Hin : In c (JsMap.values (allComponents st1))).
  { apply JsMapFacts.get_In in Hg. change c with (snd (p, c)). now apply in_map. }
  assert (Hnd : NoDup (JsMap.values (allComponents st1)))
    by (rewrite Hvals; apply seq_NoDup).
  destruct (PathFacts.finalize_member_paths E rootPath (JsMap.values (allComponents st1)) (heap st1) c comp1
              Hne Hnd Hin Hc1) as [comp2 [Hc2 [Hd2 [Hposix Hwin]]]].
  rewrite Hc2 in Hf. destruct (nth_error h c) as [comp|]; [|discriminate].
  cbn [option_map] in Hf.
  assert (Hd : c_isDummy comp = c_isDummy comp1) by congruence.
  assert (Hi' : install_paths comp = install_paths comp2) by congruence.
  exists comp. split; [reflexivity|].
  assert (Hsep : separator_of rootPath = "/"%char \/
                 separator_of rootPath = "\"%char).
  { unfold separator_of.
    destruct rootPath as [|[[] [] [] [] [] [] [] []] r]; auto. }
  destruct Hk as [[Hk1 Hk2]|[Hk1 Hk2]].
  - left. split; [congruence|]. rewrite Hi'.
    destruct Hsep as [Es|Es]; [rewrite (Hposix Es) | rewrite (Hwin Es)];
      rewrite Hk2; reflexivity.
  - right. split; [congruence|]. rewrite Hi', <- Hk2. split; assumption.
Qed.

Lemma X26_witness :
  exists st1 h bom comp,
    BomBuilder.walk demo (options [] false) ex_nested = Some (s "/proj", st1) /\
    BomBuilder.buildFromNpmLs demo (options [] false) ex_nested = Some (h, bom) /\
    nth_error h 2 = Some comp /\
    install_paths comp = [s "node_modules/a/node_modules/b"].
Proof.
  destruct (BomBuilder.walk demo (options [] false) ex_nested)
    as [[r st1]|] eqn:Hw; [|vm_compute in Hw; discriminate].
  assert (Hw' := Hw). vm_compute in Hw'. injection Hw' as <- <-.
  destruct (X26_install_path_of_a_component demo (options [] false) ex_nested
              _ _ Hw) as [h [bom [Hb H]]]; [discriminate|].
  destruct (H (s "/proj/node_modules/a/node_modules/b") 2 eq_refl)
    as [comp [Hc [[Hd _]|[_ [Hposix _]]]]].
  - exfalso. vm_compute in Hb. injection Hb as <- _.
    injection Hc as <-. discriminate Hd.
  - eexists _, h, bom, comp. split; [reflexivity|]. split; [exact Hb|].
    split; [exact Hc|]. apply Hposix. reflexivity.
Defined.

(** X27. The walk invents no path: every key of the component map after
    the walk of [buildFromNpmLs] is the path of the root record or the
    [path] of a record listed somewhere below it in the raw tree. *)
Theorem X27_no_invented_paths (E : Collaborators) (this : BomBuilderOptions)
    (data : json) (rootPath : jsstring) (st1 : State) :
  BomBuilder.walk E this data = Some (rootPath, st1) ->
  forall p, In p (JsMap.keys (allComponents st1)) ->
    as_string (get_prop data "path") = Some p \/ listed data p.
Proof.
  unfold BomBuilder.walk.
  destruct (as_string (get_prop data "path")) as [root|]; [|discriminate].
  destruct (BomBuilder.makeComponent E this data _) as [made|]; [|discriminate].
  destruct (BomBuilder.gatherDependencies E this _ _ data 0) as [st|] eqn:Hg;
    [|discriminate].
  intros [= <- <-] p Hp.
  destruct (ProvenanceFacts.gatherDependencies_listed E this _ _ _ _ _ Hg p Hp)
    as [[<-|[]]|H]; auto.
Qed.

Lemma X27_witness :
  exists st1,
    BomBuilder.walk demo (options [] false) ex_nested = Some (s "/proj", st1) /\
    listed ex_nested (s "/proj/node_modules/a/node_modules/b").
Proof.
  destruct (BomBuilder.walk demo (options [] false) ex_nested) as [[r st1]|] eqn:Hw;
    [|vm_compute in Hw; discriminate].
  assert (Hr : r = s "/proj").
  { assert (Hw' := Hw). vm_compute in Hw'. now injection Hw' as <- _. }
  subst r. exists st1. split; [reflexivity|].
  destruct (X27_no_invented_paths demo (options [] false) ex_nested (s "/proj")
              st1 Hw (s "/proj/node_modules/a/node_modules/b")) as [H|H].
  - assert (Hw' := Hw). vm_compute in Hw'. injection Hw' as <-.
    simpl. tauto.
  - discriminate H.
  - exact H.
Defined.
